(** * Grid Engine autoscaler (autoscale_sge.py): model and properties

    A shallow embedding of [workflows/pipe-common/scripts/autoscale_sge.py].

    The script is a Python 2 program: the output of a subprocess is used as
    a [str] ([AllocationRule(exec_result.strip())], ["processors" in line]),
    [math.ceil] is wrapped in [int], and [__nonzero__] / [__cmp__] / the
    [Queue] module are provided for.  Integers are unbounded ([Z]) and [/]
    between two integers is floor division ([Z.div]).

    Exceptions are values of [exn] carried by [result]; a [dict] is a [gmap];
    the replies of the outside world (Grid Engine commands, the cloud API,
    the fate of a worker being set up) enter as arguments. *)

From Stdlib Require Import ZArith List String Ascii Bool Lia.
From Stdlib Require Import Permutation Sorted.
From stdpp Require Import gmap strings.

Local Open Scope Z_scope.

(** ** Exceptions *)

Inductive exn : Type :=
| ExecutionError
| ParsingError
| ScalingError
| APIError
| ValueError
| KeyError
| IndexError
| TypeError
| OverflowError
| RuntimeError.

Inductive result (A : Type) : Type :=
| Ok (a : A)
| Raise (e : exn).

Arguments Ok {A} a.
Arguments Raise {A} e.

Definition bind {A B : Type} (r : result A) (k : A -> result B) : result B :=
  match r with
  | Ok a => k a
  | Raise e => Raise e
  end.

Notation "'do' x <- c ; k" := (bind c (fun x => k))
  (at level 10, x name, c at level 100, k at level 200).
Notation "'do' ' p <- c ; k" := (bind c (fun p => k))
  (at level 10, p pattern, c at level 100, k at level 200).

(** [a or b] on values that are [None], the empty string or a string. *)
Definition py_or (a b : option string) : option string :=
  match a with
  | Some s => if String.eqb s "" then b else a
  | None => b
  end.

(** ** ComputeResource and its three subclasses *)

Module ComputeResource.

Inductive class : Type :=
| FractionalDemand
| IntegralDemand
| ResourceSupply.

Record t : Type := make {
  cls : class;
  cpu : Z;
  gpu : Z;
  mem : Z;
  owner : option string
}.

(** [FractionalDemand(cpu=c, owner=o)], [IntegralDemand(cpu=c, owner=o)]
    and [ResourceSupply(cpu=c)]: the other fields at their defaults. *)
Definition fractional_demand (c : Z) (o : option string) : t :=
  make FractionalDemand c 0 0 o.

Definition integral_demand (c : Z) (o : option string) : t :=
  make IntegralDemand c 0 0 o.

Definition resource_supply (c : Z) : t :=
  make ResourceSupply c 0 0 None.

Definition add (self other : t) : t :=
  make (cls self)
       (cpu self + cpu other)
       (gpu self + gpu other)
       (mem self + mem other)
       (py_or (owner self) (owner other)).

Definition subtract (self other : t) : t * t :=
  (make (cls self)
        (Z.max 0 (cpu self - cpu other))
        (Z.max 0 (gpu self - gpu other))
        (Z.max 0 (mem self - mem other))
        (py_or (owner self) (owner other)),
   make (cls other)
        (Z.max 0 (cpu other - cpu self))
        (Z.max 0 (gpu other - gpu self))
        (Z.max 0 (mem other - mem self))
        (py_or (owner self) (owner other))).

Definition sub (self other : t) : t := fst (subtract self other).

Definition mul (self : t) (other : Z) : t :=
  make (cls self) (cpu self * other) (gpu self * other) (mem self * other)
       (owner self).

Definition gt (self other : t) : Datatypes.bool :=
  (cpu other <? cpu self) || (gpu other <? gpu self) || (mem other <? mem self).

(** [self.__dict__ == other.__dict__]: the class is not part of it. *)
Definition eq (self other : t) : Datatypes.bool :=
  (cpu self =? cpu other) && (gpu self =? gpu other) && (mem self =? mem other)
  && bool_decide (owner self = owner other).

Definition bool (self : t) : Datatypes.bool :=
  0 <? cpu self + gpu self + mem self.

End ComputeResource.

Abbreviation resource := ComputeResource.t.


(** ** Python strings and integers *)

Definition isspace (c : ascii) : bool :=
  let n := N_of_ascii c in
  (N.eqb n 32 || (N.leb 9 n && N.leb n 13))%N.

Definition isdigit (c : ascii) : bool :=
  let n := N_of_ascii c in (N.leb 48 n && N.leb n 57)%N.

Fixpoint lstrip (s : list ascii) : list ascii :=
  match s with
  | c :: s' => if isspace c then lstrip s' else s
  | [] => []
  end.

(** [s.strip()] on the characters of [s]. *)
Definition strip_chars (s : list ascii) : list ascii :=
  rev (lstrip (rev (lstrip s))).

Definition strip (s : string) : string :=
  string_of_list_ascii (strip_chars (list_ascii_of_string s)).

Fixpoint digits_value (acc : Z) (s : list ascii) : result Z :=
  match s with
  | [] => Ok acc
  | c :: s' =>
      if isdigit c
      then digits_value (10 * acc + (Z.of_N (N_of_ascii c) - 48)) s'
      else Raise ValueError
  end.

(** [int(s)] for a [str] in base 10: blanks around the literal and after
    its sign are skipped, one digit at least is required. *)
Definition py_int (s : string) : result Z :=
  let body := strip_chars (list_ascii_of_string s) in
  let '(negative, rest) :=
    match body with
    | "-"%char :: r => (true, lstrip r)
    | "+"%char :: r => (false, lstrip r)
    | _ => (false, body)
    end in
  match rest with
  | [] => Raise ValueError
  | _ => do v <- digits_value 0 rest; Ok (if negative then - v else v)
  end.

(** [float(n)] for an integer [n], as the integer the resulting double
    stands for: 53 significant bits, ties to even, [OverflowError] from
    [2^1024] on. *)
Definition py_float_of_int (n : Z) : result Z :=
  let a := Z.abs n in
  if a <? 2 ^ 53 then Ok n
  else
    let shift := Z.log2 a - 52 in
    let m := Z.shiftr a shift in
    let r := a - Z.shiftl m shift in
    let half := 2 ^ (shift - 1) in
    let m' := if (half <? r) || ((r =? half) && Z.odd m) then m + 1 else m in
    let v := Z.shiftl m' shift in
    if 2 ^ 1024 <=? v then Raise OverflowError
    else Ok (if n <? 0 then - v else v).

(** [int(math.ceil(x))] for an integer [x]: Python 2's [math.ceil] turns its
    argument into a float first, and the ceiling of an integral float is
    itself. *)
Definition py_int_ceil (x : Z) : result Z := py_float_of_int x.

(** The last character of a non-empty string and what precedes it:
    [s[-1]] and [s[:-1]]. *)
Definition split_last (s : string) : option (string * ascii) :=
  match rev (list_ascii_of_string s) with
  | [] => None
  | c :: r => Some (string_of_list_ascii (rev r), c)
  end.

(** ** GridEngine *)

Inductive GridEngineJobState : Type :=
| RUNNING
| PENDING
| SUSPENDED
| ERROR
| DELETED
| UNKNOWN.

Definition GridEngineJobState_eqb (a b : GridEngineJobState) : bool :=
  match a, b with
  | RUNNING, RUNNING | PENDING, PENDING | SUSPENDED, SUSPENDED
  | ERROR, ERROR | DELETED, DELETED | UNKNOWN, UNKNOWN => true
  | _, _ => false
  end.

Module GridEngineJob.

(** [datetime] is a point of the time line, in microseconds. *)
Record t : Type := make {
  id : string;
  root_id : string;
  name : string;
  user : option string;
  state : GridEngineJobState;
  datetime : Z;
  hosts : list string;
  cpu : Z;
  gpu : Z;
  mem : Z;
  pe : string
}.

End GridEngineJob.

Abbreviation job := GridEngineJob.t.

Module AllocationRule.

Inductive t : Type :=
| pe_slots
| fill_up
| round_robin.

(** [AllocationRule(value)]. *)
Definition of_value (value : string) : result t :=
  if String.eqb value "$pe_slots" then Ok pe_slots
  else if String.eqb value "$fill_up" then Ok fill_up
  else if String.eqb value "$round_robin" then Ok round_robin
  else Raise ParsingError.

Definition eqb (a b : t) : bool :=
  match a, b with
  | pe_slots, pe_slots | fill_up, fill_up | round_robin, round_robin => true
  | _, _ => false
  end.

Definition fractional_rules : list t := [round_robin; fill_up].

Definition integral_rules : list t := [pe_slots].

(** [rule in rules]. *)
Definition mem (rule : t) (rules : list t) : bool :=
  existsb (eqb rule) rules.

End AllocationRule.



(** ** [sorted] *)

Section PySorted.

Context {A : Type} (le : A -> A -> bool).

Fixpoint insert_sorted (x : A) (l : list A) : list A :=
  match l with
  | [] => [x]
  | y :: l' => if le x y then x :: l else y :: insert_sorted x l'
  end.

(** A stable sort: of two elements that compare equal, the one that
    comes first in [l] comes first in [sorted l]. *)
Definition sorted (l : list A) : list A :=
  fold_right insert_sorted [] l.

End PySorted.

(** [sorted(l, key=key)] and [sorted(l, key=key, reverse=True)] for an
    integer key; both keep the order of elements with equal keys. *)
Definition sorted_by_key {A : Type} (key : A -> Z) (l : list A) : list A :=
  sorted (fun a b => key a <=? key b) l.

Definition sorted_by_key_reverse {A : Type} (key : A -> Z) (l : list A) : list A :=
  sorted (fun a b => key b <=? key a) l.

(** ** Replies of the Grid Engine commands *)

(** One [queue] element of a [qhost -q -xml] listing that carries the
    configured queue name. *)
Record queue_values : Type := {
  state_string : string;
  slots : Z;
  slots_used : Z;
  slots_resv : Z
}.

Module GridEngine.

Definition modifiers (c : ascii) : option Z :=
  if Ascii.eqb c "k" then Some 1000
  else if Ascii.eqb c "m" then Some (1000 ^ 2)
  else if Ascii.eqb c "g" then Some (1000 ^ 3)
  else if Ascii.eqb c "K" then Some 1024
  else if Ascii.eqb c "M" then Some (1024 ^ 2)
  else if Ascii.eqb c "G" then Some (1024 ^ 3)
  else None.

Definition _parse_mem (mem_request : string) : result Z :=
  match split_last mem_request with
  | None => Ok 0
  | Some (front, last) =>
      do '(number, modifier) <-
        match modifiers last with
        | Some modifier => do number <- py_int front; Ok (number, modifier)
        | None => do number <- py_int mem_request; Ok (number, 1)
        end;
      let size_in_bytes := number * modifier in
      py_int_ceil (size_in_bytes / 1024 ^ 3)
  end.


Definition _BAD_HOST_STATES : list ascii := ["u"; "E"; "d"]%char.

Definition has_bad_state (host_states : string) : bool :=
  existsb (fun host_state => existsb (Ascii.eqb host_state) _BAD_HOST_STATES)
          (list_ascii_of_string host_states).

(** [GridEngine.get_host_supplies], from the reply of [qhost]. *)
Definition get_host_supplies (qhost : result (list queue_values))
  : result (list resource) :=
  do queues <- qhost;
  Ok (map (fun q => ComputeResource.sub
                      (ComputeResource.resource_supply (slots q))
                      (ComputeResource.resource_supply (slots_used q + slots_resv q)))
          (List.filter (fun q => negb (has_bad_state (state_string q))) queues)).

(** [GridEngine.get_pe_allocation_rule], from the reply of [qconf -sp]. *)
Definition get_pe_allocation_rule (qconf_sp : result string)
  : result AllocationRule.t :=
  do exec_result <- qconf_sp;
  if String.eqb exec_result "" then Ok AllocationRule.pe_slots
  else AllocationRule.of_value (strip exec_result).

End GridEngine.

(** [allocation_rules[pe] = allocation_rules.get(pe) or get_pe_allocation_rule(pe)] *)
Definition cached_allocation_rule
    (qconf_sp : string -> result string)
    (allocation_rules : gmap string AllocationRule.t) (pe : string)
  : result (AllocationRule.t * gmap string AllocationRule.t) :=
  do allocation_rule <-
    match allocation_rules !! pe with
    | Some rule => Ok rule
    | None => GridEngine.get_pe_allocation_rule (qconf_sp pe)
    end;
  Ok (allocation_rule, <[pe := allocation_rule]> allocation_rules).

(** ** GridEngineDemandSelector *)

Module GridEngineDemandSelector.

(** The body of the loop for one job whose allocation rule is known:
    the demand that is yielded and the supply that remains. *)
Definition job_demand (allocation_rule : AllocationRule.t)
    (remaining_supply : resource) (j : job) : resource * resource :=
  if AllocationRule.mem allocation_rule AllocationRule.fractional_rules then
    let remaining_demand :=
      ComputeResource.fractional_demand (GridEngineJob.cpu j) (GridEngineJob.user j) in
    let '(remaining_demand, remaining_supply) :=
      ComputeResource.subtract remaining_demand remaining_supply in
    (if negb (ComputeResource.bool remaining_demand)
     then ComputeResource.add remaining_demand
            (ComputeResource.fractional_demand 1 None)
     else remaining_demand,
     remaining_supply)
  else
    (ComputeResource.integral_demand (GridEngineJob.cpu j) (GridEngineJob.user j),
     remaining_supply).

Fixpoint select_loop (qconf_sp : string -> result string)
    (allocation_rules : gmap string AllocationRule.t)
    (remaining_supply : resource) (jobs : list job)
  : result (list resource) :=
  match jobs with
  | [] => Ok []
  | j :: jobs' =>
      do '(allocation_rule, allocation_rules) <-
        cached_allocation_rule qconf_sp allocation_rules (GridEngineJob.pe j);
      let '(remaining_demand, remaining_supply) :=
        job_demand allocation_rule remaining_supply j in
      do demands <- select_loop qconf_sp allocation_rules remaining_supply jobs';
      Ok (remaining_demand :: demands)
  end.

Definition by_root_id (a b : job) : bool :=
  String.leb (GridEngineJob.root_id a) (GridEngineJob.root_id b).

(** [list(select(jobs))]: every demand the generator yields. *)
Definition select (qhost : result (list queue_values))
    (qconf_sp : string -> result string) (jobs : list job)
  : result (list resource) :=
  do supplies <- GridEngine.get_host_supplies qhost;
  let remaining_supply :=
    fold_left ComputeResource.add supplies (ComputeResource.resource_supply 0) in
  select_loop qconf_sp ∅ remaining_supply (sorted by_root_id jobs).

End GridEngineDemandSelector.


(** ** GridEngineJobValidator *)

Module GridEngineJobValidator.

Definition job_demand (j : job) : resource :=
  ComputeResource.make ComputeResource.IntegralDemand
    (GridEngineJob.cpu j) (GridEngineJob.gpu j) (GridEngineJob.mem j) None.

Fixpoint validate_loop (qconf_sp : string -> result string)
    (instance_max_supply cluster_max_supply : resource)
    (allocation_rules : gmap string AllocationRule.t) (jobs : list job)
  : result (list job * list job) :=
  match jobs with
  | [] => Ok ([], [])
  | j :: jobs' =>
      do '(allocation_rule, allocation_rules) <-
        cached_allocation_rule qconf_sp allocation_rules (GridEngineJob.pe j);
      do '(valid_jobs, invalid_jobs) <-
        validate_loop qconf_sp instance_max_supply cluster_max_supply
                      allocation_rules jobs';
      let max_supply :=
        if AllocationRule.mem allocation_rule AllocationRule.fractional_rules
        then cluster_max_supply else instance_max_supply in
      if ComputeResource.gt (job_demand j) max_supply
      then Ok (valid_jobs, j :: invalid_jobs)
      else Ok (j :: valid_jobs, invalid_jobs)
  end.

Definition validate (qconf_sp : string -> result string)
    (instance_max_supply cluster_max_supply : resource) (jobs : list job)
  : result (list job * list job) :=
  validate_loop qconf_sp instance_max_supply cluster_max_supply ∅ jobs.

End GridEngineJobValidator.

(** ** Instances and worker records *)

(** Points of the time line and durations are counted in microseconds. *)
Definition timedelta (seconds : Z) : Z := seconds * 1000000.

Module Instance.

Record t : Type := make {
  name : string;
  price_type : string;
  cpu : Z;
  gpu : Z;
  mem : Z
}.

End Instance.

Abbreviation instance := Instance.t.

Record InstanceDemand : Type := {
  demand_instance : instance;
  demand_owner : option string
}.

Definition ResourceSupply_of (i : instance) : resource :=
  ComputeResource.make ComputeResource.ResourceSupply
    (Instance.cpu i) (Instance.gpu i) (Instance.mem i) None.

Module GridEngineWorkerRecord.

Record t : Type := make {
  id : Z;
  name : option string;
  instance_type : option string;
  started : option Z;
  stopped : option Z;
  has_insufficient_instance_capacity : bool
}.

End GridEngineWorkerRecord.

Abbreviation worker_record := GridEngineWorkerRecord.t.

(** ** The chain of instance providers *)

Module AvailableInstanceProvider.

(** The value of [unavailability] when the loop over the records ends. *)
Definition last_unavailability (records : list worker_record)
    (instance_type : string) : option Z :=
  fold_left
    (fun unavailability record =>
       if bool_decide (GridEngineWorkerRecord.instance_type record
                       = Some instance_type)
       then if GridEngineWorkerRecord.has_insufficient_instance_capacity record
            then GridEngineWorkerRecord.stopped record
            else unavailability
       else unavailability)
    records None.

Definition _is_available (records : list worker_record)
    (unavailability_delay now : Z) (instance_type : string) : bool :=
  let unavailability_expiration := now - timedelta unavailability_delay in
  match last_unavailability records instance_type with
  | None => true
  | Some unavailability => unavailability <? unavailability_expiration
  end.

Definition _get_available (records : list worker_record)
    (unavailability_delay now : Z) (instances : list instance)
  : list instance :=
  List.filter (fun i => _is_available records unavailability_delay now (Instance.name i))
         instances.

Definition provide (records : list worker_record)
    (unavailability_delay now : Z) (allowed_instances : list instance)
  : list instance :=
  match _get_available records unavailability_delay now allowed_instances with
  | [] => allowed_instances
  | available_instances => available_instances
  end.

End AvailableInstanceProvider.

(** The availability filter as the specification words it: an instance
    type is unavailable as soon as some record of the recorder shows an
    insufficient capacity for it and a stop within the delay; unless every
    instance is unavailable, the unavailable ones are dropped. *)
Definition spec_unavailable (records : list worker_record)
    (unavailability_delay now : Z) (i : instance) : Prop :=
  exists record stopped,
    In record records
    /\ GridEngineWorkerRecord.instance_type record = Some (Instance.name i)
    /\ GridEngineWorkerRecord.has_insufficient_instance_capacity record = true
    /\ GridEngineWorkerRecord.stopped record = Some stopped
    /\ now - timedelta unavailability_delay <= stopped.

Definition spec_available_instance_provider : Prop :=
  forall records unavailability_delay now allowed_instances,
    (exists i, In i allowed_instances
               /\ ~ spec_unavailable records unavailability_delay now i) ->
    forall i, In i allowed_instances ->
      spec_unavailable records unavailability_delay now i ->
      ~ In i (AvailableInstanceProvider.provide records unavailability_delay
                now allowed_instances).

(** The decorators of [main]; the family of an instance type, which the
    script extracts with regular expressions, is a predicate on names. *)
Inductive GridEngineInstanceProvider : Type :=
| CloudPipelineInstanceProvider
| DefaultInstanceProvider (inner : GridEngineInstanceProvider)
                          (instance_type : string)
| FamilyInstanceProvider (inner : GridEngineInstanceProvider)
                         (_is_part_of_family : string -> bool)
| SizeLimitingInstanceProvider (inner : GridEngineInstanceProvider)
                               (max_instance_cores : Z)
| AvailableInstanceProviderOf (inner : GridEngineInstanceProvider)
                              (unavailability_delay : Z)
| DescendingInstanceProvider (inner : GridEngineInstanceProvider).

(** [provider.provide()]: [allowed] is the reply of the cloud API,
    [records] what the worker recorder holds, [now] the clock. *)
Fixpoint provide (allowed : result (list instance))
    (records : list worker_record) (now : Z)
    (provider : GridEngineInstanceProvider) : result (list instance) :=
  match provider with
  | CloudPipelineInstanceProvider => allowed
  | DefaultInstanceProvider inner instance_type =>
      do instances <- provide allowed records now inner;
      Ok (List.filter (fun i => String.eqb (Instance.name i) instance_type) instances)
  | FamilyInstanceProvider inner _is_part_of_family =>
      do instances <- provide allowed records now inner;
      Ok (sorted_by_key Instance.cpu
            (List.filter (fun i => _is_part_of_family (Instance.name i)) instances))
  | SizeLimitingInstanceProvider inner max_instance_cores =>
      do instances <- provide allowed records now inner;
      Ok (List.filter (fun i => Instance.cpu i <=? max_instance_cores) instances)
  | AvailableInstanceProviderOf inner unavailability_delay =>
      do instances <- provide allowed records now inner;
      Ok (AvailableInstanceProvider.provide records unavailability_delay now instances)
  | DescendingInstanceProvider inner =>
      do instances <- provide allowed records now inner;
      Ok (sorted_by_key_reverse Instance.cpu instances)
  end.

(** ** Instance selectors *)

(** [collections.Counter] keyed by owners. *)
Module Counter.

Abbreviation t := (gmap (option string) Z).

Definition positive (count : Z) : option Z :=
  if 0 <? count then Some count else None.

(** [self + other]: counts are added and only positive ones are kept. *)
Definition add (self other : t) : t :=
  merge (fun a b =>
           match a, b with
           | Some x, Some y => positive (x + y)
           | Some x, None => positive x
           | None, Some y => positive y
           | None, None => None
           end) self other.

(** [most_common()]: the items by decreasing count. *)
Definition most_common (self : t) : list (option string * Z) :=
  sorted_by_key_reverse snd (map_to_list self).

End Counter.

Module CpuCapacityInstanceSelector.

Fixpoint _apply_loop (remaining_supply : resource) (demands : list resource)
  : result (list resource * list resource) :=
  match demands with
  | [] => Ok ([], [])
  | demand :: rest =>
      if negb (ComputeResource.bool remaining_supply) then Ok (demands, [])
      else
        let '(current_remaining_supply, remaining_demand) :=
          ComputeResource.subtract remaining_supply demand in
        match ComputeResource.cls demand with
        | ComputeResource.IntegralDemand =>
            if ComputeResource.bool remaining_demand then
              do '(remaining_demands, fulfilled_demands) <-
                _apply_loop remaining_supply rest;
              Ok (demand :: remaining_demands, fulfilled_demands)
            else
              do '(remaining_demands, fulfilled_demands) <-
                _apply_loop current_remaining_supply rest;
              Ok (remaining_demands, demand :: fulfilled_demands)
        | ComputeResource.FractionalDemand =>
            do '(remaining_demands, fulfilled_demands) <-
              _apply_loop current_remaining_supply rest;
            let fulfilled_demand := ComputeResource.sub demand remaining_demand in
            Ok (if ComputeResource.bool remaining_demand
                then remaining_demand :: remaining_demands
                else remaining_demands,
                fulfilled_demand :: fulfilled_demands)
        | ComputeResource.ResourceSupply => Raise ScalingError
        end
  end.

(** [(remaining_demands, fulfilled_demands)] *)
Definition _apply (demands : list resource) (supply : resource)
  : result (list resource * list resource) :=
  _apply_loop supply demands.

Definition _resolve_owner (demands : list resource) : result (option string) :=
  let owner_cpus_counter :=
    fold_left Counter.add
      (map (fun demand => {[ ComputeResource.owner demand := ComputeResource.cpu demand ]})
           demands)
      (∅ : Counter.t) in
  match Counter.most_common owner_cpus_counter with
  | [] => Raise IndexError
  | (owner, _) :: _ => Ok owner
  end.

(** What the loop over the instances keeps: [best_capacity] and, once an
    instance has been retained, [(best_instance, best_remaining_demands,
    best_fulfilled_demands)]. *)
Definition best : Type :=
  (Z * option (instance * list resource * list resource))%type.

Definition capacity (reserved_supply : resource) (remaining_demands : list resource)
    (i : instance) : result (Z * (list resource * list resource)) :=
  let supply := ComputeResource.sub (ResourceSupply_of i) reserved_supply in
  do '(current_remaining_demands, current_fulfilled_demands) <-
    _apply remaining_demands supply;
  let current_fulfilled_demand :=
    fold_left ComputeResource.add current_fulfilled_demands
      (ComputeResource.integral_demand 0 None) in
  Ok (ComputeResource.cpu current_fulfilled_demand,
      (current_remaining_demands, current_fulfilled_demands)).

Fixpoint best_loop (reserved_supply : resource) (remaining_demands : list resource)
    (b : best) (instances : list instance) : result best :=
  match instances with
  | [] => Ok b
  | i :: instances' =>
      do '(current_capacity, (current_remaining_demands, current_fulfilled_demands)) <-
        capacity reserved_supply remaining_demands i;
      best_loop reserved_supply remaining_demands
        (if fst b <? current_capacity
         then (current_capacity,
               Some (i, current_remaining_demands, current_fulfilled_demands))
         else b)
        instances'
  end.

(** One resumption of the generator [select]: from the test of the
    [while] to the next [yield], or to the end ([None]).  The state kept
    between two resumptions is [remaining_demands]. *)
Definition select_next (reserved_supply : resource) (instances : list instance)
    (remaining_demands : list resource)
  : result (option (InstanceDemand * list resource)) :=
  match remaining_demands with
  | [] => Ok None
  | _ =>
      do b <- best_loop reserved_supply remaining_demands (0, None) instances;
      match snd b with
      | None => Ok None
      | Some (best_instance, best_remaining_demands, best_fulfilled_demands) =>
          do best_instance_owner <- _resolve_owner best_fulfilled_demands;
          Ok (Some ({| demand_instance := best_instance;
                       demand_owner := best_instance_owner |},
                    best_remaining_demands))
      end
  end.

Fixpoint select_loop (n : nat) (reserved_supply : resource)
    (instances : list instance) (remaining_demands : list resource)
  : result (list InstanceDemand) :=
  match n with
  | O => Ok []
  | S n' =>
      do next <- select_next reserved_supply instances remaining_demands;
      match next with
      | None => Ok []
      | Some (instance_demand, remaining_demands) =>
          do instance_demands <-
            select_loop n' reserved_supply instances remaining_demands;
          Ok (instance_demand :: instance_demands)
      end
  end.

(** [list(itertools.islice(select(demands), n))]: the provider is asked
    when the generator is resumed for the first time. *)
Definition select (n : nat) (provided : result (list instance))
    (reserved_supply : resource) (demands : list resource)
  : result (list InstanceDemand) :=
  match n with
  | O => Ok []
  | _ => do instances <- provided;
         select_loop n reserved_supply instances demands
  end.

End CpuCapacityInstanceSelector.

Module NaiveCpuCapacityInstanceSelector.

Definition fractional_demands (demands : list resource) : list resource :=
  map (fun demand =>
         match ComputeResource.cls demand with
         | ComputeResource.FractionalDemand => demand
         | _ => ComputeResource.make ComputeResource.FractionalDemand
                  (ComputeResource.cpu demand) (ComputeResource.gpu demand)
                  (ComputeResource.mem demand) (ComputeResource.owner demand)
         end) demands.

Definition select (n : nat) (provided : result (list instance))
    (reserved_supply : resource) (demands : list resource)
  : result (list InstanceDemand) :=
  CpuCapacityInstanceSelector.select n provided reserved_supply
    (fractional_demands demands).

End NaiveCpuCapacityInstanceSelector.

Inductive GridEngineInstanceSelector : Type :=
| CpuCapacity
| NaiveCpuCapacity
| BackwardCompatible (batch_size : Z).

Definition instance_selector_select (selector : GridEngineInstanceSelector)
    (n : nat) (provided : result (list instance))
    (reserved_supply : resource) (demands : list resource)
  : result (list InstanceDemand) :=
  match selector with
  | CpuCapacity =>
      CpuCapacityInstanceSelector.select n provided reserved_supply demands
  | NaiveCpuCapacity =>
      NaiveCpuCapacityInstanceSelector.select n provided reserved_supply demands
  | BackwardCompatible batch_size =>
      if 1 <? batch_size
      then CpuCapacityInstanceSelector.select n provided reserved_supply demands
      else NaiveCpuCapacityInstanceSelector.select n provided reserved_supply demands
  end.


(** ** Host storages *)

(** The operations shared by [MemoryHostStorage], [FileSystemHostStorage]
    and [ThreadSafeHostStorage], on the dictionary from host names to the
    time of their last activity that each of them holds ([T] is the type of
    these times).  [FileSystemHostStorage] reads its file before each of
    them and writes it after; a failure of these commands is left out. *)
Section HostStorage.

Context {T : Type}.

Definition add_host (now : T) (host : string) (storage : gmap string T)
  : result (gmap string T) :=
  match storage !! host with
  | Some _ => Raise ScalingError
  | None => Ok (<[host := now]> storage)
  end.

Definition remove_host (host : string) (storage : gmap string T)
  : result (gmap string T) :=
  match storage !! host with
  | Some _ => Ok (delete host storage)
  | None => Raise ScalingError
  end.

Definition update_hosts_activity (hosts : list string) (timestamp : T)
    (storage : gmap string T) : gmap string T :=
  fold_left
    (fun storage host =>
       match storage !! host with
       | Some _ => <[host := timestamp]> storage
       | None => storage
       end)
    hosts storage.

Definition update_running_jobs_host_activity (running_jobs : list job)
    (activity_timestamp : T) (storage : gmap string T) : gmap string T :=
  let active_hosts := concat (map GridEngineJob.hosts running_jobs) in
  match active_hosts with
  | [] => storage
  | _ => update_hosts_activity active_hosts activity_timestamp storage
  end.

Fixpoint get_hosts_activity (hosts : list string) (storage : gmap string T)
  : result (gmap string T) :=
  match hosts with
  | [] => Ok ∅
  | host :: hosts' =>
      match storage !! host with
      | None => Raise ScalingError
      | Some activity =>
          do hosts_activity <- get_hosts_activity hosts' storage;
          Ok (<[host := activity]> hosts_activity)
      end
  end.

Definition load_hosts (storage : gmap string T) : list string :=
  map fst (map_to_list storage).

End HostStorage.

(** ** FileSystemHostStorage: the storage file *)

Module datetime.

Record t : Type := make {
  year : Z;
  month : Z;
  day : Z;
  hour : Z;
  minute : Z;
  second : Z;
  microsecond : Z
}.

Definition digit (n : Z) : ascii :=
  ascii_of_N (Z.to_N (48 + n mod 10)).

(** The [width] last decimal digits of [n]. *)
Fixpoint decimal (width : nat) (n : Z) : string :=
  match width with
  | O => EmptyString
  | S width' => (decimal width' (n / 10) ++ String (digit n) EmptyString)%string
  end.

(** The directives the script uses, and [%f] and [%%]. *)
Definition directive (d : t) (c : ascii) : result string :=
  if Ascii.eqb c "m" then Ok (decimal 2 (month d))
  else if Ascii.eqb c "d" then Ok (decimal 2 (day d))
  else if Ascii.eqb c "Y" then Ok (decimal 4 (year d))
  else if Ascii.eqb c "H" then Ok (decimal 2 (hour d))
  else if Ascii.eqb c "M" then Ok (decimal 2 (minute d))
  else if Ascii.eqb c "S" then Ok (decimal 2 (second d))
  else if Ascii.eqb c "f" then Ok (decimal 6 (microsecond d))
  else if Ascii.eqb c "%" then Ok (String "%" EmptyString)
  else Raise ValueError.

Fixpoint strftime_loop (d : t) (format : string) : result string :=
  match format with
  | EmptyString => Ok EmptyString
  | String "%" (String c format') =>
      do field <- directive d c;
      do rest <- strftime_loop d format';
      Ok (field ++ rest)%string
  | String c format' =>
      do rest <- strftime_loop d format';
      Ok (String c rest)
  end.

(** [d.strftime(format)]; Python 2 refuses the years before 1900. *)
Definition strftime (d : t) (format : string) : result string :=
  if year d <? 1900 then Raise ValueError else strftime_loop d format.

End datetime.

Module FileSystemHostStorage.

Definition _DATETIME_FORMAT : string := "%m/%d/%Y %H:%M:%S".
Definition _VALUE_BREAKER : string := "|".
Definition _LINE_BREAKER : string := String (ascii_of_N 10) EmptyString.
Definition double_quote : string := String (ascii_of_N 34) EmptyString.

(** [sep.join(parts)] *)
Definition join (sep : string) (parts : list string) : string :=
  String.concat sep parts.

Fixpoint hosts_summary_table (hosts : list (string * datetime.t))
  : result (list string) :=
  match hosts with
  | [] => Ok []
  | (host, last_activity) :: hosts' =>
      do formatted_activity <- datetime.strftime last_activity _DATETIME_FORMAT;
      do table <- hosts_summary_table hosts';
      Ok (join _VALUE_BREAKER [host; formatted_activity] :: table)
  end.

(** What is written to the storage file: the [content] of [_REPLACE_FILE]. *)
Definition storage_file_content (hosts : gmap string datetime.t) : result string :=
  do table <- hosts_summary_table (map_to_list hosts);
  Ok (join _LINE_BREAKER table).

(** The command that [_update_storage_file] executes. *)
Definition _update_storage_file (storage_file : string)
    (hosts : gmap string datetime.t) : result string :=
  do content <- storage_file_content hosts;
  Ok ("echo " ++ double_quote ++ content ++ double_quote ++ " > "
      ++ storage_file ++ "_MODIFIED; mv " ++ storage_file ++ "_MODIFIED "
      ++ storage_file)%string.

End FileSystemHostStorage.


(** [host|MM/DD/YYYY HH:MM:SS], written out field by field. *)
Definition storage_line (host : string) (d : datetime.t) : string :=
  (host ++ "|"
   ++ datetime.decimal 2 (datetime.month d) ++ "/"
   ++ datetime.decimal 2 (datetime.day d) ++ "/"
   ++ datetime.decimal 4 (datetime.year d) ++ " "
   ++ datetime.decimal 2 (datetime.hour d) ++ ":"
   ++ datetime.decimal 2 (datetime.minute d) ++ ":"
   ++ datetime.decimal 2 (datetime.second d))%string.

(** The line that the specification gives for a stored host:
    [host|YYYY-MM-DD HH:MM:SS], followed by [.ffffff] when the time stamp
    has microseconds. *)
Definition spec_storage_line (host : string) (d : datetime.t) : string :=
  (host ++ "|"
   ++ datetime.decimal 4 (datetime.year d) ++ "-"
   ++ datetime.decimal 2 (datetime.month d) ++ "-"
   ++ datetime.decimal 2 (datetime.day d) ++ " "
   ++ datetime.decimal 2 (datetime.hour d) ++ ":"
   ++ datetime.decimal 2 (datetime.minute d) ++ ":"
   ++ datetime.decimal 2 (datetime.second d)
   ++ (if (datetime.microsecond d =? 0)%Z then ""
       else "." ++ datetime.decimal 6 (datetime.microsecond d)))%string.

(** ** GridEngineScaleUpHandler: waiting for the pod of a run *)

(** The keys of a run object that the handler reads; [None] is an absent
    key. *)
Record run : Type := {
  run_status : option string;
  run_podId : option string;
  run_podIP : option string
}.

Record KubernetesPod : Type := {
  pod_ip : string;
  pod_name : string
}.

Module GridEngineScaleUpHandler.

Definition _POLL_ATTEMPTS : Z := 60.

(** [run.get('status', 'RUNNING') != 'RUNNING'] *)
Definition not_running (r : run) : bool :=
  match run_status r with
  | None => false
  | Some status => negb (String.eqb status "RUNNING")
  end.

(** What a call leaves behind: its result and the number of times it has
    asked the API for the run. *)
Definition outcome : Type := (result KubernetesPod * nat)%type.

(** The [while attempts != 0] loop.  [load_run k] is the reply of the API
    to the request number [k]; [polls] counts the requests made so far.
    [fuel] bounds the number of iterations that are unfolded: [None] is a
    loop that is still running when the fuel is spent. *)
Fixpoint await_loop (fuel : nat) (load_run : nat -> result run)
    (attempts : Z) (polls : nat) : option outcome :=
  match fuel with
  | O => None
  | S fuel' =>
      if attempts =? 0 then Some (Raise ScalingError, polls)
      else
        match load_run polls with
        | Raise e => Some (Raise e, S polls)
        | Ok r =>
            if not_running r then Some (Raise ScalingError, S polls)
            else
              match run_podIP r with
              | Some ip =>
                  match run_podId r with
                  | Some name =>
                      Some (Ok {| pod_ip := ip; pod_name := name |}, S polls)
                  | None => Some (Raise KeyError, S polls)
                  end
              | None => await_loop fuel' load_run (attempts - 1) (S polls)
              end
        end
  end.

Definition attempts_of (polling_timeout polling_delay : Z) : Z :=
  if polling_delay =? 0 then _POLL_ATTEMPTS
  else polling_timeout / polling_delay.

Definition _await_pod_initialization (fuel : nat)
    (polling_timeout polling_delay : Z) (load_run : nat -> result run)
  : option outcome :=
  await_loop fuel load_run (attempts_of polling_timeout polling_delay) 0.

(** A reply that lets the loop go round once more: the run is running
    and has no [podIP] yet. *)
Definition pending_reply (reply : result run) : bool :=
  match reply with
  | Ok r => negb (not_running r) && bool_decide (run_podIP r = None)
  | Raise _ => false
  end.

End GridEngineScaleUpHandler.


(** ** The daemon *)

(** [RuntimeError] and the exceptions of the script, which all derive
    from it. *)
Definition is_runtime_error (e : exn) : bool :=
  match e with
  | ExecutionError | ParsingError | ScalingError | APIError | RuntimeError => true
  | _ => false
  end.

Fixpoint mapM {A B : Type} (f : A -> result B) (l : list A) : result (list B) :=
  match l with
  | [] => Ok []
  | a :: l' => do b <- f a; do bs <- mapM f l'; Ok (b :: bs)
  end.

(** [ScaleCommonUtils.get_run_id_from_host]: what follows the last ['-']. *)
Definition get_run_id_from_host (host : string) : string :=
  let fix last_element (chars : list ascii) (acc : list ascii) : list ascii :=
    match chars with
    | [] => acc
    | c :: chars' =>
        if Ascii.eqb c "-" then last_element chars' []
        else last_element chars' (acc ++ [c])
    end in
  string_of_list_ascii (last_element (list_ascii_of_string host) []).

(** Where in a tick [qstat] is run. *)
Inductive call_site : Type :=
| InWorkerValidator (host : string)
| InAutoscaler
| InWaitLoop (round : nat)
| InScaleDownHandler (host : string).

(** The five commands of [GridEngine.delete_host], in the order they are
    issued. *)
Inductive host_command : Type :=
| ShutdownExecutionHost
| RemoveHostFromQueueSettings
| RemoveHostFromHostGroup
| RemoveHostFromAdministrativeHosts
| RemoveHostFromGridEngine.

(** What a thread running [GridEngineScaleUpHandler.scale_up] does that the
    rest of the daemon can see.  The handler catches every exception, so it
    leaves at most a run id in the queue of the orchestrator and one host
    in the storage.  (The activity stamp that ends
    [_enable_worker_in_grid_engine] changes the time kept for that host and
    is left out.) *)
Record worker_report : Type := {
  launched : option Z;     (* the run id put in [run_id_queue] *)
  pod : option string;     (* the host name given to [add_host] *)
  lands_in : nat;          (* the round of the wait loop before which
                              [add_host] is called *)
  joined_at : Z            (* the clock at that call *)
}.

(** The replies of the outside world during one tick, [qstat] apart. *)
Record world : Type := {
  now : Z;
  is_valid : string -> result bool;
  run_is_running : string -> bool;
  qdel : bool -> list string -> result unit;
  remove_from_hosts : string -> result unit;
  qconf_sp_validator : string -> result string;
  qconf_sp_selector : string -> result string;
  qhost : result (list queue_values);
  allowed_instance_types : result (list instance);
  provider_now : Z;
  worker : nat -> InstanceDemand -> worker_report;
  wait_rounds : nat;
  wait_now : nat -> Z;
  recorded : Z -> option worker_record;
  host_processors : string -> result Z;
  qmod_disable : string -> result unit;
  qmod_enable : string -> result unit;
  qconf_host : host_command -> string -> result unit;
  pipe_stop : string -> result unit
}.

Record settings : Type := {
  max_additional_hosts : Z;
  scale_up_timeout : Z;
  scale_down_timeout : Z;
  idle_timeout : Z;
  scale_up_batch_size : Z;
  scale_down_batch_size : Z;
  instance_max_supply : resource;
  cluster_max_supply : resource;
  reserved_supply : resource;
  instance_provider : GridEngineInstanceProvider;
  instance_selector : GridEngineInstanceSelector;
  recorder_capacity : nat
}.

(** What the daemon keeps from one tick to the next.  [setting_up] holds
    the handler threads that are still running at the end of a tick
    (they are daemon threads, and nothing stops them when an exception
    ends the wait of the orchestrator). *)
Record daemon : Type := {
  host_storage : gmap string Z;
  static_host_storage : gmap string Z;
  latest_running_job : option job;
  worker_records : list worker_record;
  setting_up : list worker_report
}.

Definition with_host_storage (storage : gmap string Z) (d : daemon) : daemon :=
  {| host_storage := storage;
     static_host_storage := static_host_storage d;
     latest_running_job := latest_running_job d;
     worker_records := worker_records d;
     setting_up := setting_up d |}.

Definition with_running_jobs (running_jobs : list job) (timestamp : Z)
    (latest : option job) (d : daemon) : daemon :=
  {| host_storage :=
       update_running_jobs_host_activity running_jobs timestamp (host_storage d);
     static_host_storage :=
       update_running_jobs_host_activity running_jobs timestamp (static_host_storage d);
     latest_running_job := latest;
     worker_records := worker_records d;
     setting_up := setting_up d |}.

Definition with_worker_records (records : list worker_record) (d : daemon) : daemon :=
  {| host_storage := host_storage d;
     static_host_storage := static_host_storage d;
     latest_running_job := latest_running_job d;
     worker_records := records;
     setting_up := setting_up d |}.

Definition with_setting_up (reports : list worker_report) (d : daemon) : daemon :=
  {| host_storage := host_storage d;
     static_host_storage := static_host_storage d;
     latest_running_job := latest_running_job d;
     worker_records := worker_records d;
     setting_up := reports |}.

Definition is_running_job (j : job) : bool :=
  GridEngineJobState_eqb (GridEngineJob.state j) RUNNING.

Definition is_pending_job (j : job) : bool :=
  GridEngineJobState_eqb (GridEngineJob.state j) PENDING.

(** [host in job.hosts] *)
Definition on_host (host : string) (j : job) : bool :=
  bool_decide (host ∈ GridEngineJob.hosts j).

Section GetJobs.

(** The decoding of a [qstat] listing into jobs (the body of
    [GridEngine.get_jobs] after its [try]), which is not modelled. *)
Variable jobs_of_listing : string -> result (list job).

(** [GridEngine.get_jobs], from the reply of [qstat]. *)
Definition get_jobs (qstat : result string) : result (list job) :=
  match qstat with
  | Raise ExecutionError => Ok []
  | Raise e => Raise e
  | Ok output => jobs_of_listing output
  end.

End GetJobs.

Section Daemon.

Variable settings_ : settings.

(** What [grid_engine.get_jobs()] gives at each place of the tick. *)
Variable get_jobs_at : call_site -> result (list job).

Variable w : world.

Definition kill_jobs (jobs : list job) (force : bool) : result unit :=
  qdel w force (map GridEngineJob.id jobs).

Definition _perform_command (action : result unit) (skip_on_failure : bool)
  : result unit :=
  match action with
  | Ok _ => Ok tt
  | Raise e =>
      if is_runtime_error e
      then if skip_on_failure then Ok tt else Raise RuntimeError
      else Raise e
  end.

Definition delete_host (host : string) (skip_on_failure : bool) : result unit :=
  do _ <- _perform_command (qconf_host w ShutdownExecutionHost host) skip_on_failure;
  do _ <- _perform_command (qconf_host w RemoveHostFromQueueSettings host) skip_on_failure;
  do _ <- _perform_command (qconf_host w RemoveHostFromHostGroup host) skip_on_failure;
  do _ <- _perform_command (qconf_host w RemoveHostFromAdministrativeHosts host) skip_on_failure;
  _perform_command (qconf_host w RemoveHostFromGridEngine host) skip_on_failure.

(** *** GridEngineWorkerValidator *)

Definition is_invalid_host (host : string) : result bool :=
  do valid <- is_valid w host;
  Ok (negb valid || negb (run_is_running w (get_run_id_from_host host))).

Fixpoint invalid_hosts (hosts : list string) : result (list string) :=
  match hosts with
  | [] => Ok []
  | host :: hosts' =>
      do invalid <- is_invalid_host host;
      do others <- invalid_hosts hosts';
      Ok (if invalid then host :: others else others)
  end.

Definition _try_kill_invalid_host_jobs (host : string) : result unit :=
  do jobs <- get_jobs_at (InWorkerValidator host);
  match List.filter (on_host host) jobs with
  | [] => Ok tt
  | invalid_host_jobs => kill_jobs invalid_host_jobs true
  end.

(** The body of the second loop of [validate], for one invalid host. *)
Definition reap (host : string) (storage : gmap string Z)
  : result (gmap string Z) :=
  do _ <- _try_kill_invalid_host_jobs host;
  do _ <- delete_host host true;
  do _ <- remove_from_hosts w host;
  remove_host host storage.

Fixpoint reap_all (hosts : list string) (d : daemon) : result unit * daemon :=
  match hosts with
  | [] => (Ok tt, d)
  | host :: hosts' =>
      match reap host (host_storage d) with
      | Raise e => (Raise e, d)
      | Ok storage => reap_all hosts' (with_host_storage storage d)
      end
  end.

Definition validate (d : daemon) : result unit * daemon :=
  match load_hosts (host_storage d) with
  | [] => (Ok tt, d)
  | hosts =>
      match invalid_hosts hosts with
      | Raise e => (Raise e, d)
      | Ok invalid => reap_all invalid d
      end
  end.

(** *** GridEngineScaleDownHandler and GridEngineScaleDownOrchestrator *)

Definition scale_down_handler (child_host : string) : result bool :=
  do _ <- qmod_disable w child_host;
  do jobs <- get_jobs_at (InScaleDownHandler child_host);
  match List.filter (on_host child_host) jobs with
  | _ :: _ => do _ <- qmod_enable w child_host; Ok false
  | [] =>
      do _ <- delete_host child_host false;
      do _ <- pipe_stop w (get_run_id_from_host child_host);
      do _ <- remove_from_hosts w child_host;
      Ok true
  end.

(** [list(islice(select_hosts_to_scale_down(hosts), batch_size))] *)
Definition hosts_to_scale_down (hosts : list string) : result (list string) :=
  let batch_size := scale_down_batch_size settings_ in
  if batch_size <? 0 then Raise ValueError
  else if batch_size =? 0 then Ok []
  else
    do keyed <- mapM (fun host => do cpu <- host_processors w host;
                                  Ok (host, cpu)) hosts;
    Ok (firstn (Z.to_nat batch_size)
               (map fst (sorted_by_key_reverse snd keyed))).

Fixpoint scale_down_all (hosts : list string) (d : daemon) : result unit * daemon :=
  match hosts with
  | [] => (Ok tt, d)
  | host :: hosts' =>
      match scale_down_handler host with
      | Raise e => (Raise e, d)
      | Ok false => scale_down_all hosts' d
      | Ok true =>
          match remove_host host (host_storage d) with
          | Raise e => (Raise e, d)
          | Ok storage => scale_down_all hosts' (with_host_storage storage d)
          end
      end
  end.

Definition orchestrator_scale_down (inactive_additional_hosts : list string)
    (d : daemon) : result unit * daemon :=
  match hosts_to_scale_down inactive_additional_hosts with
  | Raise e => (Raise e, d)
  | Ok hosts => scale_down_all hosts d
  end.

(** *** GridEngineScaleUpOrchestrator *)

(** A handler reaches [add_host]; when the host is already stored the
    call raises inside the handler and the storage is left as it is. *)
Definition lands (report : worker_report) (d : daemon) : daemon :=
  match pod report with
  | None => d
  | Some host =>
      match add_host (joined_at report) host (host_storage d) with
      | Ok storage => with_host_storage storage d
      | Raise _ => d
      end
  end.

Definition land_all (reports : list worker_report) (d : daemon) : daemon :=
  fold_left (fun d report => lands report d) reports d.

Definition _update_last_activity_for_currently_running_jobs (round : nat)
    (d : daemon) : result daemon :=
  do jobs <- get_jobs_at (InWaitLoop round);
  match List.filter is_running_job jobs with
  | [] => Ok d
  | running_jobs =>
      Ok (with_running_jobs running_jobs (wait_now w round)
                            (latest_running_job d) d)
  end.

(** The wait loop from its round [round] on, [rounds] rounds before all
    the threads are found finished. *)
Fixpoint wait_loop (rounds round : nat) (reports : list worker_report)
    (d : daemon) : result unit * daemon :=
  match rounds with
  | O => (Ok tt, land_all reports d)
  | S rounds' =>
      let '(landing, running) :=
        partition (fun report => Nat.leb (lands_in report) round) reports in
      let d := land_all landing d in
      match _update_last_activity_for_currently_running_jobs round d with
      | Raise e => (Raise e, with_setting_up (setting_up d ++ running) d)
      | Ok d => wait_loop rounds' (S round) running d
      end
  end.

(** [self._records.append(record); self._records = self._records[-capacity:]] *)
Definition record_worker (records : list worker_record) (run_id : Z)
  : list worker_record :=
  match recorded w run_id with
  | None => records
  | Some record =>
      let records := records ++ [record] in
      match recorder_capacity settings_ with
      | O => records
      | capacity => skipn (length records - capacity)%nat records
      end
  end.

Definition orchestrator_scale_up (resource_demands : list resource)
    (max_batch_size : Z) (d : daemon) : result unit * daemon :=
  let stop := Z.min (scale_up_batch_size settings_) max_batch_size in
  if stop <? 0 then (Raise ValueError, d)
  else
    match instance_selector_select (instance_selector settings_) (Z.to_nat stop)
            (provide (allowed_instance_types w) (worker_records d)
                     (provider_now w) (instance_provider settings_))
            (reserved_supply settings_) resource_demands with
    | Raise e => (Raise e, d)
    | Ok [] => (Ok tt, d)
    | Ok instance_demands =>
        let reports := imap (worker w) instance_demands in
        match wait_loop (wait_rounds w) 0 reports d with
        | (Raise e, d) => (Raise e, d)
        | (Ok _, d) =>
            let run_ids := omap launched reports in
            (Ok tt,
             with_worker_records
               (fold_left record_worker run_ids (worker_records d)) d)
        end
    end.

(** *** GridEngineAutoscaler *)

Definition _get_valid_jobs (jobs : list job) : result (list job) :=
  do '(valid_jobs, invalid_jobs) <-
    GridEngineJobValidator.validate (qconf_sp_validator w)
      (instance_max_supply settings_) (cluster_max_supply settings_) jobs;
  match invalid_jobs with
  | [] => Ok valid_jobs
  | _ => do _ <- kill_jobs invalid_jobs false; Ok valid_jobs
  end.

Definition _filter_valid_idle_hosts (inactive_host_candidates : list string)
    (scaling_period_start : Z) (d : daemon) : result (list string) :=
  do hosts_activity <- get_hosts_activity inactive_host_candidates (host_storage d);
  Ok (map fst
        (List.filter (fun '(host, last_activity) =>
                   last_activity + timedelta (idle_timeout settings_)
                   <=? scaling_period_start)
                (map_to_list hosts_activity))).

(** The hosts that [_scale_down] hands over to [scale_down]. *)
Definition inactive_additional_hosts (running_jobs : list job)
    (additional_hosts : list string) (scaling_period_start : option Z)
    (d : daemon) : result (list string) :=
  let active_hosts := concat (map GridEngineJob.hosts running_jobs) in
  let inactive_additional_hosts :=
    List.filter (fun host => negb (bool_decide (host ∈ active_hosts)))
           additional_hosts in
  match inactive_additional_hosts, scaling_period_start with
  | _ :: _, Some start =>
      _filter_valid_idle_hosts inactive_additional_hosts start d
  | _, _ => Ok inactive_additional_hosts
  end.

Definition _scale_down (running_jobs : list job) (additional_hosts : list string)
    (scaling_period_start : option Z) (d : daemon) : result unit * daemon :=
  match inactive_additional_hosts running_jobs additional_hosts
          scaling_period_start d with
  | Raise e => (Raise e, d)
  | Ok [] => (Ok tt, d)
  | Ok hosts => orchestrator_scale_down hosts d
  end.

Definition expired (j : job) : bool :=
  GridEngineJob.datetime j + timedelta (scale_up_timeout settings_) <=? now w.

(** [sorted(running_jobs, key=lambda job: job.datetime, reverse=True)[0]] *)
Definition latest_of (running_jobs : list job) : option job :=
  head (sorted_by_key_reverse GridEngineJob.datetime running_jobs).

(** [scale] from the line that follows [get_jobs()] on. *)
Definition scale_jobs (updated_jobs : list job) (d : daemon)
  : result unit * daemon :=
  let additional_hosts := load_hosts (host_storage d) in
  let running_jobs := List.filter is_running_job updated_jobs in
  let d :=
    match running_jobs with
    | [] => d
    | _ => with_running_jobs running_jobs (now w) (latest_of running_jobs) d
    end in
  if max_additional_hosts settings_ =? 0 then (Ok tt, d)
  else
    let pending_jobs := List.filter is_pending_job updated_jobs in
    match _get_valid_jobs pending_jobs with
    | Raise e => (Raise e, d)
    | Ok [] =>
        match latest_running_job d with
        | Some latest =>
            if GridEngineJob.datetime latest
               + timedelta (scale_down_timeout settings_) <=? now w
            then _scale_down running_jobs additional_hosts (Some (now w)) d
            else (Ok tt, d)
        | None => _scale_down running_jobs additional_hosts (Some (now w)) d
        end
    | Ok waiting_jobs =>
        match List.filter expired waiting_jobs with
        | [] => (Ok tt, d)
        | _ =>
            if Z.of_nat (length additional_hosts) <? max_additional_hosts settings_
            then
              match GridEngineDemandSelector.select (qhost w)
                      (qconf_sp_selector w) waiting_jobs with
              | Raise e => (Raise e, d)
              | Ok resource_demands =>
                  orchestrator_scale_up resource_demands
                    (max_additional_hosts settings_
                     - Z.of_nat (length additional_hosts)) d
              end
            else _scale_down running_jobs additional_hosts None d
        end
    end.

Definition scale (d : daemon) : result unit * daemon :=
  match get_jobs_at InAutoscaler with
  | Raise e => (Raise e, d)
  | Ok updated_jobs => scale_jobs updated_jobs d
  end.

(** *** GridEngineAutoscalingDaemon *)

(** One round of [start]: the validator, the autoscaler, the tags
    handler (which reads the storages and writes none of them); an
    exception ends the round where it is raised.  The handlers of
    [setting_up] run beside the round: this is the round in which none of
    them reaches [add_host] meanwhile (see [straggler_lands]). *)
Definition tick (d : daemon) : daemon :=
  match validate d with
  | (Raise _, d) => d
  | (Ok _, d) => snd (scale d)
  end.

End Daemon.

(** A tick of the daemon, from the replies of [qstat]. *)
Definition daemon_tick (jobs_of_listing : string -> result (list job))
    (settings_ : settings) (qstat : call_site -> result string) (w : world)
    (d : daemon) : daemon :=
  tick settings_ (fun site => get_jobs jobs_of_listing (qstat site)) w d.

(** A handler that outlived its tick reaches [add_host] between two ticks. *)
Definition straggler_lands (i : nat) (d : daemon) : daemon :=
  match setting_up d !! i with
  | None => d
  | Some report =>
      match pod report with
      | None => with_setting_up (delete i (setting_up d)) d
      | Some host =>
          let d := with_setting_up (delete i (setting_up d)) d in
          match add_host (joined_at report) host (host_storage d) with
          | Ok storage => with_host_storage storage d
          | Raise _ => d
          end
      end
  end.


(** ** The providers that [main] assembles *)

(** The provider of the descending autoscaling: the family of the
    configured instance type, no more cores than it has, what is available,
    the biggest first. *)
Definition descending_autoscale_provider (family : string -> bool)
    (descending_instance_cores scale_up_unavailability_delay : Z)
  : GridEngineInstanceProvider :=
  let instance_provider := FamilyInstanceProvider CloudPipelineInstanceProvider family in
  let instance_provider :=
    if descending_instance_cores =? 0 then instance_provider
    else SizeLimitingInstanceProvider instance_provider descending_instance_cores in
  let instance_provider :=
    if scale_up_unavailability_delay =? 0 then instance_provider
    else AvailableInstanceProviderOf instance_provider scale_up_unavailability_delay in
  DescendingInstanceProvider instance_provider.

(** ** GridEngineScaleUpHandler: the waits that follow the pod *)

(** What one round of a loop [while attempts > 0: ...] comes to: the loop
    is left with a result or an exception, or the round ends on
    [attempts -= 1]. *)
Inductive poll (A : Type) : Type :=
| Done (r : result A)
| Again.

Arguments Done {A} r.
Arguments Again {A}.

(** [while attempts > 0: body; attempts -= 1], followed by
    [raise ScalingError(...)].  [body k] is the round number [k];
    [fuel] bounds the rounds that are unfolded, as in [await_loop]. *)
Fixpoint poll_loop {A : Type} (fuel : nat) (body : nat -> poll A)
    (attempts : Z) (polls : nat) : option (result A * nat) :=
  match fuel with
  | O => None
  | S fuel' =>
      if 0 <? attempts then
        match body polls with
        | Done r => Some (r, S polls)
        | Again => poll_loop fuel' body (attempts - 1) (S polls)
        end
      else Some (Raise ScalingError, polls)
  end.

(** The keys of a run object that [_await_worker_initialization] reads. *)
Record worker_run : Type := {
  worker_status : option string;
  worker_initialized : option bool
}.

(** One round of [_await_worker_initialization]: [run] is the reply to
    [load_run], [tasks] the reply to [load_task(run_id, 'SGEWorkerSetup')],
    reduced to the status of each task. *)
Definition worker_initialization_round (run : result worker_run)
    (tasks : result (list (option string))) : poll unit :=
  match run with
  | Raise e => Done (Raise e)
  | Ok r =>
      if match worker_status r with
         | None => false
         | Some status => negb (String.eqb status "RUNNING")
         end
      then Done (Raise ScalingError)
      else
        match worker_initialized r with
        | None => Done (Raise KeyError)
        | Some false => Again
        | Some true =>
            match tasks with
            | Raise e => Done (Raise e)
            | Ok run_sge_tasks =>
                if existsb (fun status =>
                              bool_decide (status = Some "SUCCESS"%string))
                           run_sge_tasks
                then Done (Ok tt)
                else Again
            end
        end
  end.

Definition _await_worker_initialization (fuel : nat)
    (polling_timeout polling_delay : Z) (load_run : nat -> result worker_run)
    (load_task : nat -> result (list (option string)))
  : option (result unit * nat) :=
  poll_loop fuel
    (fun k => worker_initialization_round (load_run k) (load_task k))
    (GridEngineScaleUpHandler.attempts_of polling_timeout polling_delay) 0.

Definition _GE_POLL_ATTEMPTS : Z := 6.

(** One round of [_enable_worker_in_grid_engine]: [enabled] is how
    [enable_host] ends and [stamped] how the update of the storage that
    follows it does; every exception is caught. *)
Definition enable_round (enabled stamped : result unit) : poll unit :=
  match (do _ <- enabled; stamped) with
  | Ok _ => Done (Ok tt)
  | Raise _ => Again
  end.

Definition _enable_worker_in_grid_engine (fuel : nat)
    (ge_polling_timeout polling_delay : Z)
    (enable_host stamp : nat -> result unit)
  : option (result unit * nat) :=
  poll_loop fuel (fun k => enable_round (enable_host k) (stamp k))
    (if polling_delay =? 0 then _GE_POLL_ATTEMPTS
     else ge_polling_timeout / polling_delay) 0.

(** ** CloudPipelineAPI *)

(** The body of a reply of the API, and the reply itself. *)
Record api_data (P : Type) : Type := {
  data_status : option string;
  data_message : option string;
  data_payload : option P
}.

Arguments data_status {P} _.
Arguments data_message {P} _.
Arguments data_payload {P} _.

Record api_response (P : Type) : Type := {
  status_code : Z;
  json : result (api_data P)
}.

Arguments status_code {P} _.
Arguments json {P} _.

Section CloudPipelineAPI.

Context {P : Type}.

(** [self.pipe.RESPONSE_STATUS_OK], a constant of the [pipeline] package. *)
Variable RESPONSE_STATUS_OK : string.

(** The [try] block of [_execute_request] for one reply of [requests.get].
    [HTTPError] is kept as the [RuntimeError] it derives from. *)
Definition request_outcome (reply : result (api_response P)) : result (option P) :=
  do response <- reply;
  if negb (status_code response =? 200) then Raise RuntimeError
  else
    do data <- json response;
    match data_status data with
    | None => Raise APIError
    | Some status =>
        if String.eqb status "" then Raise APIError
        else if negb (String.eqb status RESPONSE_STATUS_OK) then Raise APIError
        else Ok (data_payload data)
    end.

(** The loop of [_execute_request]: [count] requests have been made and
    [exceptions] holds what they raised. *)
Fixpoint execute_request_loop (fuel : nat)
    (get : nat -> result (api_response P)) (attempts : Z) (count : nat)
    (exceptions : list exn) : option (result (option P) * nat) :=
  match fuel with
  | O => None
  | S fuel' =>
      if Z.of_nat count <? attempts then
        match request_outcome (get count) with
        | Ok payload => Some (Ok payload, S count)
        | Raise e =>
            execute_request_loop fuel' get attempts (S count) (exceptions ++ [e])
        end
      else
        Some (match last exceptions with
              | Some e => Raise e
              | None => Raise IndexError
              end, count)
  end.

Definition _execute_request (fuel : nat) (get : nat -> result (api_response P))
    (attempts : Z) : option (result (option P) * nat) :=
  execute_request_loop fuel get attempts 0 [].

End CloudPipelineAPI.

(** ** Reading the job listing *)

(** [GridEngineJobState._letter_codes_to_states], a dictionary: its keys
    come in an order that the script does not choose. *)
Definition _letter_codes_to_states : list (GridEngineJobState * list string) :=
  [(RUNNING, ["r"; "t"; "Rr"; "Rt"]);
   (PENDING, ["qw"; "qw"; "hqw"; "hqw"; "hRwq"; "hRwq"; "hRwq"; "qw"; "qw"]);
   (SUSPENDED, ["s"; "ts"; "S"; "tS"; "T"; "tT"; "Rs"; "Rts"; "RS"; "RtS"; "RT";
                "RtT"]);
   (ERROR, ["Eqw"; "Ehqw"; "EhRqw"]);
   (DELETED, ["dr"; "dt"; "dRr"; "dRt"; "ds"; "dS"; "dT"; "dRs"; "dRS"; "dRT"])]%string.

(** [from_letter_code(code)], the keys being met in the order of [states];
    [code] is [None] when the job has no [state] element.  The last line,
    [raise GridEngineJobState.UNKNOWN], raises a [str]: a [TypeError]. *)
Fixpoint from_letter_code (states : list (GridEngineJobState * list string))
    (code : option string) : result GridEngineJobState :=
  match states with
  | [] => Raise TypeError
  | (key, codes) :: states' =>
      if existsb (fun c => bool_decide (code = Some c)) codes then Ok key
      else from_letter_code states' code
  end.

(** [s.split(sep)] for a separator of one character. *)
Fixpoint split_chars (sep : ascii) (s : list ascii) : list (list ascii) :=
  match s with
  | [] => [[]]
  | c :: s' =>
      if Ascii.eqb c sep then [] :: split_chars sep s'
      else
        match split_chars sep s' with
        | part :: parts => (c :: part) :: parts
        | [] => [[c]]
        end
  end.

Definition py_split (sep : ascii) (s : string) : list string :=
  map string_of_list_ascii (split_chars sep (list_ascii_of_string s)).

(** [range(start, stop)] *)
Definition py_range (start stop : Z) : list Z :=
  map (fun k => start + Z.of_nat k) (seq 0 (Z.to_nat (stop - start))).

(** The body of the loop of [_parse_array] for one interval. *)
Definition parse_interval (interval : string) : result (list Z) :=
  if existsb (Ascii.eqb ":") (list_ascii_of_string interval) then
    match py_split ":" interval with
    | [array_borders; _] =>
        match py_split "-" array_borders with
        | [start; stop] =>
            do start <- py_int start;
            do stop <- py_int stop;
            Ok (py_range start (stop + 1))
        | _ => Raise ValueError
        end
    | _ => Raise ValueError
    end
  else do task <- py_int interval; Ok [task].

Fixpoint parse_intervals (intervals : list string) : result (list Z) :=
  match intervals with
  | [] => Ok []
  | interval :: intervals' =>
      do tasks <- parse_interval interval;
      do others <- parse_intervals intervals';
      Ok (tasks ++ others)
  end.

(** [GridEngine._parse_array]; [array_jobs] is [None] when the job has no
    [tasks] element. *)
Definition _parse_array (array_jobs : option string) : result (list Z) :=
  match array_jobs with
  | None => Ok []
  | Some array_jobs =>
      if String.eqb array_jobs "" then Ok []
      else parse_intervals (py_split "," array_jobs)
  end.

(** ** GridEngineWorkerTagsHandler *)

Record LastActionMarker : Type := {
  last_action_timestamp : option Z;
  last_tag_timestamp : option Z
}.

(** What the handler keeps from one round to the next, and beside it the
    calls of [update_pipeline_run_tags] that went through, the oldest
    first: the run and the tags it was given. *)
Record tags_handler : Type := {
  last_monitored_hosts : gmap string LastActionMarker;
  tag_updates : list (string * gmap string string)
}.

(** Where in a round of the handler the clock is read. *)
Inductive clock_site : Type :=
| InRunIsActive (host : string)
| InTagRun (host : string).

Module GridEngineWorkerTagsHandler.

Definition _WORKER_TAG : string := "SGE_IN_USE".

Section Handler.

(** [tagging_active_timeout], in seconds. *)
Variable tagging_active_timeout : Z.

Variable clock_now : clock_site -> Z.

(** The reply to [api.load_run(run_id)], reduced to [run.get('tags')]. *)
Variable load_run : string -> result (option (gmap string string)).

Variable update_pipeline_run_tags : string -> gmap string string -> result unit.

Definition with_tag_updates (updates : list (string * gmap string string))
    (h : tags_handler) : tags_handler :=
  {| last_monitored_hosts := last_monitored_hosts h; tag_updates := updates |}.

Definition with_monitored_hosts (hosts : gmap string LastActionMarker)
    (h : tags_handler) : tags_handler :=
  {| last_monitored_hosts := hosts; tag_updates := tag_updates h |}.

Definition _add_worker_tag (run_id : string) (h : tags_handler)
  : result unit * tags_handler :=
  match load_run run_id with
  | Raise e => (Raise e, h)
  | Ok run_tags =>
      let tags := <[_WORKER_TAG := "true"%string]> (default ∅ run_tags) in
      match update_pipeline_run_tags run_id tags with
      | Raise e => (Raise e, h)
      | Ok _ => (Ok tt, with_tag_updates (tag_updates h ++ [(run_id, tags)]) h)
      end
  end.

Definition _remove_worker_tag (run_id : string) (h : tags_handler)
  : result unit * tags_handler :=
  match load_run run_id with
  | Raise e => (Raise e, h)
  | Ok run_tags =>
      let tags := default ∅ run_tags in
      match tags !! _WORKER_TAG with
      | None => (Ok tt, h)
      | Some _ =>
          let tags := delete _WORKER_TAG tags in
          match update_pipeline_run_tags run_id tags with
          | Raise e => (Raise e, h)
          | Ok _ => (Ok tt, with_tag_updates (tag_updates h ++ [(run_id, tags)]) h)
          end
      end
  end.

Definition _run_is_active (host : string) (timestamp : Z) : bool :=
  clock_now (InRunIsActive host) - timedelta tagging_active_timeout <? timestamp.

(** Both fields of the marker are written, so that nothing is left of
    [last_monitored_timestamps]. *)
Definition _tag_run (host : string) (timestamp : Z)
    (last_monitored_timestamps : LastActionMarker) (h : tags_handler)
  : result unit * tags_handler :=
  match _add_worker_tag (get_run_id_from_host host) h with
  | (Raise e, h) => (Raise e, h)
  | (Ok _, h) =>
      let marker := {| last_action_timestamp := Some timestamp;
                       last_tag_timestamp := Some (clock_now (InTagRun host)) |} in
      (Ok tt, with_monitored_hosts (<[host := marker]> (last_monitored_hosts h)) h)
  end.

Definition _untag_run (host : string) (timestamp : option Z)
    (last_monitored_timestamps : option LastActionMarker) (h : tags_handler)
  : result unit * tags_handler :=
  match _remove_worker_tag (get_run_id_from_host host) h with
  | (Raise e, h) => (Raise e, h)
  | (Ok _, h) =>
      match last_monitored_timestamps with
      | None =>
          match last_monitored_hosts h !! host with
          | None => (Raise KeyError, h)
          | Some _ =>
              (Ok tt, with_monitored_hosts (delete host (last_monitored_hosts h)) h)
          end
      | Some _ =>
          let marker := {| last_action_timestamp := timestamp;
                           last_tag_timestamp := None |} in
          (Ok tt, with_monitored_hosts (<[host := marker]> (last_monitored_hosts h)) h)
      end
  end.

(** The body of the loop of [_process_current_hosts].  The test
    [if not timestamp] never holds: a [datetime] is true. *)
Definition process_current_host (hosts_activity : gmap string Z)
    (current_host : string) (h : tags_handler) : result unit * tags_handler :=
  match hosts_activity !! current_host with
  | None => (Raise KeyError, h)
  | Some timestamp =>
      match last_monitored_hosts h !! current_host with
      | None =>
          let last_action_marker := {| last_action_timestamp := None;
                                       last_tag_timestamp := None |} in
          (Ok tt,
           with_monitored_hosts
             (<[current_host := last_action_marker]> (last_monitored_hosts h)) h)
      | Some last_monitored_timestamps =>
          if _run_is_active current_host timestamp then
            match last_tag_timestamp last_monitored_timestamps with
            | None => _tag_run current_host timestamp last_monitored_timestamps h
            | Some _ => (Ok tt, h)
            end
          else
            match last_tag_timestamp last_monitored_timestamps with
            | Some _ =>
                _untag_run current_host (Some timestamp)
                  (Some last_monitored_timestamps) h
            | None => (Ok tt, h)
            end
      end
  end.

Fixpoint _process_current_hosts (current_hosts : list string)
    (hosts_activity : gmap string Z) (h : tags_handler)
  : result unit * tags_handler :=
  match current_hosts with
  | [] => (Ok tt, h)
  | current_host :: current_hosts' =>
      match process_current_host hosts_activity current_host h with
      | (Raise e, h) => (Raise e, h)
      | (Ok _, h) => _process_current_hosts current_hosts' hosts_activity h
      end
  end.

Fixpoint _process_outdated_hosts (monitored_hosts current_hosts : list string)
    (h : tags_handler) : result unit * tags_handler :=
  match monitored_hosts with
  | [] => (Ok tt, h)
  | monitored_host :: monitored_hosts' =>
      if bool_decide (monitored_host ∈ current_hosts)
      then _process_outdated_hosts monitored_hosts' current_hosts h
      else
        match _untag_run monitored_host None None h with
        | (Raise e, h) => (Raise e, h)
        | (Ok _, h) => _process_outdated_hosts monitored_hosts' current_hosts h
        end
  end.

(** The [try] block of [process_tags]; [static_hosts] is what the static
    storage held when the handler was made. *)
Definition try_process_tags (host_storage static_host_storage : gmap string Z)
    (static_hosts : list string) (h : tags_handler)
  : result unit * tags_handler :=
  let current_hosts := load_hosts host_storage in
  match get_hosts_activity current_hosts host_storage with
  | Raise e => (Raise e, h)
  | Ok hosts_activity =>
      match get_hosts_activity static_hosts static_host_storage with
      | Raise e => (Raise e, h)
      | Ok static_hosts_activity =>
          let hosts_activity := static_hosts_activity ∪ hosts_activity in
          let monitored_hosts := map fst (map_to_list (last_monitored_hosts h)) in
          let current_hosts := current_hosts ++ static_hosts in
          match _process_current_hosts current_hosts hosts_activity h with
          | (Raise e, h) => (Raise e, h)
          | (Ok _, h) => _process_outdated_hosts monitored_hosts current_hosts h
          end
      end
  end.

(** [process_tags]: whatever is raised is logged and dropped. *)
Definition process_tags (host_storage static_host_storage : gmap string Z)
    (static_hosts : list string) (h : tags_handler) : tags_handler :=
  snd (try_process_tags host_storage static_host_storage static_hosts h).

End Handler.

End GridEngineWorkerTagsHandler.

(** ** Notions used in the statements *)

(** The demands that [select] emits for jobs taken in order, once the
    allocation rule of every parallel environment is known. *)
Fixpoint demands_of (rule_of : string -> AllocationRule.t)
    (remaining_supply : resource) (jobs : list job) : list resource :=
  match jobs with
  | [] => []
  | j :: jobs' =>
      let '(remaining_demand, remaining_supply) :=
        GridEngineDemandSelector.job_demand
          (rule_of (GridEngineJob.pe j)) remaining_supply j in
      remaining_demand :: demands_of rule_of remaining_supply jobs'
  end.

(** The free supply of the cluster that remains when the loop of [select]
    reaches the job at position [k]. *)
Definition remaining_supply_before (rule_of : string -> AllocationRule.t)
    (supplies : list resource) (jobs : list job) (k : nat) : resource :=
  fold_left
    (fun remaining_supply j =>
       snd (GridEngineDemandSelector.job_demand
              (rule_of (GridEngineJob.pe j)) remaining_supply j))
    (firstn k jobs)
    (fold_left ComputeResource.add supplies (ComputeResource.resource_supply 0)).

(** What the specification says of an integral job: the demand emitted for
    it carries the cpu, the gpu and the mem of the job. *)
Definition spec_integral_demand : Prop :=
  forall qhost qconf_sp jobs demands k j d,
    GridEngineDemandSelector.select qhost qconf_sp jobs = Ok demands ->
    sorted GridEngineDemandSelector.by_root_id jobs !! k = Some j ->
    demands !! k = Some d ->
    GridEngine.get_pe_allocation_rule (qconf_sp (GridEngineJob.pe j))
    = Ok AllocationRule.pe_slots ->
    (ComputeResource.cpu d, ComputeResource.gpu d, ComputeResource.mem d)
    = (GridEngineJob.cpu j, GridEngineJob.gpu j, GridEngineJob.mem j).

(** A supply whose gpu and mem are not negative. *)
Definition no_debt (supply : resource) : Prop :=
  0 <= ComputeResource.gpu supply /\ 0 <= ComputeResource.mem supply.

(** The record that decides for an instance type: the last one, in the
    order of recording, that is of this type and shows an insufficient
    capacity. *)
Definition deciding_record (records : list worker_record) (instance_type : string)
  : option worker_record :=
  last (List.filter
          (fun record =>
             bool_decide (GridEngineWorkerRecord.instance_type record
                          = Some instance_type)
             && GridEngineWorkerRecord.has_insufficient_instance_capacity record)
          records).

(** The bound on the additional hosts as the specification states it, for
    every tick whatever the storage holds when the tick begins. *)
Definition spec_hosts_within_max : Prop :=
  forall settings_ get_jobs_at w d,
    Z.of_nat (size (host_storage (tick settings_ get_jobs_at w d)))
    <= max_additional_hosts settings_.

(** The cpu that a list of demands asks for, all together. *)
Fixpoint total_cpu (demands : list resource) : Z :=
  match demands with
  | [] => 0
  | demand :: demands' => ComputeResource.cpu demand + total_cpu demands'
  end.

(** A demand as the demand selector emits them: an [IntegralDemand] or a
    [FractionalDemand], with a cpu that is not negative. *)
Definition is_demand (demand : resource) : Prop :=
  0 <= ComputeResource.cpu demand
  /\ ComputeResource.cls demand <> ComputeResource.ResourceSupply.

(** The cpu that the demands of one owner ask for. *)
Definition owner_cpu (owner : option string) (demands : list resource) : Z :=
  total_cpu (List.filter (fun demand => bool_decide (ComputeResource.owner demand = owner))
               demands).

(** A string in which the character [c] does not occur. *)
Definition without (c : ascii) (s : string) : Prop :=
  ~ In c (list_ascii_of_string s).

(** The last activity that the tags handler reads for a host: from the
    static storage for a static host, from the additional one otherwise. *)
Definition last_activity (host_storage static_host_storage : gmap string Z)
    (static_hosts : list string) (host : string) : option Z :=
  if bool_decide (host ∈ static_hosts) then static_host_storage !! host
  else host_storage !! host.

(** A marker of a run that carries the tag. *)
Definition tagged (marker : LastActionMarker) : Prop :=
  is_Some (last_tag_timestamp marker).

(** [h'] has the tag updates of [h] and then some, each of which is [P]. *)
Definition updates_since (P : string * gmap string string -> Prop)
    (h h' : tags_handler) : Prop :=
  exists new, tag_updates h' = tag_updates h ++ new /\ Forall P new.

(** What justifies a tag: the host was monitored and not tagged, and its
    last activity is recent. *)
Definition tag_of (tagging_active_timeout : Z) (clock_now : clock_site -> Z)
    (hosts_activity : gmap string Z) (host : string)
    (h : tags_handler) (entry : string * gmap string string) : Prop :=
  is_Some (snd entry !! GridEngineWorkerTagsHandler._WORKER_TAG) ->
  fst entry = get_run_id_from_host host
  /\ snd entry !! GridEngineWorkerTagsHandler._WORKER_TAG = Some "true"%string
  /\ exists timestamp marker,
       hosts_activity !! host = Some timestamp
       /\ clock_now (InRunIsActive host) - timedelta tagging_active_timeout
          < timestamp
       /\ last_monitored_hosts h !! host = Some marker
       /\ last_tag_timestamp marker = None.

(** A reply that keeps [_await_pod_initialization] waiting: the run is
    RUNNING, or says nothing of its status, and has no [podIP] yet. *)
Definition pod_pending (reply : result run) : Prop :=
  exists r, reply = Ok r
            /\ (run_status r = None \/ run_status r = Some "RUNNING"%string)
            /\ run_podIP r = None.

(** The wait for the pod as the specification states it: a pod is
    returned as soon as a reply carries [podIP]. *)
Definition spec_await_pod_initialization : Prop :=
  forall (polling_timeout polling_delay : Z) (load_run : nat -> result run),
    0 < polling_timeout -> 0 < polling_delay ->
    let attempts := Z.to_nat (polling_timeout / polling_delay) in
    exists res polls,
      (forall fuel, (attempts < fuel)%nat ->
         GridEngineScaleUpHandler._await_pod_initialization
           fuel polling_timeout polling_delay load_run = Some (res, polls))
      /\ (polls <= attempts)%nat
      /\ ((forall k, (k < attempts)%nat -> pod_pending (load_run k)) ->
          res = Raise ScalingError)
      /\ (forall k r,
            (k < attempts)%nat ->
            (forall j, (j < k)%nat -> pod_pending (load_run j)) ->
            load_run k = Ok r ->
            (forall status,
               run_status r = Some status -> status <> "RUNNING"%string ->
               res = Raise ScalingError)
            /\ (forall ip,
                  run_status r = None \/ run_status r = Some "RUNNING"%string ->
                  run_podIP r = Some ip ->
                  exists name, res = Ok {| pod_ip := ip; pod_name := name |})).

(** A failing [qstat] as the specification states it: the tick is the one
    of a listing without pending and without running jobs. *)
Definition spec_qstat_failure_is_no_job : Prop :=
  forall jobs_of_listing settings_ w d output jobs,
    jobs_of_listing output = Ok jobs ->
    List.filter is_running_job jobs = [] ->
    List.filter is_pending_job jobs = [] ->
    daemon_tick jobs_of_listing settings_ (fun _ => Raise ExecutionError) w d
    = daemon_tick jobs_of_listing settings_ (fun _ => Ok output) w d.

(** ** Inputs of the examples *)

(** A world in which every command succeeds, every host is valid and every
    worker comes up under the name [pipeline-<n>]. *)
Definition calm_world (now_ : Z) (instances : list instance) : world :=
  {| now := now_;
     is_valid := fun _ => Ok true;
     run_is_running := fun _ => true;
     qdel := fun _ _ => Ok tt;
     remove_from_hosts := fun _ => Ok tt;
     qconf_sp_validator := fun _ => Ok "$pe_slots"%string;
     qconf_sp_selector := fun _ => Ok "$pe_slots"%string;
     qhost := Ok [];
     allowed_instance_types := Ok instances;
     provider_now := now_;
     worker := fun n _ =>
       {| launched := Some (100 + Z.of_nat n);
          pod := Some ("pipeline-10" ++ String (datetime.digit (Z.of_nat n)) "")%string;
          lands_in := 0;
          joined_at := now_ |};
     wait_rounds := 1;
     wait_now := fun _ => now_;
     recorded := fun _ => None;
     host_processors := fun _ => Ok 4;
     qmod_disable := fun _ => Ok tt;
     qmod_enable := fun _ => Ok tt;
     qconf_host := fun _ _ => Ok tt;
     pipe_stop := fun _ => Ok tt |}.

(** [w] with another fate for the workers of a batch. *)
Definition with_workers (worker_ : nat -> InstanceDemand -> worker_report)
    (wait_rounds_ : nat) (w : world) : world :=
  {| now := now w;
     is_valid := is_valid w;
     run_is_running := run_is_running w;
     qdel := qdel w;
     remove_from_hosts := remove_from_hosts w;
     qconf_sp_validator := qconf_sp_validator w;
     qconf_sp_selector := qconf_sp_selector w;
     qhost := qhost w;
     allowed_instance_types := allowed_instance_types w;
     provider_now := provider_now w;
     worker := worker_;
     wait_rounds := wait_rounds_;
     wait_now := wait_now w;
     recorded := recorded w;
     host_processors := host_processors w;
     qmod_disable := qmod_disable w;
     qmod_enable := qmod_enable w;
     qconf_host := qconf_host w;
     pipe_stop := pipe_stop w |}.

(** A worker that takes its time: run 200, host [pipeline-200], which
    reaches [add_host] before the round 3 of the wait loop. *)
Definition slow_worker (joined_at_ : Z) : nat -> InstanceDemand -> worker_report :=
  fun _ _ =>
    {| launched := Some 200;
       pod := Some "pipeline-200"%string;
       lands_in := 3;
       joined_at := joined_at_ |}.

Definition example_settings (max_additional_hosts_ : Z) : settings :=
  {| max_additional_hosts := max_additional_hosts_;
     scale_up_timeout := 30;
     scale_down_timeout := 30;
     idle_timeout := 30;
     scale_up_batch_size := 1;
     scale_down_batch_size := 1;
     instance_max_supply :=
       ComputeResource.make ComputeResource.ResourceSupply 8 0 32 None;
     cluster_max_supply :=
       ComputeResource.make ComputeResource.ResourceSupply 16 0 64 None;
     reserved_supply := ComputeResource.resource_supply 0;
     instance_provider := CloudPipelineInstanceProvider;
     instance_selector := CpuCapacity;
     recorder_capacity := 100 |}.

Definition example_instances : list instance :=
  [Instance.make "A" "spot" 2 0 8; Instance.make "B" "spot" 4 0 16;
   Instance.make "C" "spot" 8 0 32].

Definition example_daemon (storage : gmap string Z) : daemon :=
  {| host_storage := storage;
     static_host_storage := ∅;
     latest_running_job := None;
     worker_records := [];
     setting_up := [] |}.

(** A job of 4 cpu in the parallel environment [local], submitted at the
    origin of the time line. *)
Definition example_job (state_ : GridEngineJobState) (hosts_ : list string) : job :=
  GridEngineJob.make "7" "7" "align" (Some "alice"%string) state_ 0 hosts_ 4 0 0
    "local".

(** A listing that cannot be decoded while the orchestrator waits for its
    batch, and that shows one pending job everywhere else. *)
Definition unreadable_while_waiting (site : call_site) : result (list job) :=
  match site with
  | InWaitLoop _ => Raise ParsingError
  | _ => Ok [example_job PENDING []]
  end.

(** The allocation rules of two parallel environments: [mpi] fills the
    hosts up, every other one keeps a job on one host. *)
Definition example_rules (pe : string) : result string :=
  if String.eqb pe "mpi" then Ok "$fill_up"%string else Ok "$pe_slots"%string.

Definition example_rule_of (pe : string) : AllocationRule.t :=
  if String.eqb pe "mpi" then AllocationRule.fill_up else AllocationRule.pe_slots.

Definition example_job_of (id_ : string) (state_ : GridEngineJobState)
    (cpu_ : Z) (pe_ : string) : job :=
  GridEngineJob.make id_ id_ "align" (Some "alice"%string) state_ 0 [] cpu_ 0 0 pe_.

(** [w] with another reply to [qconf -sp]. *)
Definition with_qconf_sp (reply : string -> result string) (w : world) : world :=
  {| now := now w;
     is_valid := is_valid w;
     run_is_running := run_is_running w;
     qdel := qdel w;
     remove_from_hosts := remove_from_hosts w;
     qconf_sp_validator := reply;
     qconf_sp_selector := reply;
     qhost := qhost w;
     allowed_instance_types := allowed_instance_types w;
     provider_now := provider_now w;
     worker := worker w;
     wait_rounds := wait_rounds w;
     wait_now := wait_now w;
     recorded := recorded w;
     host_processors := host_processors w;
     qmod_disable := qmod_disable w;
     qmod_enable := qmod_enable w;
     qconf_host := qconf_host w;
     pipe_stop := pipe_stop w |}.

(** [w] with another fate for the hosts: what the Grid Engine says of them
    and how its commands end, and what the recorder gets for a run. *)
Definition with_hosts (is_valid_ : string -> result bool)
    (qconf_host_ : host_command -> string -> result unit)
    (recorded_ : Z -> option worker_record) (w : world) : world :=
  {| now := now w;
     is_valid := is_valid_;
     run_is_running := run_is_running w;
     qdel := qdel w;
     remove_from_hosts := remove_from_hosts w;
     qconf_sp_validator := qconf_sp_validator w;
     qconf_sp_selector := qconf_sp_selector w;
     qhost := qhost w;
     allowed_instance_types := allowed_instance_types w;
     provider_now := provider_now w;
     worker := worker w;
     wait_rounds := wait_rounds w;
     wait_now := wait_now w;
     recorded := recorded_;
     host_processors := host_processors w;
     qmod_disable := qmod_disable w;
     qmod_enable := qmod_enable w;
     qconf_host := qconf_host_;
     pipe_stop := pipe_stop w |}.

(** A world in which the host [pipeline-98] is gone from the Grid Engine,
    no host can be removed from the host group, and the run 101 is
    recorded as refused for an insufficient capacity. *)
Definition troubled_world (now_ : Z) : world :=
  with_hosts
    (fun host => Ok (negb (String.eqb host "pipeline-98")))
    (fun command _ =>
       match command with
       | RemoveHostFromHostGroup => Raise ExecutionError
       | _ => Ok tt
       end)
    (fun run_id =>
       if run_id =? 101
       then Some (GridEngineWorkerRecord.make 101 (Some "pipeline-101"%string)
                    (Some "B"%string) (Some (now_ - timedelta 120))
                    (Some (now_ - timedelta 60)) true)
       else None)
    (calm_world now_ example_instances).

(** Two demands: 4 cpu on one host for alice, 6 cpu anywhere for bob. *)
Definition example_demands : list resource :=
  [ComputeResource.integral_demand 4 (Some "alice"%string);
   ComputeResource.fractional_demand 6 (Some "bob"%string)].

(** [w] with another number of processors for the hosts. *)
Definition with_host_processors (reply : string -> result Z) (w : world) : world :=
  {| now := now w;
     is_valid := is_valid w;
     run_is_running := run_is_running w;
     qdel := qdel w;
     remove_from_hosts := remove_from_hosts w;
     qconf_sp_validator := qconf_sp_validator w;
     qconf_sp_selector := qconf_sp_selector w;
     qhost := qhost w;
     allowed_instance_types := allowed_instance_types w;
     provider_now := provider_now w;
     worker := worker w;
     wait_rounds := wait_rounds w;
     wait_now := wait_now w;
     recorded := recorded w;
     host_processors := reply;
     qmod_disable := qmod_disable w;
     qmod_enable := qmod_enable w;
     qconf_host := qconf_host w;
     pipe_stop := pipe_stop w |}.

(** The host [pipeline-98] has 8 processors, every other host has 4. *)
Definition one_large_host (host : string) : result Z :=
  if String.eqb host "pipeline-98" then Ok 8 else Ok 4.

(** A handler that has met the host [pipeline-101] in an earlier round and
    has not tagged its run. *)
Definition example_tags_handler : tags_handler :=
  {| last_monitored_hosts :=
       {[ "pipeline-101"%string := {| last_action_timestamp := None;
                                      last_tag_timestamp := None |} ]};
     tag_updates := [] |}.

(** Two additional hosts, both of them active 100 seconds after the
    origin. *)
Definition example_tagged_hosts : gmap string Z :=
  {[ "pipeline-101"%string := timedelta 100;
     "pipeline-102"%string := timedelta 100 ]}.

(** * Properties *)

(** ** ComputeResource *)

Lemma subtract_fst (a b : resource) :
  fst (ComputeResource.subtract a b) = ComputeResource.sub a b.
Proof. reflexivity. Qed.

(** C4. Subtraction saturates at zero in every component, so that
    [(a - b) + b >= a] componentwise, and the two results of [subtract]
    (what is left of [a], what is left of [b]) are never both positive in
    the same component. *)
Theorem C4_subtract_saturating (a b : resource)
  (Ha : 0 <= ComputeResource.cpu a /\ 0 <= ComputeResource.gpu a
        /\ 0 <= ComputeResource.mem a)
  (Hb : 0 <= ComputeResource.cpu b /\ 0 <= ComputeResource.gpu b
        /\ 0 <= ComputeResource.mem b) :
  let d := ComputeResource.sub a b in
  let back := ComputeResource.add d b in
  let '(rest, unmet) := ComputeResource.subtract a b in
  (ComputeResource.cpu d = Z.max 0 (ComputeResource.cpu a - ComputeResource.cpu b)
   /\ ComputeResource.gpu d = Z.max 0 (ComputeResource.gpu a - ComputeResource.gpu b)
   /\ ComputeResource.mem d = Z.max 0 (ComputeResource.mem a - ComputeResource.mem b))
  /\ (ComputeResource.cpu a <= ComputeResource.cpu back
      /\ ComputeResource.gpu a <= ComputeResource.gpu back
      /\ ComputeResource.mem a <= ComputeResource.mem back)
  /\ (~ (0 < ComputeResource.cpu rest /\ 0 < ComputeResource.cpu unmet)
      /\ ~ (0 < ComputeResource.gpu rest /\ 0 < ComputeResource.gpu unmet)
      /\ ~ (0 < ComputeResource.mem rest /\ 0 < ComputeResource.mem unmet)).
Proof.
  cbn. repeat split; try reflexivity; lia.
Qed.

Lemma C4_subtract_saturating_witness :
  let a := ComputeResource.make ComputeResource.ResourceSupply 8 1 16 None in
  let b := ComputeResource.make ComputeResource.IntegralDemand 3 2 16 (Some "alice") in
  ComputeResource.cpu (ComputeResource.sub a b) = 5
  /\ ComputeResource.gpu (ComputeResource.sub a b) = 0
  /\ ComputeResource.gpu (snd (ComputeResource.subtract a b)) = 1.
Proof.
  pose proof (C4_subtract_saturating
                (ComputeResource.make ComputeResource.ResourceSupply 8 1 16 None)
                (ComputeResource.make ComputeResource.IntegralDemand 3 2 16 (Some "alice"))
                ltac:(cbn; lia) ltac:(cbn; lia)) as H.
  cbn in H. cbn. lia.
Defined.

(** ** Memory requests *)

Lemma list_ascii_of_string_app (a b : string) :
  list_ascii_of_string (a ++ b) = list_ascii_of_string a ++ list_ascii_of_string b.
Proof. induction a as [|c a IH]; simpl; [reflexivity | now f_equal]. Qed.

Lemma split_last_snoc (front : string) (c : ascii) :
  split_last (front ++ String c EmptyString) = Some (front, c).
Proof.
  unfold split_last.
  rewrite list_ascii_of_string_app. cbn [list_ascii_of_string].
  rewrite rev_app_distr. cbn [rev app].
  rewrite rev_involutive, string_of_list_ascii_of_string. reflexivity.
Qed.

Lemma py_float_of_int_exact (n : Z) :
  Z.abs n < 2 ^ 53 -> py_float_of_int n = Ok n.
Proof.
  intros H. unfold py_float_of_int.
  destruct (Z.ltb_spec (Z.abs n) (2 ^ 53)); [reflexivity | lia].
Qed.

(** A request [front ++ c] with a suffix [c] of the table stands for
    [number * modifier] bytes, and the result is the quotient of the floor
    division by [1024 ^ 3]: the division has already dropped the fraction
    when [math.ceil] is applied. *)
Lemma parse_mem_suffix (front : string) (c : ascii) (modifier number : Z) :
  GridEngine.modifiers c = Some modifier ->
  py_int front = Ok number ->
  Z.abs (number * modifier / 1024 ^ 3) < 2 ^ 53 ->
  GridEngine._parse_mem (front ++ String c EmptyString)
  = Ok (number * modifier / 1024 ^ 3).
Proof.
  intros Hm Hn Hsmall. unfold GridEngine._parse_mem.
  rewrite split_last_snoc, Hm, Hn. cbn [bind].
  unfold py_int_ceil. now apply py_float_of_int_exact.
Qed.

Lemma parse_mem_below_one_GiB (front : string) (c : ascii) (modifier number : Z) :
  GridEngine.modifiers c = Some modifier ->
  py_int front = Ok number ->
  0 <= number * modifier < 1024 ^ 3 ->
  GridEngine._parse_mem (front ++ String c EmptyString) = Ok 0.
Proof.
  intros Hm Hn Hlt.
  rewrite (parse_mem_suffix front c modifier number Hm Hn).
  - now rewrite Z.div_small.
  - rewrite Z.div_small by assumption. reflexivity.
Qed.

(** C6. [_parse_mem] reads k/m/g as powers of 1000 and K/M/G as powers of
    1024, and maps "4G" to 4, "4096M" to 4 and "0" to 0; but the integer
    division by [1024 ^ 3] comes before [math.ceil], so a request is
    rounded down to whole GiB: "1K" gives 0, and so does "1023M". *)
Theorem C6_parse_mem_rounds_down :
  (GridEngine.modifiers "k" = Some 1000
   /\ GridEngine.modifiers "m" = Some (1000 ^ 2)
   /\ GridEngine.modifiers "g" = Some (1000 ^ 3)
   /\ GridEngine.modifiers "K" = Some 1024
   /\ GridEngine.modifiers "M" = Some (1024 ^ 2)
   /\ GridEngine.modifiers "G" = Some (1024 ^ 3))
  /\ GridEngine._parse_mem "4G" = Ok 4
  /\ GridEngine._parse_mem "4096M" = Ok 4
  /\ GridEngine._parse_mem "0" = Ok 0
  /\ GridEngine._parse_mem "1K" = Ok 0
  /\ GridEngine._parse_mem "1023M" = Ok 0.
Proof.
  repeat split; vm_compute; reflexivity.
Qed.

(** ** The storage file *)

Lemma decimal_length (width : nat) (n : Z) :
  String.length (datetime.decimal width n) = width.
Proof.
  revert n. induction width as [|width IH]; intros n; [reflexivity |].
  cbn [datetime.decimal].
  assert (Happ : forall a b : string,
             String.length (a ++ b) = (String.length a + String.length b)%nat).
  { intros a b. induction a as [|c a IHa]; simpl; [reflexivity | now rewrite IHa]. }
  rewrite Happ, IH. simpl. lia.
Qed.

Lemma strftime_storage_format (d : datetime.t) :
  1900 <= datetime.year d ->
  forall host,
    (do formatted_activity <-
       datetime.strftime d FileSystemHostStorage._DATETIME_FORMAT;
     Ok (FileSystemHostStorage.join FileSystemHostStorage._VALUE_BREAKER
           [host; formatted_activity]))
    = Ok (storage_line host d).
Proof.
  intros Hyear host. unfold datetime.strftime.
  destruct (Z.ltb_spec (datetime.year d) 1900); [lia |].
  cbn. unfold storage_line.
  reflexivity.
Qed.

Lemma hosts_summary_table_lines (hosts : list (string * datetime.t)) :
  Forall (fun entry => 1900 <= datetime.year (snd entry)) hosts ->
  FileSystemHostStorage.hosts_summary_table hosts
  = Ok (map (fun entry => storage_line (fst entry) (snd entry)) hosts).
Proof.
  induction 1 as [|[host d] hosts Hd _ IH]; [reflexivity |].
  cbn [FileSystemHostStorage.hosts_summary_table].
  pose proof (strftime_storage_format d Hd host) as Hline.
  destruct (datetime.strftime d FileSystemHostStorage._DATETIME_FORMAT)
    as [formatted|e]; cbn [bind] in Hline |- *; [| discriminate].
  rewrite IH. cbn [bind map fst snd]. now inversion Hline.
Qed.

(** C9 (as the script does it).  The storage file holds one line per
    stored host, [host|MM/DD/YYYY HH:MM:SS]: the host name, ['|'], then
    month, day and year separated by ['/'], a blank, and hour, minute and
    second separated by [':'].  The microseconds of the time stamp are not
    written. *)
Theorem C9_storage_file_lines (hosts : gmap string datetime.t)
  (Hyears : forall host d, hosts !! host = Some d -> 1900 <= datetime.year d) :
  let table :=
    map (fun entry => storage_line (fst entry) (snd entry)) (map_to_list hosts) in
  FileSystemHostStorage.storage_file_content hosts
  = Ok (FileSystemHostStorage.join FileSystemHostStorage._LINE_BREAKER table)
  /\ length table = size hosts
  /\ (forall host d, hosts !! host = Some d -> In (storage_line host d) table)
  /\ (forall host d us,
        storage_line host d
        = storage_line host
            (datetime.make (datetime.year d) (datetime.month d) (datetime.day d)
               (datetime.hour d) (datetime.minute d) (datetime.second d) us)).
Proof.
  intros table. repeat split.
  - unfold FileSystemHostStorage.storage_file_content.
    rewrite hosts_summary_table_lines; [reflexivity |].
    apply Forall_forall. intros [host d] Hin. cbn.
    apply (Hyears host d). now apply elem_of_map_to_list.
  - unfold table. rewrite length_map. apply length_map_to_list.
  - intros host d Hlookup. unfold table.
    apply in_map_iff. exists (host, d). split; [reflexivity |].
    apply list_elem_of_In. now apply elem_of_map_to_list.
Qed.

Lemma C9_storage_file_lines_witness :
  let hosts : gmap string datetime.t :=
    {[ "pipeline-12"%string := datetime.make 2020 1 2 3 4 5 6 ]} in
  (forall host d, hosts !! host = Some d -> 1900 <= datetime.year d)
  /\ FileSystemHostStorage.storage_file_content hosts
     = Ok "pipeline-12|01/02/2020 03:04:05"%string.
Proof.
  intros hosts.
  assert (Hyears : forall host d,
             hosts !! host = Some d -> 1900 <= datetime.year d).
  { intros host d Hlookup. apply lookup_singleton_Some in Hlookup.
    destruct Hlookup as [_ <-]. cbn. lia. }
  split; [exact Hyears |].
  destruct (C9_storage_file_lines hosts Hyears) as [Hcontent _].
  rewrite Hcontent. vm_compute. reflexivity.
Defined.

(** The line of the specification is not the line of the script: neither
    for a time stamp with microseconds nor for one without. *)
Lemma C9_spec_line_counterexample :
  FileSystemHostStorage.storage_file_content
    {[ "pipeline-12"%string := datetime.make 2020 1 2 3 4 5 6 ]}
  <> Ok (spec_storage_line "pipeline-12" (datetime.make 2020 1 2 3 4 5 6))
  /\ FileSystemHostStorage.storage_file_content
       {[ "pipeline-12"%string := datetime.make 2020 1 2 3 4 5 0 ]}
     <> Ok (spec_storage_line "pipeline-12" (datetime.make 2020 1 2 3 4 5 0)).
Proof.
  split; vm_compute; discriminate.
Qed.

(** ** Waiting for the pod *)

Section AwaitPod.

Import GridEngineScaleUpHandler.

Variable load_run : nat -> result run.

Lemma await_loop_more_fuel (fuel : nat) :
  forall attempts polls o,
    await_loop fuel load_run attempts polls = Some o ->
    forall fuel', (fuel <= fuel')%nat ->
      await_loop fuel' load_run attempts polls = Some o.
Proof.
  induction fuel as [|fuel IH]; intros attempts polls o Hrun fuel' Hle;
    [discriminate |].
  destruct fuel' as [|fuel']; [lia |].
  cbn [await_loop] in Hrun |- *.
  destruct (attempts =? 0); [assumption |].
  destruct (load_run polls) as [r|e]; [| assumption].
  destruct (not_running r); [assumption |].
  destruct (run_podIP r); [assumption |].
  apply (IH _ _ _ Hrun). lia.
Qed.

Lemma pending_reply_inv (reply : result run) :
  pending_reply reply = true ->
  exists r, reply = Ok r /\ not_running r = false /\ run_podIP r = None.
Proof.
  destruct reply as [r|e]; cbn; [| discriminate].
  intros H. apply andb_true_iff in H as [H1 H2].
  apply negb_true_iff in H1. apply bool_decide_eq_true in H2. eauto.
Qed.

Lemma await_loop_step (fuel : nat) (attempts : Z) (polls : nat) :
  await_loop (S fuel) load_run attempts polls
  = if attempts =? 0 then Some (Raise ScalingError, polls)
    else
      match load_run polls with
      | Raise e => Some (Raise e, S polls)
      | Ok r =>
          if not_running r then Some (Raise ScalingError, S polls)
          else
            match run_podIP r with
            | Some ip =>
                match run_podId r with
                | Some name =>
                    Some (Ok {| pod_ip := ip; pod_name := name |}, S polls)
                | None => Some (Raise KeyError, S polls)
                end
            | None => await_loop fuel load_run (attempts - 1) (S polls)
            end
      end.
Proof. reflexivity. Qed.

(** The loop entered with [n] attempts left after [polls] requests. *)
Lemma await_loop_attempts (n : nat) :
  forall polls, exists res p,
    await_loop (S n) load_run (Z.of_nat n) polls = Some (res, p)
    /\ (p <= polls + n)%nat
    /\ ((forall k, (k < n)%nat -> pending_reply (load_run (polls + k)) = true) ->
        res = Raise ScalingError /\ p = (polls + n)%nat)
    /\ (forall k r,
          (k < n)%nat ->
          (forall j, (j < k)%nat -> pending_reply (load_run (polls + j)) = true) ->
          load_run (polls + k) = Ok r ->
          (not_running r = true -> res = Raise ScalingError /\ p = S (polls + k))
          /\ (forall ip name,
                not_running r = false ->
                run_podIP r = Some ip -> run_podId r = Some name ->
                res = Ok {| pod_ip := ip; pod_name := name |}
                /\ p = S (polls + k))).
Proof.
  induction n as [|n IH]; intros polls.
  - exists (Raise ScalingError), polls. cbn. repeat split; try lia.
    all: intros; lia.
  - assert (Hzero : (Z.of_nat (S n) =? 0) = false) by (apply Z.eqb_neq; lia).
    assert (Hpred : Z.of_nat (S n) - 1 = Z.of_nat n) by lia.
    destruct (load_run polls) as [r|e] eqn:Hreply.
    + destruct (not_running r) eqn:Hstatus.
      * exists (Raise ScalingError), (S polls). split; [now rewrite await_loop_step, Hzero, Hreply, ?Hstatus, ?Hip, ?Hname |].
        split; [lia |]. split.
        -- intros Hall. specialize (Hall 0%nat ltac:(lia)).
           rewrite Nat.add_0_r, Hreply in Hall. cbn in Hall.
           rewrite Hstatus in Hall. discriminate.
        -- intros k r' Hk Hbefore Hk_reply.
           destruct k as [|k].
           ++ rewrite Nat.add_0_r, Hreply in Hk_reply.
              injection Hk_reply as <-. split; [auto |].
              intros ip name Hrunning. congruence.
           ++ specialize (Hbefore 0%nat ltac:(lia)).
              rewrite Nat.add_0_r, Hreply in Hbefore. cbn in Hbefore.
              rewrite Hstatus in Hbefore. discriminate.
      * destruct (run_podIP r) as [ip|] eqn:Hip.
        -- assert (Hnot_pending : pending_reply (load_run polls) = false).
           { rewrite Hreply. cbn. rewrite Hstatus, Hip. reflexivity. }
           destruct (run_podId r) as [name|] eqn:Hname.
           ++ exists (Ok {| pod_ip := ip; pod_name := name |}), (S polls).
              split; [now rewrite await_loop_step, Hzero, Hreply, ?Hstatus, ?Hip, ?Hname |]. split; [lia |]. split.
              ** intros Hall. specialize (Hall 0%nat ltac:(lia)).
                 rewrite Nat.add_0_r in Hall. congruence.
              ** intros k r' Hk Hbefore Hk_reply.
                 destruct k as [|k].
                 --- rewrite Nat.add_0_r, Hreply in Hk_reply.
                     injection Hk_reply as <-. split; [congruence |].
                     intros ip' name' _ Hip' Hname'.
                     rewrite Hip in Hip'. rewrite Hname in Hname'.
                     injection Hip' as <-. injection Hname' as <-. auto.
                 --- specialize (Hbefore 0%nat ltac:(lia)).
                     rewrite Nat.add_0_r in Hbefore. congruence.
           ++ exists (Raise KeyError), (S polls).
              split; [now rewrite await_loop_step, Hzero, Hreply, ?Hstatus, ?Hip, ?Hname |]. split; [lia |]. split.
              ** intros Hall. specialize (Hall 0%nat ltac:(lia)).
                 rewrite Nat.add_0_r in Hall. congruence.
              ** intros k r' Hk Hbefore Hk_reply.
                 destruct k as [|k].
                 --- rewrite Nat.add_0_r, Hreply in Hk_reply.
                     injection Hk_reply as <-. split; [congruence |].
                     intros ip' name' _ Hip' Hname'. congruence.
                 --- specialize (Hbefore 0%nat ltac:(lia)).
                     rewrite Nat.add_0_r in Hbefore. congruence.
        -- destruct (IH (S polls)) as (res & p & Hrun & Hp & Hall & Hfirst).
           exists res, p. split.
           { rewrite await_loop_step, Hzero, Hreply, Hstatus, Hip, Hpred.
             apply (await_loop_more_fuel _ _ _ _ Hrun). lia. }
           split; [lia |]. split.
           ++ intros Hpending. destruct Hall as [-> ->]; [| split; [reflexivity | lia]].
              intros k Hk. specialize (Hpending (S k) ltac:(lia)).
              now replace (S polls + k)%nat with (polls + S k)%nat by lia.
           ++ intros k r' Hk Hbefore Hk_reply.
              destruct k as [|k].
              { rewrite Nat.add_0_r, Hreply in Hk_reply.
                injection Hk_reply as <-. split; congruence. }
              replace (polls + S k)%nat with (S polls + k)%nat in * by lia.
              apply (Hfirst k r'); [lia | | assumption].
              intros j Hj. specialize (Hbefore (S j) ltac:(lia)).
              now replace (polls + S j)%nat with (S polls + j)%nat in Hbefore by lia.
    + exists (Raise e), (S polls). split; [now rewrite await_loop_step, Hzero, Hreply, ?Hstatus, ?Hip, ?Hname |]. split; [lia |]. split.
      * intros Hall. specialize (Hall 0%nat ltac:(lia)).
        rewrite Nat.add_0_r, Hreply in Hall. discriminate.
      * intros k r' Hk Hbefore Hk_reply.
        destruct k as [|k].
        -- rewrite Nat.add_0_r, Hreply in Hk_reply. discriminate.
        -- specialize (Hbefore 0%nat ltac:(lia)).
           rewrite Nat.add_0_r, Hreply in Hbefore. discriminate.
Qed.

Lemma not_running_status (r : run) :
  not_running r = true
  <-> exists status, run_status r = Some status /\ status <> "RUNNING"%string.
Proof.
  unfold not_running. destruct (run_status r) as [status|].
  - rewrite negb_true_iff. split.
    + intros Hne. exists status. split; [reflexivity |].
      intros ->. discriminate Hne.
    + intros (status' & [= <-] & Hne). now apply String.eqb_neq.
  - split; [discriminate | intros (status & [=] & _)].
Qed.

Lemma running_status (r : run) :
  not_running r = false
  <-> run_status r = None \/ run_status r = Some "RUNNING"%string.
Proof.
  unfold not_running. destruct (run_status r) as [status|].
  - rewrite negb_false_iff, String.eqb_eq. split.
    + intros ->. now right.
    + intros [[=]|[= ->]]. reflexivity.
  - split; [now left | reflexivity].
Qed.

Lemma pending_reply_pod_pending (reply : result run) :
  pending_reply reply = true <-> pod_pending reply.
Proof.
  split.
  - intros Hpending.
    destruct (pending_reply_inv _ Hpending) as (r & -> & Hstatus & Hip).
    exists r. split; [reflexivity |]. split; [now apply running_status | exact Hip].
  - intros (r & -> & Hstatus & Hip). cbn.
    apply running_status in Hstatus. rewrite Hstatus, Hip. reflexivity.
Qed.

(** The first reply that does not keep the loop waiting decides. *)
Lemma await_loop_first (n : nat) :
  forall polls k r,
    (k < n)%nat ->
    (forall j, (j < k)%nat -> pending_reply (load_run (polls + j)) = true) ->
    load_run (polls + k) = Ok r ->
    pending_reply (Ok r) = false ->
    await_loop (S n) load_run (Z.of_nat n) polls
    = Some (if not_running r then Raise ScalingError
            else match run_podIP r, run_podId r with
                 | Some ip, Some name => Ok {| pod_ip := ip; pod_name := name |}
                 | Some _, None => Raise KeyError
                 | None, _ => Raise ScalingError
                 end,
            S (polls + k)).
Proof.
  induction n as [|n IH]; intros polls k r Hk Hbefore Hreply Hdecisive; [lia |].
  rewrite await_loop_step.
  replace (Z.of_nat (S n) =? 0) with false by (symmetry; apply Z.eqb_neq; lia).
  destruct k as [|k].
  - rewrite Nat.add_0_r in Hreply |- *. rewrite Hreply.
    destruct (not_running r) eqn:Hstatus; [reflexivity |].
    destruct (run_podIP r) as [ip|] eqn:Hip.
    + now destruct (run_podId r).
    + cbn in Hdecisive. rewrite Hstatus, Hip in Hdecisive. discriminate.
  - pose proof (Hbefore 0%nat ltac:(lia)) as Hfirst.
    rewrite Nat.add_0_r in Hfirst.
    destruct (pending_reply_inv _ Hfirst) as (r0 & -> & -> & ->).
    replace (Z.of_nat (S n) - 1) with (Z.of_nat n) by lia.
    replace (polls + S k)%nat with (S polls + k)%nat in * by lia.
    apply (await_loop_more_fuel (S n)); [| lia].
    apply IH; [lia | | assumption | assumption].
    intros j Hj. specialize (Hbefore (S j) ltac:(lia)).
    now replace (polls + S j)%nat with (S polls + j)%nat in Hbefore by lia.
Qed.

End AwaitPod.

(** C8. With a positive [polling_timeout] and a positive [polling_delay],
    [_await_pod_initialization] ends after at most
    [polling_timeout / polling_delay] requests for the run.  It raises
    [ScalingError] when the attempts are used up, or as soon as a reply
    shows a status other than RUNNING; it returns the pod as soon as a
    reply of a running run carries [podIP] and [podId]; with [podIP] and
    no [podId] it raises [KeyError]. *)
Theorem C8_await_pod_initialization
    (polling_timeout polling_delay : Z) (load_run : nat -> result run)
    (Htimeout : 0 < polling_timeout) (Hdelay : 0 < polling_delay) :
  let attempts := Z.to_nat (polling_timeout / polling_delay) in
  exists res polls,
    (forall fuel, (attempts < fuel)%nat ->
       GridEngineScaleUpHandler._await_pod_initialization
         fuel polling_timeout polling_delay load_run = Some (res, polls))
    /\ (polls <= attempts)%nat
    /\ ((forall k, (k < attempts)%nat -> pod_pending (load_run k)) ->
        res = Raise ScalingError /\ polls = attempts)
    /\ (forall k r,
          (k < attempts)%nat ->
          (forall j, (j < k)%nat -> pod_pending (load_run j)) ->
          load_run k = Ok r ->
          (forall status,
             run_status r = Some status -> status <> "RUNNING"%string ->
             res = Raise ScalingError /\ polls = S k)
          /\ (forall ip name,
                run_status r = None \/ run_status r = Some "RUNNING"%string ->
                run_podIP r = Some ip -> run_podId r = Some name ->
                res = Ok {| pod_ip := ip; pod_name := name |} /\ polls = S k)
          /\ (forall ip,
                run_status r = None \/ run_status r = Some "RUNNING"%string ->
                run_podIP r = Some ip -> run_podId r = None ->
                res = Raise KeyError /\ polls = S k)).
Proof.
  intros attempts.
  assert (Hquot : 0 <= polling_timeout / polling_delay)
    by (apply Z.div_pos; lia).
  destruct (await_loop_attempts load_run attempts 0)
    as (res & polls & Hrun & Hpolls & Hall & _).
  exists res, polls. split; [| split; [lia | split]].
  - intros fuel Hfuel.
    unfold GridEngineScaleUpHandler._await_pod_initialization,
      GridEngineScaleUpHandler.attempts_of.
    replace (polling_delay =? 0) with false by (symmetry; apply Z.eqb_neq; lia).
    replace (polling_timeout / polling_delay) with (Z.of_nat attempts)
      by (unfold attempts; lia).
    apply (await_loop_more_fuel _ _ _ _ _ Hrun). lia.
  - intros Hpending. apply Hall. intros k Hk.
    now apply pending_reply_pod_pending, Hpending.
  - intros k r Hk Hbefore Hreply.
    assert (Hdecides : forall verdict,
              GridEngineScaleUpHandler.pending_reply (Ok r) = false ->
              (if GridEngineScaleUpHandler.not_running r then Raise ScalingError
               else match run_podIP r, run_podId r with
                    | Some ip, Some name =>
                        Ok {| pod_ip := ip; pod_name := name |}
                    | Some _, None => Raise KeyError
                    | None, _ => Raise ScalingError
                    end) = verdict ->
              res = verdict /\ polls = S k).
    { intros verdict Hdecisive <-.
      pose proof (await_loop_first load_run attempts 0 k r Hk) as Hfirst.
      cbn [Nat.add] in Hfirst. rewrite Hfirst in Hrun; [| | assumption ..].
      - injection Hrun as <- <-. now split.
      - intros j Hj. now apply pending_reply_pod_pending, Hbefore. }
    split; [| split].
    + intros status Hstatus Hne.
      assert (Hfailed : GridEngineScaleUpHandler.not_running r = true)
        by (apply not_running_status; eauto).
      apply Hdecides; cbn; now rewrite Hfailed.
    + intros ip name Hstatus Hip Hname. apply running_status in Hstatus.
      apply Hdecides; cbn; now rewrite Hstatus, Hip, ?Hname.
    + intros ip Hstatus Hip Hname. apply running_status in Hstatus.
      apply Hdecides; cbn; now rewrite Hstatus, Hip, ?Hname.
Qed.

(** Two runs asked every 10 seconds for 900 seconds at most: the pod of
    the first one is there at the third request; the second one has
    failed when it is asked for the second time. *)
Lemma C8_await_pod_initialization_witness :
  let load_run := fun k : nat =>
    if (k <? 2)%nat
    then Ok {| run_status := Some "RUNNING"%string;
               run_podId := Some "pipeline-12"%string; run_podIP := None |}
    else Ok {| run_status := None;
               run_podId := Some "pipeline-12"%string;
               run_podIP := Some "10.0.0.12"%string |} in
  let load_failed_run := fun k : nat =>
    if (k <? 1)%nat
    then Ok {| run_status := Some "RUNNING"%string;
               run_podId := Some "pipeline-13"%string; run_podIP := None |}
    else Ok {| run_status := Some "FAILURE"%string;
               run_podId := Some "pipeline-13"%string;
               run_podIP := Some "10.0.0.13"%string |} in
  0 < 900 /\ 0 < 10
  /\ GridEngineScaleUpHandler._await_pod_initialization 91 900 10 load_run
     = Some (Ok {| pod_ip := "10.0.0.12"; pod_name := "pipeline-12" |}, 3%nat)
  /\ GridEngineScaleUpHandler._await_pod_initialization 91 900 10 load_failed_run
     = Some (Raise ScalingError, 2%nat).
Proof.
  intros load_run load_failed_run.
  split; [lia | split; [lia |]]. split.
  - destruct (C8_await_pod_initialization 900 10 load_run ltac:(lia) ltac:(lia))
      as (res & polls & Hrun & _ & _ & Hfirst).
    rewrite (Hrun 91%nat ltac:(vm_compute; lia)).
    destruct (Hfirst 2%nat _ ltac:(vm_compute; lia)
                ltac:(intros [|[|j]] Hj; [| | lia]; eexists;
                      (split; [reflexivity |]); (split; [now right | reflexivity]))
                eq_refl) as (_ & Hpod & _).
    destruct (Hpod "10.0.0.12"%string "pipeline-12"%string
                (or_introl eq_refl) eq_refl eq_refl) as [-> ->].
    reflexivity.
  - destruct (C8_await_pod_initialization 900 10 load_failed_run
                ltac:(lia) ltac:(lia))
      as (res & polls & Hrun & _ & _ & Hfirst).
    rewrite (Hrun 91%nat ltac:(vm_compute; lia)).
    destruct (Hfirst 1%nat _ ltac:(vm_compute; lia)
                ltac:(intros [|j] Hj; [| lia]; eexists;
                      (split; [reflexivity |]); (split; [now right | reflexivity]))
                eq_refl) as (Hfailed & _).
    destruct (Hfailed "FAILURE"%string eq_refl ltac:(discriminate)) as [-> ->].
    reflexivity.
Defined.

(** A run that is RUNNING and has a [podIP] but no [podId] (the handler
    asks for the [podId] before it starts to wait): the first request
    ends the wait with a [KeyError], and no pod is returned. *)
Lemma C8_pod_without_name_counterexample : ~ spec_await_pod_initialization.
Proof.
  intros Hspec.
  set (load_run := fun _ : nat =>
         Ok {| run_status := Some "RUNNING"%string; run_podId := None;
               run_podIP := Some "10.0.0.12"%string |}).
  destruct (Hspec 900 10 load_run ltac:(lia) ltac:(lia))
    as (res & polls & Hrun & _ & _ & Hfirst).
  specialize (Hrun 91%nat ltac:(vm_compute; lia)).
  vm_compute in Hrun. injection Hrun as <- <-.
  destruct (Hfirst 0%nat _ ltac:(vm_compute; lia) ltac:(intros j Hj; lia) eq_refl)
    as [_ Hpod].
  destruct (Hpod "10.0.0.12"%string (or_intror eq_refl) eq_refl) as [name Hname].
  discriminate Hname.
Qed.

(** ** Instance selection *)

Ltac decide_ltb :=
  repeat match goal with
    | |- context [?a <? ?b] => destruct (Z.ltb_spec a b); try lia
    end.

Lemma resolve_owner_single (d : resource) :
  0 < ComputeResource.cpu d ->
  CpuCapacityInstanceSelector._resolve_owner [d] = Ok (ComputeResource.owner d).
Proof.
  intros Hcpu. unfold CpuCapacityInstanceSelector._resolve_owner.
  cbn [map fold_left]. unfold Counter.add.
  rewrite merge_empty_l.
  rewrite (omap_singleton_Some _ _ _ (ComputeResource.cpu d)).
  - unfold Counter.most_common. rewrite map_to_list_singleton. reflexivity.
  - cbn. unfold Counter.positive. decide_ltb; try reflexivity.
Qed.

Section SingleIntegralDemand.

Variables (reserved_supply d : resource) (i : instance).

Hypothesis Hclass : ComputeResource.cls d = ComputeResource.IntegralDemand.
Hypothesis Hgpu : ComputeResource.gpu d = 0.
Hypothesis Hmem : ComputeResource.mem d = 0.
Hypothesis Hcpu : 0 < ComputeResource.cpu d.

Let supply := ComputeResource.sub (ResourceSupply_of i) reserved_supply.

(** The demand fits on the instance: it is fulfilled as a whole. *)
Lemma capacity_fits :
  ComputeResource.cpu d <= ComputeResource.cpu supply ->
  CpuCapacityInstanceSelector.capacity reserved_supply [d] i
  = Ok (ComputeResource.cpu d, ([], [d])).
Proof.
  intros Hfits. unfold CpuCapacityInstanceSelector.capacity,
    CpuCapacityInstanceSelector._apply.
  fold supply. cbn [CpuCapacityInstanceSelector._apply_loop].
  assert (Htruthy : ComputeResource.bool supply = true).
  { unfold ComputeResource.bool.
    assert (0 <= ComputeResource.gpu supply /\ 0 <= ComputeResource.mem supply)
      by (subst supply; cbn; lia).
    decide_ltb; try reflexivity. }
  rewrite Htruthy. cbn [negb ComputeResource.subtract]. rewrite Hclass.
  match goal with
  | |- context [ComputeResource.bool ?x] =>
      assert (Hnone : ComputeResource.bool x = false)
  end.
  { unfold ComputeResource.bool.
    cbn [ComputeResource.cpu ComputeResource.gpu ComputeResource.mem].
    rewrite Hgpu, Hmem.
    assert (0 <= ComputeResource.gpu supply /\ 0 <= ComputeResource.mem supply)
      by (subst supply; cbn; lia).
    decide_ltb; try reflexivity. }
  rewrite Hnone. reflexivity.
Qed.

(** The demand does not fit: it is left whole and nothing is fulfilled. *)
Lemma capacity_too_small :
  ComputeResource.cpu supply < ComputeResource.cpu d ->
  CpuCapacityInstanceSelector.capacity reserved_supply [d] i
  = Ok (0, ([d], [])).
Proof.
  intros Hsmall. unfold CpuCapacityInstanceSelector.capacity,
    CpuCapacityInstanceSelector._apply.
  fold supply. cbn [CpuCapacityInstanceSelector._apply_loop].
  destruct (ComputeResource.bool supply); [| reflexivity].
  cbn [negb ComputeResource.subtract]. rewrite Hclass.
  match goal with
  | |- context [ComputeResource.bool ?x] =>
      assert (Hsome : ComputeResource.bool x = true)
  end.
  { unfold ComputeResource.bool.
    cbn [ComputeResource.cpu ComputeResource.gpu ComputeResource.mem].
    decide_ltb; try reflexivity. }
  rewrite Hsome. reflexivity.
Qed.

End SingleIntegralDemand.

(** The instance that the loop over the instances retains is the first
    one, in the order of the list, whose fulfilled cpu is the greatest: an
    instance met later takes its place only with a strictly greater
    fulfilled cpu. *)
Lemma best_loop_first_maximum (reserved_supply : resource)
    (demands : list resource) (instances : list instance) :
  forall b0 b,
    CpuCapacityInstanceSelector.best_loop reserved_supply demands b0 instances = Ok b ->
    (b = b0
     /\ forall j c x, In j instances ->
          CpuCapacityInstanceSelector.capacity reserved_supply demands j = Ok (c, x) ->
          c <= fst b0)
    \/ (exists before best after r f,
          instances = before ++ best :: after
          /\ b = (fst b, Some (best, r, f))
          /\ CpuCapacityInstanceSelector.capacity reserved_supply demands best
             = Ok (fst b, (r, f))
          /\ fst b0 < fst b
          /\ (forall j c x, In j before ->
                CpuCapacityInstanceSelector.capacity reserved_supply demands j = Ok (c, x) ->
                c < fst b)
          /\ (forall j c x, In j after ->
                CpuCapacityInstanceSelector.capacity reserved_supply demands j = Ok (c, x) ->
                c <= fst b)).
Proof.
  induction instances as [|i instances' IH]; intros b0 b Hloop.
  - left. cbn in Hloop. injection Hloop as <-. split; [reflexivity |].
    intros j c x [].
  - cbn [CpuCapacityInstanceSelector.best_loop] in Hloop.
    destruct (CpuCapacityInstanceSelector.capacity reserved_supply demands i)
      as [[c [r f]]|e] eqn:Hcap; cbn [bind] in Hloop; [| discriminate].
    destruct (Z.ltb_spec (fst b0) c) as [Hgreater|Hnot_greater].
    + destruct (IH _ _ Hloop) as [[-> Hrest]|Hlater].
      * right. exists [], i, instances', r, f. cbn.
        repeat split; [assumption .. | |].
        -- intros j c' x [].
        -- intros j c' x Hin Hcapj. exact (Hrest j c' x Hin Hcapj).
      * destruct Hlater as (before & best & after & r' & f' & -> & Hb & Hbest
                            & Hlt & Hbefore & Hafter).
        right. exists (i :: before), best, after, r', f'. cbn [fst] in Hlt.
        repeat split; try assumption; [lia |].
        intros j c' x [<-|Hin] Hcapj.
        -- rewrite Hcap in Hcapj. injection Hcapj as <- _. assumption.
        -- exact (Hbefore j c' x Hin Hcapj).
    + destruct (IH _ _ Hloop) as [[-> Hrest]|Hlater].
      * left. split; [reflexivity |].
        intros j c' x [<-|Hin] Hcapj.
        -- rewrite Hcap in Hcapj. injection Hcapj as <- _. assumption.
        -- exact (Hrest j c' x Hin Hcapj).
      * destruct Hlater as (before & best & after & r' & f' & -> & Hb & Hbest
                            & Hlt & Hbefore & Hafter).
        right. exists (i :: before), best, after, r', f'.
        repeat split; try assumption.
        intros j c' x [<-|Hin] Hcapj.
        -- rewrite Hcap in Hcapj. injection Hcapj as <- _. lia.
        -- exact (Hbefore j c' x Hin Hcapj).
Qed.

(** C3. One integral demand of 4 cpu and the instances A (2 cpu),
    B (4 cpu), C (8 cpu), in this order, with nothing reserved:
    [CpuCapacityInstanceSelector.select] yields one instance demand, for B,
    and then ends.  B and C both fulfil 4 cpu; B is met first and C, whose
    fulfilled cpu is not strictly greater, does not replace it. *)
Theorem C3_cpu_capacity_selects_first_maximum
    (name_a name_b name_c price_a price_b price_c : string)
    (gpu_a mem_a gpu_b mem_b gpu_c mem_c : Z) (owner : option string) (n : nat) :
  let a := Instance.make name_a price_a 2 gpu_a mem_a in
  let b := Instance.make name_b price_b 4 gpu_b mem_b in
  let c := Instance.make name_c price_c 8 gpu_c mem_c in
  let reserved_supply := ComputeResource.resource_supply 0 in
  let demand := ComputeResource.integral_demand 4 owner in
  let for_b := {| demand_instance := b; demand_owner := owner |} in
  CpuCapacityInstanceSelector.select_next reserved_supply [a; b; c] [demand]
  = Ok (Some (for_b, []))
  /\ CpuCapacityInstanceSelector.select_next reserved_supply [a; b; c] []
     = Ok None
  /\ CpuCapacityInstanceSelector.select (S n) (Ok [a; b; c]) reserved_supply [demand]
     = Ok [for_b]
  /\ CpuCapacityInstanceSelector.capacity reserved_supply [demand] b
     = Ok (4, ([], [demand]))
  /\ CpuCapacityInstanceSelector.capacity reserved_supply [demand] c
     = Ok (4, ([], [demand])).
Proof.
  intros a b c reserved_supply demand for_b.
  assert (Ha : CpuCapacityInstanceSelector.capacity reserved_supply [demand] a
               = Ok (0, ([demand], []))).
  { apply capacity_too_small; cbn; try reflexivity; lia. }
  assert (Hb : CpuCapacityInstanceSelector.capacity reserved_supply [demand] b
               = Ok (4, ([], [demand]))).
  { apply (capacity_fits reserved_supply demand b); cbn; try reflexivity; lia. }
  assert (Hc : CpuCapacityInstanceSelector.capacity reserved_supply [demand] c
               = Ok (4, ([], [demand]))).
  { apply (capacity_fits reserved_supply demand c); cbn; try reflexivity; lia. }
  assert (Hnext : CpuCapacityInstanceSelector.select_next reserved_supply
                    [a; b; c] [demand] = Ok (Some (for_b, []))).
  { unfold CpuCapacityInstanceSelector.select_next.
    cbn [CpuCapacityInstanceSelector.best_loop].
    rewrite Ha. cbn [bind fst Z.ltb Z.compare].
    rewrite Hb. cbn [bind fst Z.ltb Z.compare Pos.compare Pos.compare_cont].
    rewrite Hc. cbn [bind fst snd Z.ltb Z.compare Pos.compare Pos.compare_cont].
    rewrite resolve_owner_single by (cbn; lia). reflexivity. }
  repeat split; try assumption.
  - unfold CpuCapacityInstanceSelector.select.
    cbn [bind CpuCapacityInstanceSelector.select_loop].
    rewrite Hnext. cbn [bind]. destruct n; reflexivity.
Qed.

(** ** The availability filter *)

Lemma last_unavailability_from (records : list worker_record)
    (instance_type : string) (unavailability : option Z) :
  fold_left
    (fun unavailability record =>
       if bool_decide (GridEngineWorkerRecord.instance_type record
                       = Some instance_type)
       then if GridEngineWorkerRecord.has_insufficient_instance_capacity record
            then GridEngineWorkerRecord.stopped record
            else unavailability
       else unavailability)
    records unavailability
  = match deciding_record records instance_type with
    | Some record => GridEngineWorkerRecord.stopped record
    | None => unavailability
    end.
Proof.
  unfold deciding_record. revert unavailability.
  induction records as [|record records IH]; intros unavailability;
    [reflexivity |].
  cbn [fold_left List.filter]. rewrite IH.
  destruct (bool_decide
              (GridEngineWorkerRecord.instance_type record = Some instance_type));
    [| reflexivity].
  destruct (GridEngineWorkerRecord.has_insufficient_instance_capacity record);
    cbn [andb]; [| reflexivity].
  rewrite last_cons.
  destruct (last _); reflexivity.
Qed.

Lemma last_unavailability_deciding (records : list worker_record)
    (instance_type : string) :
  AvailableInstanceProvider.last_unavailability records instance_type
  = match deciding_record records instance_type with
    | Some record => GridEngineWorkerRecord.stopped record
    | None => None
    end.
Proof. apply last_unavailability_from. Qed.

(** C7 (as the script does it).  For an instance type, the record that
    counts is the last recorded one of this type with an insufficient
    capacity: the type is dropped when this record has a stop time that is
    not older than [unavailability_delay] seconds, and kept otherwise (no
    such record, no stop time, or an older one).  When every instance is
    dropped the unfiltered list is returned.  With one record for X,
    insufficient capacity, stopped 600 s ago, and a delay of 1800 s: X is
    dropped from a list that holds another instance, and a list that holds
    X alone is returned as it is. *)
Theorem C7_available_instance_provider
    (records : list worker_record) (unavailability_delay now : Z)
    (allowed_instances : list instance)
    (x y : instance) (id : Z) (name : option string) (started : option Z) :
  let available :=
    List.filter (fun i =>
              match deciding_record records (Instance.name i) with
              | Some record =>
                  match GridEngineWorkerRecord.stopped record with
                  | Some stopped => stopped <? now - timedelta unavailability_delay
                  | None => true
                  end
              | None => true
              end) allowed_instances in
  let record_x :=
    GridEngineWorkerRecord.make id name (Some (Instance.name x)) started
      (Some (now - timedelta 600)) true in
  AvailableInstanceProvider.provide records unavailability_delay now allowed_instances
  = match available with [] => allowed_instances | _ => available end
  /\ AvailableInstanceProvider._is_available [record_x] 1800 now (Instance.name x)
     = false
  /\ AvailableInstanceProvider.provide [record_x] 1800 now [x] = [x]
  /\ AvailableInstanceProvider.provide [record_x] 1800 now [x; y]
     = if String.eqb (Instance.name y) (Instance.name x) then [x; y] else [y].
Proof.
  intros available record_x.
  assert (Hx : AvailableInstanceProvider._is_available [record_x] 1800 now
                 (Instance.name x) = false).
  { unfold AvailableInstanceProvider._is_available,
      AvailableInstanceProvider.last_unavailability.
    cbn [fold_left GridEngineWorkerRecord.instance_type
           GridEngineWorkerRecord.has_insufficient_instance_capacity
           GridEngineWorkerRecord.stopped record_x].
    rewrite bool_decide_eq_true_2 by reflexivity.
    apply Z.ltb_ge. unfold timedelta. lia. }
  repeat split.
  - assert (Hfilter : AvailableInstanceProvider._get_available records
                          unavailability_delay now allowed_instances = available).
    { apply filter_ext. intros i.
      unfold AvailableInstanceProvider._is_available.
      rewrite last_unavailability_deciding.
      destruct (deciding_record records (Instance.name i)); reflexivity. }
    unfold AvailableInstanceProvider.provide. rewrite Hfilter.
    destruct available; reflexivity.
  - exact Hx.
  - unfold AvailableInstanceProvider.provide,
      AvailableInstanceProvider._get_available.
    cbn [List.filter]. rewrite Hx. reflexivity.
  - unfold AvailableInstanceProvider.provide,
      AvailableInstanceProvider._get_available.
    cbn [List.filter]. rewrite Hx.
    unfold AvailableInstanceProvider._is_available,
      AvailableInstanceProvider.last_unavailability.
    cbn [fold_left GridEngineWorkerRecord.instance_type
           GridEngineWorkerRecord.has_insufficient_instance_capacity
           GridEngineWorkerRecord.stopped record_x].
    destruct (String.eqb_spec (Instance.name y) (Instance.name x)) as [Heq|Hne].
    + rewrite bool_decide_eq_true_2 by congruence.
      replace (now - timedelta 600 <? now - timedelta 1800) with false
        by (symmetry; apply Z.ltb_ge; unfold timedelta; lia).
      reflexivity.
    + rewrite bool_decide_eq_false_2 by congruence. reflexivity.
Qed.

(** Two workers of type X from one batch, both refused for an insufficient
    capacity: the first stopped 1790 s ago, the second stopped 1810 s ago
    and was recorded after the first.  The second record decides, and X is
    kept although the first one is within the delay of 1800 s. *)
Lemma C7_any_recent_record_counterexample : ~ spec_available_instance_provider.
Proof.
  intros Hspec.
  pose (x := Instance.make "X" "spot" 4 0 16).
  pose (y := Instance.make "Y" "spot" 8 0 32).
  pose (now := timedelta 100000).
  pose (r1 := GridEngineWorkerRecord.make 1 (Some "pipeline-1"%string)
                (Some "X"%string) None (Some (now - timedelta 1790)) true).
  pose (r2 := GridEngineWorkerRecord.make 2 (Some "pipeline-2"%string)
                (Some "X"%string) None (Some (now - timedelta 1810)) true).
  apply (Hspec [r1; r2] 1800 now [x; y]) with (i := x).
  - exists y. split; [right; left; reflexivity |].
    intros (record & stopped & Hin & Htype & _).
    destruct Hin as [<-|[<-|[]]]; discriminate.
  - left; reflexivity.
  - exists r1, (now - timedelta 1790).
    repeat split; [left; reflexivity | vm_compute; discriminate].
  - vm_compute. left; reflexivity.
Qed.


(** ** Sorting *)

Section SortedFacts.

Context {A : Type} (le : A -> A -> bool).

Lemma insert_sorted_perm (x : A) (l : list A) :
  Permutation (insert_sorted le x l) (x :: l).
Proof.
  induction l as [|y l IH]; cbn; [reflexivity |].
  destruct (le x y); [reflexivity |].
  rewrite IH. apply perm_swap.
Qed.

Lemma sorted_perm (l : list A) : Permutation (sorted le l) l.
Proof.
  induction l as [|x l IH]; cbn; [reflexivity |].
  rewrite insert_sorted_perm. now apply perm_skip.
Qed.

Lemma sorted_length (l : list A) : length (sorted le l) = length l.
Proof. apply Permutation_length, sorted_perm. Qed.

Hypothesis le_total : forall a b, le a b = false -> le b a = true.
Hypothesis le_trans :
  forall a b c, le a b = true -> le b c = true -> le a c = true.

Lemma insert_sorted_sorted (x : A) (l : list A) :
  StronglySorted (fun a b => le a b = true) l ->
  StronglySorted (fun a b => le a b = true) (insert_sorted le x l).
Proof.
  induction 1 as [|y l Hsorted IH Hy]; cbn.
  - repeat constructor.
  - destruct (le x y) eqn:Hxy.
    + constructor; [now constructor |].
      constructor; [assumption |].
      eapply Forall_impl; [exact Hy |]. intros z Hyz. cbn in Hyz.
      now apply (le_trans x y z).
    + constructor; [assumption |].
      rewrite (insert_sorted_perm x l).
      constructor; [now apply le_total | assumption].
Qed.

Lemma sorted_sorted (l : list A) :
  StronglySorted (fun a b => le a b = true) (sorted le l).
Proof.
  induction l as [|x l IH]; cbn; [constructor |].
  now apply insert_sorted_sorted.
Qed.

End SortedFacts.

Lemma ascii_compare_trans (x y z : ascii) :
  Ascii.compare x y <> Gt -> Ascii.compare y z <> Gt ->
  Ascii.compare x z <> Gt
  /\ (Ascii.compare x z = Eq -> Ascii.compare x y = Eq /\ Ascii.compare y z = Eq).
Proof.
  unfold Ascii.compare.
  rewrite !N.compare_gt_iff, !N.compare_eq_iff. lia.
Qed.

Lemma string_leb_trans (a : string) :
  forall b c,
    String.leb a b = true -> String.leb b c = true -> String.leb a c = true.
Proof.
  unfold String.leb.
  induction a as [|x a IH]; intros [|y b] [|z c]; simpl; try congruence.
  intros Hab Hbc.
  assert (Hxy : Ascii.compare x y <> Gt)
    by (destruct (Ascii.compare x y); congruence).
  assert (Hyz : Ascii.compare y z <> Gt)
    by (destruct (Ascii.compare y z); congruence).
  destruct (ascii_compare_trans x y z Hxy Hyz) as [Hxz Heq].
  destruct (Ascii.compare x z) eqn:Exz; try congruence.
  destruct (Heq eq_refl) as [E1 E2]. rewrite E1 in Hab. rewrite E2 in Hbc.
  now apply (IH b c).
Qed.

Lemma string_leb_total (a b : string) :
  String.leb a b = false -> String.leb b a = true.
Proof.
  intros Hab. destruct (String.leb_total a b) as [H|H]; congruence.
Qed.

(** ** The demand selector *)

Lemma select_loop_demands_of (qconf_sp : string -> result string)
    (rule_of : string -> AllocationRule.t) (jobs : list job) :
  (forall j, In j jobs ->
     GridEngine.get_pe_allocation_rule (qconf_sp (GridEngineJob.pe j))
     = Ok (rule_of (GridEngineJob.pe j))) ->
  forall (allocation_rules : gmap string AllocationRule.t) remaining_supply,
    (forall pe rule, allocation_rules !! pe = Some rule -> rule = rule_of pe) ->
    GridEngineDemandSelector.select_loop qconf_sp allocation_rules
      remaining_supply jobs
    = Ok (demands_of rule_of remaining_supply jobs).
Proof.
  induction jobs as [|j jobs IH]; intros Hrules allocation_rules remaining_supply
    Hcache; [reflexivity |].
  cbn [GridEngineDemandSelector.select_loop demands_of].
  assert (Hrule : cached_allocation_rule qconf_sp allocation_rules
                    (GridEngineJob.pe j)
                  = Ok (rule_of (GridEngineJob.pe j),
                        <[GridEngineJob.pe j := rule_of (GridEngineJob.pe j)]>
                          allocation_rules)).
  { unfold cached_allocation_rule.
    destruct (allocation_rules !! GridEngineJob.pe j) as [rule|] eqn:Hlookup.
    - now rewrite (Hcache _ _ Hlookup).
    - rewrite (Hrules j (or_introl eq_refl)). reflexivity. }
  rewrite Hrule. cbn [bind].
  destruct (GridEngineDemandSelector.job_demand _ remaining_supply j)
    as [remaining_demand remaining_supply'].
  rewrite IH.
  - reflexivity.
  - intros j' Hin. apply Hrules. now right.
  - intros pe rule Hlookup.
    destruct (decide (GridEngineJob.pe j = pe)) as [<-|Hne].
    + rewrite lookup_insert_eq in Hlookup. congruence.
    + rewrite lookup_insert_ne in Hlookup by assumption. eauto.
Qed.

Lemma demands_of_length rule_of (jobs : list job) :
  forall remaining_supply,
    length (demands_of rule_of remaining_supply jobs) = length jobs.
Proof.
  induction jobs as [|j jobs IH]; intros remaining_supply; [reflexivity |].
  cbn [demands_of].
  destruct (GridEngineDemandSelector.job_demand _ remaining_supply j).
  cbn. now rewrite IH.
Qed.

(** The demand at position [k] comes from the job at position [k] and
    from the supply that the jobs before it have left. *)
Lemma demands_of_lookup rule_of (jobs : list job) :
  forall remaining_supply k j d,
    jobs !! k = Some j ->
    demands_of rule_of remaining_supply jobs !! k = Some d ->
    d = fst (GridEngineDemandSelector.job_demand
               (rule_of (GridEngineJob.pe j))
               (fold_left
                  (fun remaining_supply j =>
                     snd (GridEngineDemandSelector.job_demand
                            (rule_of (GridEngineJob.pe j)) remaining_supply j))
                  (firstn k jobs) remaining_supply)
               j).
Proof.
  induction jobs as [|j0 jobs IH]; intros remaining_supply k j d Hj Hd;
    [discriminate |].
  cbn [demands_of] in Hd.
  destruct (GridEngineDemandSelector.job_demand _ remaining_supply j0)
    as [d0 s0] eqn:Hstep.
  destruct k as [|k].
  - cbn in Hj, Hd |- *. injection Hj as <-. injection Hd as <-.
    now rewrite Hstep.
  - cbn [firstn fold_left]. rewrite Hstep. cbn [snd].
    apply (IH s0 k j d); assumption.
Qed.

Lemma host_supplies_no_debt qhost supplies :
  GridEngine.get_host_supplies qhost = Ok supplies ->
  Forall no_debt supplies.
Proof.
  unfold GridEngine.get_host_supplies.
  destruct qhost as [queues|e]; cbn [bind]; [| discriminate].
  intros [= <-]. apply Forall_forall. intros supply Hin.
  apply list_elem_of_In, in_map_iff in Hin. destruct Hin as (q & <- & _).
  unfold no_debt. cbn. lia.
Qed.

Lemma add_all_no_debt supplies :
  forall total, no_debt total -> Forall no_debt supplies ->
    no_debt (fold_left ComputeResource.add supplies total).
Proof.
  induction supplies as [|supply supplies IH]; intros total Htotal Hall;
    [assumption |].
  inversion Hall as [|? ? Hsupply Hrest]; subst.
  cbn [fold_left]. apply IH; [| assumption].
  unfold no_debt in *. cbn. lia.
Qed.

Lemma job_demand_no_debt rule remaining_supply j :
  no_debt remaining_supply ->
  no_debt (snd (GridEngineDemandSelector.job_demand rule remaining_supply j)).
Proof.
  intros Hsupply. unfold GridEngineDemandSelector.job_demand.
  destruct (AllocationRule.mem rule AllocationRule.fractional_rules);
    [| assumption].
  unfold no_debt. cbn. lia.
Qed.

Lemma remaining_supply_no_debt rule_of supplies jobs k :
  Forall no_debt supplies ->
  no_debt (remaining_supply_before rule_of supplies jobs k).
Proof.
  intros Hsupplies. unfold remaining_supply_before.
  generalize (firstn k jobs). intros prefix.
  assert (Htotal : no_debt (fold_left ComputeResource.add supplies
                              (ComputeResource.resource_supply 0))).
  { apply add_all_no_debt; [| assumption]. unfold no_debt. cbn. lia. }
  revert Htotal. generalize (fold_left ComputeResource.add supplies
                               (ComputeResource.resource_supply 0)).
  induction prefix as [|j prefix IH]; intros total Htotal; [assumption |].
  cbn [fold_left]. apply IH. now apply job_demand_no_debt.
Qed.

(** The demand of an integral job. *)
Lemma job_demand_integral remaining_supply j :
  fst (GridEngineDemandSelector.job_demand AllocationRule.pe_slots
         remaining_supply j)
  = ComputeResource.integral_demand
      (GridEngineJob.cpu j) (GridEngineJob.user j).
Proof. reflexivity. Qed.

(** The demand of a fractional job that the remaining supply covers. *)
Lemma job_demand_covered rule remaining_supply j :
  rule <> AllocationRule.pe_slots ->
  no_debt remaining_supply ->
  GridEngineJob.cpu j <= ComputeResource.cpu remaining_supply ->
  let d := fst (GridEngineDemandSelector.job_demand rule remaining_supply j) in
  ComputeResource.cpu d = 1 /\ ComputeResource.gpu d = 0
  /\ ComputeResource.mem d = 0
  /\ ComputeResource.cls d = ComputeResource.FractionalDemand.
Proof.
  intros Hrule [Hgpu Hmem] Hcovered.
  unfold GridEngineDemandSelector.job_demand.
  replace (AllocationRule.mem rule AllocationRule.fractional_rules) with true
    by (destruct rule; [congruence | reflexivity | reflexivity]).
  cbn [ComputeResource.subtract].
  match goal with
  | |- context [ComputeResource.bool ?x] =>
      assert (Hnone : ComputeResource.bool x = false)
  end.
  { unfold ComputeResource.bool. cbn. decide_ltb; try reflexivity. }
  rewrite Hnone. cbn. repeat split; lia.
Qed.

(** C2 (as the script does it).  When the Grid Engine answers, [select]
    yields one demand per job, for the jobs taken by ascending [root_id]
    (in the order of strings).  The demand of a job whose parallel
    environment has the integral rule is an [IntegralDemand] with the cpu
    and the user of the job, and neither gpu nor mem.  The demand of a job
    with a fractional rule that the remaining free supply of the cluster
    covers is a [FractionalDemand] of 1 cpu. *)
Theorem C2_demand_selector
    (qhost : result (list queue_values)) (qconf_sp : string -> result string)
    (rule_of : string -> AllocationRule.t) (jobs : list job)
    (supplies : list resource)
    (Hsupplies : GridEngine.get_host_supplies qhost = Ok supplies)
    (Hrules : forall j, In j jobs ->
       GridEngine.get_pe_allocation_rule (qconf_sp (GridEngineJob.pe j))
       = Ok (rule_of (GridEngineJob.pe j))) :
  let ordered := sorted GridEngineDemandSelector.by_root_id jobs in
  exists demands,
    GridEngineDemandSelector.select qhost qconf_sp jobs = Ok demands
    /\ Permutation ordered jobs
    /\ StronglySorted
         (fun a b => String.leb (GridEngineJob.root_id a) (GridEngineJob.root_id b)
                     = true) ordered
    /\ length demands = length jobs
    /\ forall k j d,
         ordered !! k = Some j -> demands !! k = Some d ->
         (rule_of (GridEngineJob.pe j) = AllocationRule.pe_slots ->
          d = ComputeResource.integral_demand
                (GridEngineJob.cpu j) (GridEngineJob.user j))
         /\ (rule_of (GridEngineJob.pe j) <> AllocationRule.pe_slots ->
             GridEngineJob.cpu j
             <= ComputeResource.cpu
                  (remaining_supply_before rule_of supplies ordered k) ->
             ComputeResource.cpu d = 1 /\ ComputeResource.gpu d = 0
             /\ ComputeResource.mem d = 0
             /\ ComputeResource.cls d = ComputeResource.FractionalDemand).
Proof.
  intros ordered.
  set (total := fold_left ComputeResource.add supplies
                  (ComputeResource.resource_supply 0)).
  exists (demands_of rule_of total ordered).
  assert (Hperm : Permutation ordered jobs) by apply sorted_perm.
  split; [| split; [assumption | split; [| split]]].
  - unfold GridEngineDemandSelector.select. rewrite Hsupplies. cbn [bind].
    apply select_loop_demands_of.
    + intros j Hin. apply Hrules.
      apply (Permutation_in _ Hperm Hin).
    + intros pe rule Hlookup. rewrite lookup_empty in Hlookup. discriminate.
  - apply (sorted_sorted GridEngineDemandSelector.by_root_id).
    + intros a b. apply string_leb_total.
    + intros a b c. apply string_leb_trans.
  - rewrite demands_of_length. now apply Permutation_length.
  - intros k j d Hj Hd.
    rewrite (demands_of_lookup rule_of ordered total k j d Hj Hd).
    fold (remaining_supply_before rule_of supplies ordered k).
    split.
    + intros ->. apply job_demand_integral.
    + intros Hrule Hcovered. apply job_demand_covered; try assumption.
      apply remaining_supply_no_debt.
      now apply (host_supplies_no_debt qhost).
Qed.

Lemma C2_demand_selector_witness :
  let qhost := Ok [ {| state_string := ""; slots := 8; slots_used := 2;
                       slots_resv := 1 |} ] in
  let qconf_sp := fun pe : string =>
    if String.eqb pe "local" then Ok "$pe_slots"%string
    else Ok "$fill_up"%string in
  let rule_of := fun pe : string =>
    if String.eqb pe "local" then AllocationRule.pe_slots
    else AllocationRule.fill_up in
  let job9 := GridEngineJob.make "9" "9" "align" (Some "alice"%string) PENDING 0
                [] 2 0 0 "mpi" in
  let job10 := GridEngineJob.make "10" "10" "train" (Some "bob"%string) PENDING 0
                 [] 4 1 16 "local" in
  GridEngine.get_host_supplies qhost
  = Ok [ComputeResource.make ComputeResource.ResourceSupply 5 0 0 None]
  /\ GridEngineDemandSelector.select qhost qconf_sp [job9; job10]
     = Ok [ComputeResource.integral_demand 4 (Some "bob"%string);
           ComputeResource.fractional_demand 1 (Some "alice"%string)].
Proof.
  intros qhost qconf_sp rule_of job9 job10.
  assert (Hsupplies : GridEngine.get_host_supplies qhost
            = Ok [ComputeResource.make ComputeResource.ResourceSupply 5 0 0 None])
    by reflexivity.
  split; [exact Hsupplies |].
  destruct (C2_demand_selector qhost qconf_sp rule_of [job9; job10] _ Hsupplies)
    as (demands & Hselect & _ & _ & Hlength & Hdemands).
  { intros j [<-|[<-|[]]]; reflexivity. }
  rewrite Hselect. f_equal.
  destruct demands as [|d0 [|d1 [|]]]; try discriminate.
  destruct (Hdemands 0%nat job10 d0 eq_refl eq_refl) as [Hintegral _].
  destruct (Hdemands 1%nat job9 d1 eq_refl eq_refl) as [_ Hcovered].
  rewrite (Hintegral eq_refl).
  vm_compute in Hselect. now injection Hselect as _ <-.
Defined.

(** An integral job that asks for 1 gpu and 16 GiB: the demand emitted for
    it has neither. *)
Lemma C2_integral_demand_counterexample : ~ spec_integral_demand.
Proof.
  intros Hspec.
  pose (j := GridEngineJob.make "10" "10" "train" (Some "bob"%string) PENDING 0
               [] 4 1 16 "local").
  specialize (Hspec (Ok []) (fun _ => Ok "$pe_slots"%string) [j]
                [ComputeResource.integral_demand 4 (Some "bob"%string)]
                0%nat j
                (ComputeResource.integral_demand 4 (Some "bob"%string))
                eq_refl eq_refl eq_refl eq_refl).
  discriminate Hspec.
Qed.

(** ** The number of stored hosts *)

Lemma load_hosts_length {T : Type} (storage : gmap string T) :
  length (load_hosts storage) = size storage.
Proof. unfold load_hosts. rewrite length_map. apply length_map_to_list. Qed.

Lemma add_host_size {T : Type} (t : T) host (storage storage' : gmap string T) :
  add_host t host storage = Ok storage' -> size storage' = S (size storage).
Proof.
  unfold add_host. destruct (storage !! host) eqn:Hlookup; [discriminate |].
  intros [= <-]. now apply map_size_insert_None.
Qed.

Lemma remove_host_size {T : Type} host (storage storage' : gmap string T) :
  remove_host host storage = Ok storage' -> (size storage' <= size storage)%nat.
Proof.
  unfold remove_host. destruct (storage !! host) eqn:Hlookup; [| discriminate].
  intros [= <-]. rewrite map_size_delete, Hlookup. lia.
Qed.

Lemma update_hosts_activity_size {T : Type} hosts (t : T) :
  forall storage : gmap string T,
    size (update_hosts_activity hosts t storage) = size storage.
Proof.
  unfold update_hosts_activity.
  induction hosts as [|host hosts IH]; intros storage; [reflexivity |].
  cbn [fold_left]. rewrite IH.
  destruct (storage !! host) eqn:Hlookup; [| reflexivity].
  apply map_size_insert_Some. eauto.
Qed.

Lemma update_running_jobs_host_activity_size {T : Type} running_jobs (t : T)
    (storage : gmap string T) :
  size (update_running_jobs_host_activity running_jobs t storage) = size storage.
Proof.
  unfold update_running_jobs_host_activity.
  destruct (concat _); [reflexivity |]. apply update_hosts_activity_size.
Qed.

Section TickFacts.

Variable settings_ : settings.
Variable get_jobs_at : call_site -> result (list job).
Variable w : world.

Local Notation "'hosts_in' d" := (size (host_storage d)) (at level 10, d at level 9).

Lemma reap_all_size hosts :
  forall d, (hosts_in (snd (reap_all get_jobs_at w hosts d)) <= hosts_in d)%nat.
Proof.
  induction hosts as [|host hosts IH]; intros d; cbn [reap_all snd];
    [lia |].
  destruct (reap get_jobs_at w host (host_storage d)) as [storage|e] eqn:Hreap;
    [| cbn; lia].
  etransitivity; [apply IH |]. cbn [host_storage with_host_storage].
  unfold reap in Hreap.
  destruct (_try_kill_invalid_host_jobs get_jobs_at w host); [| discriminate].
  destruct (delete_host w host true); [| discriminate].
  destruct (remove_from_hosts w host); [| discriminate].
  cbn [bind] in Hreap. now apply remove_host_size in Hreap.
Qed.

Lemma validate_size d :
  (hosts_in (snd (validate get_jobs_at w d)) <= hosts_in d)%nat.
Proof.
  unfold validate. destruct (load_hosts (host_storage d)); [cbn; lia |].
  destruct (invalid_hosts w _); [apply reap_all_size | cbn; lia].
Qed.

Lemma scale_down_all_size hosts :
  forall d,
    (hosts_in (snd (scale_down_all get_jobs_at w hosts d)) <= hosts_in d)%nat.
Proof.
  induction hosts as [|host hosts IH]; intros d; cbn [scale_down_all snd];
    [lia |].
  destruct (scale_down_handler get_jobs_at w host) as [[|]|e]; [| apply IH | cbn; lia].
  destruct (remove_host host (host_storage d)) as [storage|e] eqn:Hremove;
    [| cbn; lia].
  etransitivity; [apply IH |]. cbn [host_storage with_host_storage].
  now apply remove_host_size in Hremove.
Qed.

Lemma scale_down_size running_jobs additional_hosts scaling_period_start d :
  (hosts_in (snd (_scale_down settings_ get_jobs_at w running_jobs
                    additional_hosts scaling_period_start d))
   <= hosts_in d)%nat.
Proof.
  unfold _scale_down.
  destruct (inactive_additional_hosts _ _ _ _ _) as [[|host hosts]|e];
    cbn [snd]; try lia.
  unfold orchestrator_scale_down.
  destruct (hosts_to_scale_down _ _ _) as [hosts'|e]; cbn [snd]; [| lia].
  apply scale_down_all_size.
Qed.

Lemma lands_size report d : (hosts_in (lands report d) <= S (hosts_in d))%nat.
Proof.
  unfold lands. destruct (pod report) as [host|]; [| lia].
  destruct (add_host _ host (host_storage d)) as [storage|e] eqn:Hadd; [| lia].
  cbn [host_storage with_host_storage].
  apply add_host_size in Hadd. lia.
Qed.

Lemma land_all_size reports :
  forall d, (hosts_in (land_all reports d) <= hosts_in d + length reports)%nat.
Proof.
  unfold land_all.
  induction reports as [|report reports IH]; intros d; cbn [fold_left length];
    [lia |].
  etransitivity; [apply IH |]. pose proof (lands_size report d). lia.
Qed.

Lemma update_last_activity_size round d d' :
  _update_last_activity_for_currently_running_jobs get_jobs_at w round d = Ok d' ->
  hosts_in d' = hosts_in d.
Proof.
  unfold _update_last_activity_for_currently_running_jobs.
  destruct (get_jobs_at (InWaitLoop round)) as [jobs|e]; cbn [bind];
    [| discriminate].
  destruct (List.filter is_running_job jobs); intros [= <-]; [reflexivity |].
  cbn [host_storage with_running_jobs].
  apply update_running_jobs_host_activity_size.
Qed.

Lemma wait_loop_size rounds :
  forall round reports d,
    (hosts_in (snd (wait_loop get_jobs_at w rounds round reports d))
     <= hosts_in d + length reports)%nat.
Proof.
  induction rounds as [|rounds IH]; intros round reports d;
    cbn [wait_loop snd]; [apply land_all_size |].
  destruct (partition _ reports) as [landing running] eqn:Hsplit.
  pose proof (partition_length _ _ Hsplit) as Hlength.
  pose proof (land_all_size landing d) as Hlanded.
  destruct (_update_last_activity_for_currently_running_jobs _ _ round _)
    as [d'|e] eqn:Hupdate.
  - apply update_last_activity_size in Hupdate.
    etransitivity; [apply IH |]. lia.
  - cbn [snd host_storage with_setting_up]. lia.
Qed.

Lemma select_loop_length n reserved instances :
  forall demands instance_demands,
    CpuCapacityInstanceSelector.select_loop n reserved instances demands
    = Ok instance_demands ->
    (length instance_demands <= n)%nat.
Proof.
  induction n as [|n IH]; intros demands instance_demands;
    cbn [CpuCapacityInstanceSelector.select_loop].
  - intros [= <-]. cbn. lia.
  - destruct (CpuCapacityInstanceSelector.select_next _ _ _) as [[[x rest]|]|e];
      cbn [bind]; [| intros [= <-]; cbn; lia | discriminate].
    destruct (CpuCapacityInstanceSelector.select_loop n _ _ rest)
      as [xs|e] eqn:Hrest; cbn [bind]; [| discriminate].
    intros [= <-]. cbn. apply IH in Hrest. lia.
Qed.

Lemma cpu_capacity_select_length n provided reserved demands instance_demands :
  CpuCapacityInstanceSelector.select n provided reserved demands
  = Ok instance_demands ->
  (length instance_demands <= n)%nat.
Proof.
  unfold CpuCapacityInstanceSelector.select. destruct n as [|n].
  - intros [= <-]. cbn. lia.
  - destruct provided as [instances|e]; cbn [bind]; [| discriminate].
    apply select_loop_length.
Qed.

(** [islice] caps the number of instance demands, whatever the selector. *)
Lemma instance_selector_select_length selector n provided reserved demands
    instance_demands :
  instance_selector_select selector n provided reserved demands
  = Ok instance_demands ->
  (length instance_demands <= n)%nat.
Proof.
  unfold instance_selector_select, NaiveCpuCapacityInstanceSelector.select.
  destruct selector as [| |batch_size]; [| | destruct (1 <? batch_size)];
    apply cpu_capacity_select_length.
Qed.

(** A batch adds at most [min(batch_size, max_batch_size)] hosts. *)
Lemma orchestrator_scale_up_size resource_demands max_batch_size d :
  Z.of_nat (hosts_in (snd (orchestrator_scale_up settings_ get_jobs_at w
                             resource_demands max_batch_size d)))
  <= Z.of_nat (hosts_in d)
     + Z.max 0 (Z.min (scale_up_batch_size settings_) max_batch_size).
Proof.
  unfold orchestrator_scale_up.
  destruct (Z.ltb_spec (Z.min (scale_up_batch_size settings_) max_batch_size) 0)
    as [Hneg|Hstop]; [cbn [snd]; lia |].
  destruct (instance_selector_select _ _ _ _ _)
    as [[|x instance_demands]|e] eqn:Hselect; cbn [snd]; try lia.
  apply instance_selector_select_length in Hselect.
  pose proof (wait_loop_size (wait_rounds w) 0
                (imap (worker w) (x :: instance_demands)) d) as Hwait.
  rewrite length_imap in Hwait.
  destruct (wait_loop _ _ _ _ _ _) as [[[]|e] d']; cbn [snd] in *;
    cbn [host_storage with_worker_records]; lia.
Qed.

(** [scale] adds hosts only up to [max_additional_hosts]. *)
Lemma scale_jobs_size updated_jobs d :
  Z.of_nat (hosts_in d) <= max_additional_hosts settings_ ->
  Z.of_nat (hosts_in (snd (scale_jobs settings_ get_jobs_at w updated_jobs d)))
  <= max_additional_hosts settings_.
Proof.
  intros Hbound. unfold scale_jobs.
  rewrite load_hosts_length.
  set (running_jobs := List.filter is_running_job updated_jobs).
  set (d1 := match running_jobs with
             | [] => d
             | _ => with_running_jobs running_jobs (now w)
                      (latest_of running_jobs) d
             end).
  assert (Hd1 : hosts_in d1 = hosts_in d).
  { subst d1. destruct running_jobs; [reflexivity |].
    cbn [host_storage with_running_jobs].
    apply update_running_jobs_host_activity_size. }
  destruct (max_additional_hosts settings_ =? 0); [cbn [snd]; lia |].
  destruct (_get_valid_jobs settings_ w _) as [[|j waiting_jobs]|e];
    cbn [snd]; try lia.
  - destruct (latest_running_job d1) as [latest|].
    + destruct (_ <=? now w); cbn [snd]; [| lia].
      pose proof (scale_down_size running_jobs (load_hosts (host_storage d))
                    (Some (now w)) d1). lia.
    + pose proof (scale_down_size running_jobs (load_hosts (host_storage d))
                    (Some (now w)) d1). lia.
  - destruct (List.filter (expired settings_ w) (j :: waiting_jobs));
      cbn [snd]; [lia |].
    destruct (Z.ltb_spec (Z.of_nat (hosts_in d)) (max_additional_hosts settings_))
      as [Hroom|Hfull].
    + destruct (GridEngineDemandSelector.select _ _ _) as [resource_demands|e];
        cbn [snd]; [| lia].
      pose proof (orchestrator_scale_up_size resource_demands
                    (max_additional_hosts settings_ - Z.of_nat (hosts_in d)) d1).
      lia.
    + pose proof (scale_down_size running_jobs (load_hosts (host_storage d))
                    None d1). lia.
Qed.

Lemma scale_size d :
  Z.of_nat (hosts_in d) <= max_additional_hosts settings_ ->
  Z.of_nat (hosts_in (snd (scale settings_ get_jobs_at w d)))
  <= max_additional_hosts settings_.
Proof.
  intros Hbound. unfold scale.
  destruct (get_jobs_at InAutoscaler); [now apply scale_jobs_size | assumption].
Qed.

End TickFacts.

(** ** The bound on the additional hosts *)

(** C1 (as the script does it).  A tick that begins with at most
    [max_additional_hosts] hosts in the additional storage, and with no
    handler of an earlier batch still running, ends with at most
    [max_additional_hosts] hosts in it: the validator and the scale-down
    path only remove hosts, [scale] asks for a batch of at most
    [max_additional_hosts] minus the number of stored hosts, and a batch
    adds at most [min(batch_size, max_batch_size)] hosts, one per handler
    at most. *)
Theorem C1_hosts_within_max
    (settings_ : settings) (get_jobs_at : call_site -> result (list job))
    (w : world) (d : daemon)
    (Hstart : Z.of_nat (size (host_storage d)) <= max_additional_hosts settings_)
    (Hjoined : setting_up d = []) :
  Z.of_nat (size (host_storage (tick settings_ get_jobs_at w d)))
  <= max_additional_hosts settings_
  /\ (size (host_storage (snd (validate get_jobs_at w d)))
      <= size (host_storage d))%nat
  /\ (forall resource_demands max_batch_size d0,
        Z.of_nat (size (host_storage
                          (snd (orchestrator_scale_up settings_ get_jobs_at w
                                  resource_demands max_batch_size d0))))
        <= Z.of_nat (size (host_storage d0))
           + Z.max 0 (Z.min (scale_up_batch_size settings_) max_batch_size))
  /\ (forall running_jobs additional_hosts scaling_period_start d0,
        (size (host_storage
                 (snd (_scale_down settings_ get_jobs_at w running_jobs
                         additional_hosts scaling_period_start d0)))
         <= size (host_storage d0))%nat).
Proof.
  pose proof (validate_size get_jobs_at w d) as Hvalidate.
  repeat split.
  - unfold tick.
    destruct (validate get_jobs_at w d) as [[[]|e] d1]; cbn [snd] in Hvalidate.
    + apply scale_size. lia.
    + lia.
  - exact Hvalidate.
  - intros. apply orchestrator_scale_up_size.
  - intros. apply scale_down_size.
Qed.

Lemma C1_hosts_within_max_witness :
  let settings_ := example_settings 2 in
  let w := calm_world (timedelta 60) example_instances in
  let get_jobs_at := fun _ : call_site => Ok [example_job PENDING []] in
  let d := example_daemon {[ "pipeline-99"%string := 0 ]} in
  Z.of_nat (size (host_storage d)) <= max_additional_hosts settings_
  /\ setting_up d = []
  /\ Z.of_nat (size (host_storage (tick settings_ get_jobs_at w d)))
     <= max_additional_hosts settings_
  /\ host_storage (tick settings_ get_jobs_at w d) !! "pipeline-100"%string
     = Some (timedelta 60).
Proof.
  intros settings_ w get_jobs_at d.
  assert (Hstart : Z.of_nat (size (host_storage d))
                   <= max_additional_hosts settings_)
    by (vm_compute; discriminate).
  split; [exact Hstart |]. split; [reflexivity |].
  split; [| vm_compute; reflexivity].
  exact (proj1 (C1_hosts_within_max settings_ get_jobs_at w d Hstart eq_refl)).
Defined.

(** A storage that holds two hosts when the daemon starts with
    [max_additional_hosts = 1] (the storage file outlives the daemon):
    both hosts are valid and were active a moment ago, so the tick
    removes none of them. *)
Lemma C1_overfull_storage_counterexample : ~ spec_hosts_within_max.
Proof.
  intros Hspec.
  specialize (Hspec (example_settings 1) (fun _ => Ok [])
                (calm_world (timedelta 60) example_instances)
                (example_daemon {[ "pipeline-98"%string := timedelta 59;
                                   "pipeline-99"%string := timedelta 59 ]})).
  vm_compute in Hspec. apply Hspec. reflexivity.
Qed.

(** From an empty storage, with [max_additional_hosts = 1].  First tick:
    the pending job has expired and a worker is launched; the listing of
    the jobs cannot be decoded while the orchestrator waits, the exception
    ends the tick and the handler thread runs on.  Second tick: the storage
    is still empty, so a second worker is launched, and it joins.  Then the
    first handler reaches [add_host].  Third tick: the job runs on one of
    the two hosts, the other one is not idle yet, and the tick ends with
    two hosts in the storage. *)
Example handler_that_outlives_its_tick :
  let settings_ := example_settings 1 in
  let calm now_ := calm_world (timedelta now_) example_instances in
  let d1 :=
    tick settings_ unreadable_while_waiting
      (with_workers (slow_worker (timedelta 75)) 5 (calm 60))
      (example_daemon ∅) in
  let d2 := tick settings_ (fun _ => Ok [example_job PENDING []]) (calm 70) d1 in
  let d3 := straggler_lands 0 d2 in
  let d4 :=
    tick settings_ (fun _ => Ok [example_job RUNNING ["pipeline-100"%string]])
      (calm 80) d3 in
  (size (host_storage d1) = 0 /\ length (setting_up d1) = 1
   /\ size (host_storage d2) = 1 /\ size (host_storage d3) = 2
   /\ setting_up d3 = [] /\ size (host_storage d4) = 2)%nat.
Proof. vm_compute. repeat split. Qed.

(** ** The deadlock breaker *)

(** C5. When autoscaling is on, some valid waiting job has expired and the
    number of additional hosts equals [max_additional_hosts], [scale] takes
    the scale-down path with no [scaling_period_start]: the hosts handed
    over to [scale_down] are the additional hosts that no running job
    refers to, all of them, whatever the time of their last activity. *)
Theorem C5_deadlock_scale_down
    (settings_ : settings) (get_jobs_at : call_site -> result (list job))
    (w : world) (d : daemon) (updated_jobs waiting_jobs : list job)
    (Hjobs : get_jobs_at InAutoscaler = Ok updated_jobs)
    (Henabled : max_additional_hosts settings_ <> 0)
    (Hwaiting : _get_valid_jobs settings_ w
                  (List.filter is_pending_job updated_jobs) = Ok waiting_jobs)
    (Hexpired : exists j, In j waiting_jobs /\ expired settings_ w j = true)
    (Hfull : Z.of_nat (length (load_hosts (host_storage d)))
             = max_additional_hosts settings_) :
  let running_jobs := List.filter is_running_job updated_jobs in
  let additional_hosts := load_hosts (host_storage d) in
  let d' :=
    match running_jobs with
    | [] => d
    | _ => with_running_jobs running_jobs (now w) (latest_of running_jobs) d
    end in
  let candidates :=
    List.filter
      (fun host =>
         negb (bool_decide (host ∈ concat (map GridEngineJob.hosts running_jobs))))
      additional_hosts in
  scale settings_ get_jobs_at w d
  = _scale_down settings_ get_jobs_at w running_jobs additional_hosts None d'
  /\ inactive_additional_hosts settings_ running_jobs additional_hosts None d'
     = Ok candidates
  /\ forall host,
       In host additional_hosts ->
       (forall j, In j running_jobs -> ~ In host (GridEngineJob.hosts j)) ->
       In host candidates.
Proof.
  intros running_jobs additional_hosts d' candidates.
  split; [| split].
  - unfold scale. rewrite Hjobs. unfold scale_jobs.
    fold running_jobs additional_hosts d'.
    destruct (Z.eqb_spec (max_additional_hosts settings_) 0) as [|_];
      [contradiction |].
    rewrite Hwaiting.
    destruct Hexpired as (j & Hin & Hj).
    destruct waiting_jobs as [|j0 waiting_jobs']; [destruct Hin |].
    assert (Hsome : In j (List.filter (expired settings_ w) (j0 :: waiting_jobs')))
      by (apply filter_In; auto).
    destruct (List.filter (expired settings_ w) (j0 :: waiting_jobs'));
      [destruct Hsome |].
    unfold additional_hosts at 1. rewrite Hfull, Z.ltb_irrefl. reflexivity.
  - unfold inactive_additional_hosts. fold candidates.
    destruct candidates; reflexivity.
  - intros host Hhost Hunused. apply filter_In. split; [assumption |].
    apply negb_true_iff, bool_decide_eq_false.
    intros Hactive. apply list_elem_of_In, in_concat in Hactive.
    destruct Hactive as (hosts & Hhosts & Hin).
    apply in_map_iff in Hhosts. destruct Hhosts as (j & <- & Hj).
    exact (Hunused j Hj Hin).
Qed.

Lemma C5_deadlock_scale_down_witness :
  let settings_ := example_settings 2 in
  let w := calm_world (timedelta 60) example_instances in
  let updated_jobs :=
    [example_job PENDING []; example_job RUNNING ["pipeline-98"%string]] in
  let get_jobs_at := fun _ : call_site => Ok updated_jobs in
  let d := example_daemon {[ "pipeline-98"%string := timedelta 59;
                             "pipeline-99"%string := timedelta 59 ]} in
  max_additional_hosts settings_ <> 0
  /\ Z.of_nat (length (load_hosts (host_storage d)))
     = max_additional_hosts settings_
  /\ load_hosts (host_storage (snd (scale settings_ get_jobs_at w d)))
     = ["pipeline-98"%string].
Proof.
  intros settings_ w updated_jobs get_jobs_at d.
  assert (Henabled : max_additional_hosts settings_ <> 0) by discriminate.
  assert (Hfull : Z.of_nat (length (load_hosts (host_storage d)))
                  = max_additional_hosts settings_) by (vm_compute; reflexivity).
  split; [exact Henabled |]. split; [exact Hfull |].
  destruct (C5_deadlock_scale_down settings_ get_jobs_at w d updated_jobs
              [example_job PENDING []] eq_refl Henabled)
    as (Hscale & _ & _).
  - vm_compute. reflexivity.
  - exists (example_job PENDING []). split; [left; reflexivity |].
    vm_compute. reflexivity.
  - exact Hfull.
  - rewrite Hscale. vm_compute. reflexivity.
Defined.

(** * More properties of the script *)

(** ** What [subtract] leaves *)

(** X1. [subtract] loses nothing: in every component, what is left of [a]
    minus what is left of [b] is [a - b].  What is left of [b] is falsy
    exactly when no component of [b] exceeds that of [a], and what is left
    of [a] is falsy exactly when no component of [a] exceeds that of
    [b]. *)
Theorem subtract_loses_nothing (a b : resource) :
  let rest := fst (ComputeResource.subtract a b) in
  let unmet := snd (ComputeResource.subtract a b) in
  (ComputeResource.cpu rest - ComputeResource.cpu unmet
   = ComputeResource.cpu a - ComputeResource.cpu b
   /\ ComputeResource.gpu rest - ComputeResource.gpu unmet
      = ComputeResource.gpu a - ComputeResource.gpu b
   /\ ComputeResource.mem rest - ComputeResource.mem unmet
      = ComputeResource.mem a - ComputeResource.mem b)
  /\ (ComputeResource.bool unmet = false
      <-> ComputeResource.cpu b <= ComputeResource.cpu a
          /\ ComputeResource.gpu b <= ComputeResource.gpu a
          /\ ComputeResource.mem b <= ComputeResource.mem a)
  /\ (ComputeResource.bool rest = false
      <-> ComputeResource.cpu a <= ComputeResource.cpu b
          /\ ComputeResource.gpu a <= ComputeResource.gpu b
          /\ ComputeResource.mem a <= ComputeResource.mem b).
Proof.
  cbn. unfold ComputeResource.bool. cbn.
  repeat split; try lia; rewrite ?Z.ltb_ge in *; try lia; apply Z.ltb_ge; lia.
Qed.

(** ** The host storages *)

Section StorageFacts.

Context {T : Type}.

(** X2. Adding a host and then removing it gives the storage back, and
    raises [ScalingError] when the host was stored already; removing a
    host and adding it again stamps it anew, and raises [ScalingError]
    when the host was not stored.  Adding a host twice, or removing it
    twice, always raises [ScalingError]. *)
Theorem add_then_remove_host (now now' : T) (host : string) (storage : gmap string T) :
  (do s <- add_host now host storage; remove_host host s)
  = match storage !! host with
    | None => Ok storage
    | Some _ => Raise ScalingError
    end
  /\ (do s <- remove_host host storage; add_host now host s)
     = match storage !! host with
       | Some _ => Ok (<[host := now]> storage)
       | None => Raise ScalingError
       end
  /\ (do s <- add_host now host storage; add_host now' host s) = Raise ScalingError
  /\ (do s <- remove_host host storage; remove_host host s) = Raise ScalingError.
Proof.
  unfold add_host, remove_host.
  destruct (storage !! host) as [t|] eqn:Hlookup; cbn [bind].
  - rewrite lookup_delete_eq, insert_delete_eq. repeat split; reflexivity.
  - rewrite lookup_insert_eq. rewrite delete_insert_eq.
    rewrite delete_id by assumption. repeat split; reflexivity.
Qed.

Lemma update_hosts_activity_lookup (hosts : list string) (timestamp : T) :
  forall (storage : gmap string T) (host : string),
    update_hosts_activity hosts timestamp storage !! host
    = match storage !! host with
      | None => None
      | Some t => Some (if bool_decide (host ∈ hosts) then timestamp else t)
      end.
Proof.
  unfold update_hosts_activity.
  induction hosts as [|h hosts IH]; intros storage host; cbn [fold_left].
  - destruct (storage !! host); [| reflexivity].
    rewrite bool_decide_eq_false_2; [reflexivity | apply not_elem_of_nil].
  - rewrite IH. destruct (decide (h = host)) as [->|Hne].
    + destruct (storage !! host) as [t|] eqn:Hlookup.
      * rewrite lookup_insert_eq.
        rewrite (bool_decide_eq_true_2 (host ∈ host :: hosts)) by apply list_elem_of_here.
        now destruct (bool_decide (host ∈ hosts)).
      * now rewrite Hlookup.
    + assert (Hsame : (match storage !! h with
                       | Some _ => <[h := timestamp]> storage
                       | None => storage
                       end) !! host = storage !! host).
      { destruct (storage !! h); [now rewrite lookup_insert_ne | reflexivity]. }
      rewrite Hsame. destruct (storage !! host); [| reflexivity].
      rewrite (bool_decide_ext (host ∈ h :: hosts) (host ∈ hosts)); [reflexivity |].
      rewrite elem_of_cons.
      split; [intros [?|?]; [congruence | assumption] | intros ?; now right].
Qed.

Lemma update_running_jobs_host_activity_lookup (running_jobs : list job)
    (timestamp : T) (storage : gmap string T) (host : string) :
  update_running_jobs_host_activity running_jobs timestamp storage !! host
  = match storage !! host with
    | None => None
    | Some t =>
        Some (if bool_decide (host ∈ concat (map GridEngineJob.hosts running_jobs))
              then timestamp else t)
    end.
Proof.
  unfold update_running_jobs_host_activity.
  destruct (concat (map GridEngineJob.hosts running_jobs)) as [|a l] eqn:Hactive.
  - destruct (storage !! host); [| reflexivity].
    rewrite bool_decide_eq_false_2; [reflexivity | apply not_elem_of_nil].
  - apply update_hosts_activity_lookup.
Qed.

Lemma update_hosts_activity_dom (hosts : list string) (timestamp : T)
    (storage : gmap string T) :
  dom (update_hosts_activity hosts timestamp storage) = dom storage.
Proof.
  apply set_eq. intros h. rewrite !elem_of_dom, update_hosts_activity_lookup.
  destruct (storage !! h); split; intros [? ?]; eauto; discriminate.
Qed.

Lemma update_running_jobs_host_activity_dom (running_jobs : list job)
    (timestamp : T) (storage : gmap string T) :
  dom (update_running_jobs_host_activity running_jobs timestamp storage)
  = dom storage.
Proof.
  apply set_eq. intros h.
  rewrite !elem_of_dom, update_running_jobs_host_activity_lookup.
  destruct (storage !! h); split; intros [? ?]; eauto; discriminate.
Qed.

(** X3. An update of the activity never adds a host and never removes
    one: a stored host that is listed (for the running jobs: a host of one
    of them) gets the new time stamp, every other stored host keeps its
    own, and a host that is not stored stays out. *)
Theorem activity_updates_keep_the_hosts (hosts : list string)
    (running_jobs : list job) (timestamp : T) (storage : gmap string T)
    (host : string) :
  let active_hosts := concat (map GridEngineJob.hosts running_jobs) in
  update_hosts_activity hosts timestamp storage !! host
  = match storage !! host with
    | None => None
    | Some t => Some (if bool_decide (host ∈ hosts) then timestamp else t)
    end
  /\ update_running_jobs_host_activity running_jobs timestamp storage !! host
     = match storage !! host with
       | None => None
       | Some t => Some (if bool_decide (host ∈ active_hosts) then timestamp else t)
       end
  /\ dom (update_hosts_activity hosts timestamp storage) = dom storage
  /\ dom (update_running_jobs_host_activity running_jobs timestamp storage)
     = dom storage.
Proof.
  intros active_hosts. repeat split.
  - apply update_hosts_activity_lookup.
  - apply update_running_jobs_host_activity_lookup.
  - apply update_hosts_activity_dom.
  - apply update_running_jobs_host_activity_dom.
Qed.

(** X4. [get_hosts_activity] answers for all the hosts or for none: it
    returns the activity of exactly the hosts asked for when all of them
    are stored, and raises [ScalingError] as soon as one is not. *)
Theorem get_hosts_activity_all_or_nothing (hosts : list string) (storage : gmap string T) :
  match get_hosts_activity hosts storage with
  | Ok hosts_activity =>
      forall host,
        hosts_activity !! host
        = if bool_decide (host ∈ hosts) then storage !! host else None
  | Raise e =>
      e = ScalingError /\ exists host, host ∈ hosts /\ storage !! host = None
  end
  /\ ((exists hosts_activity, get_hosts_activity hosts storage = Ok hosts_activity)
      <-> Forall (fun host => is_Some (storage !! host)) hosts).
Proof.
  induction hosts as [|h hosts [IH1 IH2]]; cbn [get_hosts_activity].
  - split.
    + intros host. rewrite lookup_empty.
      rewrite bool_decide_eq_false_2; [reflexivity | apply not_elem_of_nil].
    + split; [constructor | eauto].
  - destruct (storage !! h) as [t|] eqn:Hh.
    + destruct (get_hosts_activity hosts storage) as [activity|e]; cbn [bind].
      * split.
        -- intros host. destruct (decide (h = host)) as [->|Hne].
           ++ rewrite lookup_insert_eq.
              rewrite bool_decide_eq_true_2 by apply list_elem_of_here. now symmetry.
           ++ rewrite lookup_insert_ne by assumption. rewrite IH1.
              rewrite (bool_decide_ext (host ∈ h :: hosts) (host ∈ hosts)); [reflexivity |].
              rewrite elem_of_cons.
      split; [intros [?|?]; [congruence | assumption] | intros ?; now right].
        -- split; [| eauto]. intros _. constructor; [eauto |].
           apply IH2. eauto.
      * destruct IH1 as (-> & host & Hin & Hnone). split.
        -- split; [reflexivity |]. exists host. split; [now apply list_elem_of_further | assumption].
        -- split; [intros [? ?]; discriminate |].
           intros Hall. inversion Hall as [|? ? _ Hrest]; subst.
           apply IH2 in Hrest. destruct Hrest as [? ?]; discriminate.
    + split.
      * split; [reflexivity |]. exists h. split; [apply list_elem_of_here | assumption].
      * split; [intros [? ?]; discriminate |].
        intros Hall. inversion Hall as [|? ? Hsome _]; subst.
        rewrite Hh in Hsome. destruct Hsome; discriminate.
Qed.

End StorageFacts.

(** ** The job validator *)

Lemma validate_loop_filters (qconf_sp : string -> result string)
    (rule_of : string -> AllocationRule.t)
    (instance_max_supply cluster_max_supply : resource) (jobs : list job) :
  (forall j, In j jobs ->
     GridEngine.get_pe_allocation_rule (qconf_sp (GridEngineJob.pe j))
     = Ok (rule_of (GridEngineJob.pe j))) ->
  forall allocation_rules : gmap string AllocationRule.t,
    (forall pe rule, allocation_rules !! pe = Some rule -> rule = rule_of pe) ->
    let too_big j :=
      ComputeResource.gt (GridEngineJobValidator.job_demand j)
        (if AllocationRule.mem (rule_of (GridEngineJob.pe j))
              AllocationRule.fractional_rules
         then cluster_max_supply else instance_max_supply) in
    GridEngineJobValidator.validate_loop qconf_sp instance_max_supply
      cluster_max_supply allocation_rules jobs
    = Ok (List.filter (fun j => negb (too_big j)) jobs, List.filter too_big jobs).
Proof.
  induction jobs as [|j jobs IH]; intros Hrules allocation_rules Hcache too_big;
    [reflexivity |].
  cbn [GridEngineJobValidator.validate_loop].
  assert (Hrule : cached_allocation_rule qconf_sp allocation_rules
                    (GridEngineJob.pe j)
                  = Ok (rule_of (GridEngineJob.pe j),
                        <[GridEngineJob.pe j := rule_of (GridEngineJob.pe j)]>
                          allocation_rules)).
  { unfold cached_allocation_rule.
    destruct (allocation_rules !! GridEngineJob.pe j) as [rule|] eqn:Hlookup.
    - now rewrite (Hcache _ _ Hlookup).
    - rewrite (Hrules j (or_introl eq_refl)). reflexivity. }
  rewrite Hrule. cbn [bind].
  rewrite IH.
  - cbn [bind List.filter]. fold (too_big j).
    destruct (too_big j); reflexivity.
  - intros j' Hin. apply Hrules. now right.
  - intros pe rule Hlookup.
    destruct (decide (GridEngineJob.pe j = pe)) as [<-|Hne].
    + rewrite lookup_insert_eq in Hlookup. congruence.
    + rewrite lookup_insert_ne in Hlookup by assumption. eauto.
Qed.

(** X5. When the allocation rule of every parallel environment can be
    read, [validate] splits the jobs in two, each list in the order of the
    jobs: the valid ones, whose cpu, gpu and mem are each within the supply
    of the biggest instance (of the whole cluster for a job with a
    fractional rule), and the others. *)
Theorem job_validator_partition (qconf_sp : string -> result string)
    (rule_of : string -> AllocationRule.t)
    (instance_max_supply cluster_max_supply : resource) (jobs : list job)
    (Hrules : forall j, In j jobs ->
       GridEngine.get_pe_allocation_rule (qconf_sp (GridEngineJob.pe j))
       = Ok (rule_of (GridEngineJob.pe j))) :
  let max_supply j :=
    if AllocationRule.mem (rule_of (GridEngineJob.pe j))
         AllocationRule.fractional_rules
    then cluster_max_supply else instance_max_supply in
  let fits j :=
    (GridEngineJob.cpu j <=? ComputeResource.cpu (max_supply j))
    && (GridEngineJob.gpu j <=? ComputeResource.gpu (max_supply j))
    && (GridEngineJob.mem j <=? ComputeResource.mem (max_supply j)) in
  GridEngineJobValidator.validate qconf_sp instance_max_supply
    cluster_max_supply jobs
  = Ok (List.filter fits jobs, List.filter (fun j => negb (fits j)) jobs).
Proof.
  intros max_supply fits. unfold GridEngineJobValidator.validate.
  rewrite (validate_loop_filters qconf_sp rule_of) by
    (try assumption; intros pe rule Hlookup; now rewrite lookup_empty in Hlookup).
  assert (Hfits : forall j,
            negb (ComputeResource.gt (GridEngineJobValidator.job_demand j)
                    (max_supply j)) = fits j).
  { intros j. unfold fits, ComputeResource.gt. cbn.
    rewrite !negb_orb, !Z.leb_antisym. reflexivity. }
  f_equal. f_equal.
  - apply filter_ext. intros j. apply Hfits.
  - apply filter_ext. intros j. rewrite <- Hfits. now rewrite negb_involutive.
Qed.

Lemma validate_loop_unreadable_rule (qconf_sp : string -> result string)
    (instance_max_supply cluster_max_supply : resource) (jobs : list job)
    (j : job) (e : exn) :
  In j jobs ->
  GridEngine.get_pe_allocation_rule (qconf_sp (GridEngineJob.pe j)) = Raise e ->
  forall allocation_rules : gmap string AllocationRule.t,
    (forall pe rule, allocation_rules !! pe = Some rule ->
       GridEngine.get_pe_allocation_rule (qconf_sp pe) = Ok rule) ->
    exists e',
      GridEngineJobValidator.validate_loop qconf_sp instance_max_supply
        cluster_max_supply allocation_rules jobs = Raise e'.
Proof.
  intros Hin Hbad.
  induction jobs as [|j0 jobs IH]; intros allocation_rules Hcache; [destruct Hin |].
  cbn [GridEngineJobValidator.validate_loop]. unfold cached_allocation_rule.
  destruct (allocation_rules !! GridEngineJob.pe j0) as [rule|] eqn:Hlookup.
  - cbn [bind]. destruct Hin as [->|Hin].
    + rewrite (Hcache _ _ Hlookup) in Hbad. discriminate.
    + destruct (IH Hin (<[GridEngineJob.pe j0 := rule]> allocation_rules))
        as [e' He'].
      * intros pe rule' Hpe. destruct (decide (GridEngineJob.pe j0 = pe)) as [<-|Hne].
        -- rewrite lookup_insert_eq in Hpe. injection Hpe as <-. eauto.
        -- rewrite lookup_insert_ne in Hpe by assumption. eauto.
      * rewrite He'. eauto.
  - destruct (GridEngine.get_pe_allocation_rule (qconf_sp (GridEngineJob.pe j0)))
      as [rule|e0] eqn:Hrule; cbn [bind]; [| eauto].
    destruct Hin as [->|Hin]; [congruence |].
    destruct (IH Hin (<[GridEngineJob.pe j0 := rule]> allocation_rules))
      as [e' He'].
    + intros pe rule' Hpe. destruct (decide (GridEngineJob.pe j0 = pe)) as [<-|Hne].
      * rewrite lookup_insert_eq in Hpe. injection Hpe as <-. assumption.
      * rewrite lookup_insert_ne in Hpe by assumption. eauto.
    + rewrite He'. eauto.
Qed.

(** X6. One pending job whose parallel environment has an allocation rule
    that cannot be read makes [validate] raise, whatever the other jobs
    are: [scale] ends with this exception, and no host is added to the
    storage or removed from it. *)
Theorem unreadable_rule_stops_scaling (settings_ : settings)
    (get_jobs_at : call_site -> result (list job)) (w : world) (d : daemon)
    (updated_jobs : list job) (j : job) (e : exn)
    (Henabled : max_additional_hosts settings_ <> 0)
    (Hin : In j updated_jobs)
    (Hpending : is_pending_job j = true)
    (Hbad : GridEngine.get_pe_allocation_rule
              (qconf_sp_validator w (GridEngineJob.pe j)) = Raise e) :
  exists e',
    GridEngineJobValidator.validate (qconf_sp_validator w)
      (instance_max_supply settings_) (cluster_max_supply settings_)
      (List.filter is_pending_job updated_jobs) = Raise e'
    /\ fst (scale_jobs settings_ get_jobs_at w updated_jobs d) = Raise e'
    /\ dom (host_storage (snd (scale_jobs settings_ get_jobs_at w updated_jobs d)))
       = dom (host_storage d).
Proof.
  destruct (validate_loop_unreadable_rule (qconf_sp_validator w)
              (instance_max_supply settings_) (cluster_max_supply settings_)
              (List.filter is_pending_job updated_jobs) j e) with (allocation_rules := (∅ : gmap string AllocationRule.t))
    as [e' He'].
  - apply filter_In. now split.
  - assumption.
  - intros pe rule Hlookup. now rewrite lookup_empty in Hlookup.
  - exists e'. split; [exact He' |].
    unfold scale_jobs.
    apply Z.eqb_neq in Henabled. rewrite Henabled.
    unfold _get_valid_jobs. unfold GridEngineJobValidator.validate in He' |- *.
    rewrite He'. cbn [bind fst snd].
    split; [reflexivity |].
    destruct (List.filter is_running_job updated_jobs); [reflexivity |].
    cbn [host_storage with_running_jobs].
    apply update_running_jobs_host_activity_dom.
Qed.

(** ** The demand selector, fractional jobs *)

Lemma job_demand_fractional rule remaining_supply j :
  rule <> AllocationRule.pe_slots ->
  no_debt remaining_supply ->
  let d := fst (GridEngineDemandSelector.job_demand rule remaining_supply j) in
  let left := snd (GridEngineDemandSelector.job_demand rule remaining_supply j) in
  ComputeResource.cpu d
  = Z.max 1 (GridEngineJob.cpu j - ComputeResource.cpu remaining_supply)
  /\ ComputeResource.gpu d = 0 /\ ComputeResource.mem d = 0
  /\ ComputeResource.cls d = ComputeResource.FractionalDemand
  /\ ComputeResource.cpu left
     = Z.max 0 (ComputeResource.cpu remaining_supply - GridEngineJob.cpu j).
Proof.
  intros Hrule [Hgpu Hmem].
  unfold GridEngineDemandSelector.job_demand.
  replace (AllocationRule.mem rule AllocationRule.fractional_rules) with true
    by (destruct rule; [congruence | reflexivity | reflexivity]).
  cbn [ComputeResource.subtract].
  unfold ComputeResource.bool.
  cbn [ComputeResource.cpu ComputeResource.gpu ComputeResource.mem
       ComputeResource.fractional_demand].
  replace (Z.max 0 (0 - ComputeResource.gpu remaining_supply)) with 0 by lia.
  replace (Z.max 0 (0 - ComputeResource.mem remaining_supply)) with 0 by lia.
  destruct (Z.ltb_spec 0
              (Z.max 0 (GridEngineJob.cpu j - ComputeResource.cpu remaining_supply)
               + 0 + 0)) as [Hlt|Hge];
    cbn; repeat split; lia.
Qed.

(** X7. When the Grid Engine answers, the demand that [select] emits for a
    job with a fractional rule is a [FractionalDemand] of
    [max(1, job.cpu - free)] cpu, where [free] is the free cpu of the
    cluster left by the jobs before it: never an empty demand.  Such a job
    leaves [max(0, free - job.cpu)] free cpu to the next ones, and a job
    with the integral rule leaves the free supply as it is. *)
Theorem demand_of_a_fractional_job
    (qhost : result (list queue_values)) (qconf_sp : string -> result string)
    (rule_of : string -> AllocationRule.t) (jobs : list job)
    (supplies : list resource)
    (Hsupplies : GridEngine.get_host_supplies qhost = Ok supplies)
    (Hrules : forall j, In j jobs ->
       GridEngine.get_pe_allocation_rule (qconf_sp (GridEngineJob.pe j))
       = Ok (rule_of (GridEngineJob.pe j))) :
  let ordered := sorted GridEngineDemandSelector.by_root_id jobs in
  let free := remaining_supply_before rule_of supplies ordered in
  exists demands,
    GridEngineDemandSelector.select qhost qconf_sp jobs = Ok demands
    /\ forall k j d,
         ordered !! k = Some j -> demands !! k = Some d ->
         (rule_of (GridEngineJob.pe j) <> AllocationRule.pe_slots ->
          ComputeResource.cpu d
          = Z.max 1 (GridEngineJob.cpu j - ComputeResource.cpu (free k))
          /\ ComputeResource.gpu d = 0 /\ ComputeResource.mem d = 0
          /\ ComputeResource.cls d = ComputeResource.FractionalDemand
          /\ ComputeResource.bool d = true
          /\ ComputeResource.cpu (free (S k))
             = Z.max 0 (ComputeResource.cpu (free k) - GridEngineJob.cpu j))
         /\ (rule_of (GridEngineJob.pe j) = AllocationRule.pe_slots ->
             free (S k) = free k).
Proof.
  intros ordered free.
  assert (Hordered : forall j, In j ordered -> In j jobs).
  { intros j Hin. eapply Permutation_in; [apply sorted_perm | exact Hin]. }
  pose proof (host_supplies_no_debt _ _ Hsupplies) as Hdebt.
  eexists. split.
  - unfold GridEngineDemandSelector.select. rewrite Hsupplies. cbn [bind].
    apply (select_loop_demands_of qconf_sp rule_of).
    + intros j Hin. apply Hrules, Hordered, Hin.
    + intros pe rule Hlookup. now rewrite lookup_empty in Hlookup.
  - intros k j d Hj Hd.
    pose proof (demands_of_lookup _ _ _ _ _ _ Hj Hd) as ->.
    fold ordered. fold (remaining_supply_before rule_of supplies ordered k).
    fold (free k).
    assert (Hnext : free (S k)
                    = snd (GridEngineDemandSelector.job_demand
                             (rule_of (GridEngineJob.pe j)) (free k) j)).
    { unfold free, remaining_supply_before.
      rewrite (take_S_r ordered k j Hj). rewrite fold_left_app. reflexivity. }
    split.
    + intros Hrule.
      destruct (job_demand_fractional (rule_of (GridEngineJob.pe j)) (free k) j
                  Hrule (remaining_supply_no_debt rule_of supplies ordered k Hdebt))
        as (Hcpu & Hgpu & Hmem & Hcls & Hleft).
      rewrite Hnext. repeat split; try assumption.
      unfold ComputeResource.bool. rewrite Hcpu, Hgpu, Hmem. apply Z.ltb_lt. lia.
    + intros Hrule. rewrite Hnext, Hrule. reflexivity.
Qed.

Lemma job_validator_partition_witness :
  let small := example_job_of "1" PENDING 4 "local" in
  let big := example_job_of "2" PENDING 16 "local" in
  let wide := example_job_of "3" PENDING 16 "mpi" in
  GridEngineJobValidator.validate example_rules
    (ComputeResource.resource_supply 8) (ComputeResource.resource_supply 16)
    [small; big; wide]
  = Ok ([small; wide], [big]).
Proof.
  intros small big wide.
  apply (job_validator_partition example_rules example_rule_of
           (ComputeResource.resource_supply 8) (ComputeResource.resource_supply 16)
           [small; big; wide]).
  intros j [<-|[<-|[<-|[]]]]; reflexivity.
Defined.

Lemma unreadable_rule_stops_scaling_witness :
  let w := with_qconf_sp (fun pe => if String.eqb pe "mpi" then Ok "$fillup"%string
                                    else Ok "$pe_slots"%string)
             (calm_world (timedelta 60) example_instances) in
  let jobs := [example_job_of "1" PENDING 4 "local";
               example_job_of "2" PENDING 4 "mpi"] in
  let d := example_daemon {[ "pipeline-99"%string := 0 ]} in
  fst (scale_jobs (example_settings 2) (fun _ => Ok jobs) w jobs d)
  = Raise ParsingError
  /\ dom (host_storage (snd (scale_jobs (example_settings 2) (fun _ => Ok jobs)
                               w jobs d)))
     = dom (host_storage d).
Proof.
  intros w jobs d.
  destruct (unreadable_rule_stops_scaling (example_settings 2) (fun _ => Ok jobs)
              w d jobs (example_job_of "2" PENDING 4 "mpi") ParsingError)
    as (e' & Hvalidate & Hscale & Hdom).
  - discriminate.
  - right; left; reflexivity.
  - reflexivity.
  - reflexivity.
  - split; [| exact Hdom]. rewrite Hscale. vm_compute in Hvalidate.
    now injection Hvalidate as <-.
Defined.

Lemma demand_of_a_fractional_job_witness :
  let qhost := Ok [ {| state_string := ""; slots := 8; slots_used := 2; slots_resv := 0 |} ] in
  let jobs := [example_job_of "2" PENDING 10 "mpi";
               example_job_of "1" PENDING 4 "mpi";
               example_job_of "3" PENDING 4 "local"] in
  exists first second third,
    GridEngineDemandSelector.select qhost example_rules jobs
    = Ok [first; second; third]
    /\ ComputeResource.cpu first = 1 /\ ComputeResource.cpu second = 8
    /\ ComputeResource.cpu third = 4.
Proof.
  intros qhost jobs.
  destruct (demand_of_a_fractional_job qhost example_rules example_rule_of jobs
              [ComputeResource.resource_supply 6])
    as (demands & Hselect & Hdemands).
  - reflexivity.
  - intros j [<-|[<-|[<-|[]]]]; reflexivity.
  - destruct demands as [|d1 [|d2 [|d3 [|]]]]; try (vm_compute in Hselect; discriminate).
    exists d1, d2, d3. split; [exact Hselect |].
    destruct (Hdemands 0%nat (example_job_of "1" PENDING 4 "mpi") d1 eq_refl eq_refl)
      as [H1 _].
    destruct (Hdemands 1%nat (example_job_of "2" PENDING 10 "mpi") d2 eq_refl eq_refl)
      as [H2 _].
    destruct (H1 ltac:(discriminate)) as (-> & _).
    destruct (H2 ltac:(discriminate)) as (-> & _).
    split; [reflexivity |]. split; [reflexivity |].
    vm_compute in Hselect. now injection Hselect as _ _ <-.
Defined.

(** ** Host names and run ids *)

(** X8. The run id of a host is what follows the last ['-'] of its name:
    for a name [prefix-id] whose [id] holds no ['-'] it is [id], whatever
    the prefix, and a name without any ['-'] is its own run id. *)
Theorem run_id_of_a_host (prefix run_id : string)
    (Hid : forall c, In c (list_ascii_of_string run_id) -> c <> "-"%char) :
  get_run_id_from_host (prefix ++ "-" ++ run_id) = run_id
  /\ get_run_id_from_host run_id = run_id.
Proof.
  unfold get_run_id_from_host.
  set (last_element := fix last_element (chars acc : list ascii) : list ascii :=
         match chars with
         | [] => acc
         | c :: chars' =>
             if Ascii.eqb c "-" then last_element chars' []
             else last_element chars' (acc ++ [c])
         end).
  assert (Hplain : forall chars acc,
            (forall c, In c chars -> c <> "-"%char) ->
            last_element chars acc = acc ++ chars).
  { induction chars as [|c chars IH]; intros acc Hchars; cbn.
    - now rewrite app_nil_r.
    - destruct (Ascii.eqb_spec c "-") as [->|Hne].
      + exfalso. now apply (Hchars "-"%char (or_introl eq_refl)).
      + rewrite IH by (intros c' Hin; apply Hchars; now right).
        now rewrite <- app_assoc. }
  assert (Hdash : forall front rest acc,
            (forall c, In c rest -> c <> "-"%char) ->
            last_element (front ++ "-"%char :: rest) acc = rest).
  { induction front as [|c front IH]; intros rest acc Hrest; cbn.
    - now rewrite Hplain.
    - destruct (Ascii.eqb c "-"); now apply IH. }
  split.
  - rewrite !list_ascii_of_string_app. cbn [list_ascii_of_string app].
    rewrite Hdash by assumption. apply string_of_list_ascii_of_string.
  - rewrite Hplain by assumption. apply string_of_list_ascii_of_string.
Qed.

Lemma run_id_of_a_host_witness :
  get_run_id_from_host "pipeline-12345" = "12345"%string
  /\ get_run_id_from_host "12345" = "12345"%string.
Proof.
  apply (run_id_of_a_host "pipeline" "12345").
  intros c Hin. cbn in Hin.
  repeat (destruct Hin as [<-|Hin]; [discriminate |]). destruct Hin.
Defined.

(** ** The worker recorder *)

(** X9. When the details of a run can be loaded, the recorder appends its
    record and then keeps the last [capacity] records: the new record is
    the last one, only the oldest ones are dropped, and the number of
    records is [min(n + 1, capacity)].  With a capacity of 0 the slice
    [records[-0:]] keeps every record. *)
Theorem recorder_keeps_the_latest (settings_ : settings) (w : world)
    (records : list worker_record) (run_id : Z) (record : worker_record)
    (Hrecorded : recorded w run_id = Some record) :
  let records' := record_worker settings_ w records run_id in
  last records' = Some record
  /\ (exists dropped, records ++ [record] = dropped ++ records')
  /\ length records'
     = match recorder_capacity settings_ with
       | O => S (length records)
       | capacity => Nat.min (S (length records)) capacity
       end.
Proof.
  intros records'. subst records'. unfold record_worker. rewrite Hrecorded.
  destruct (recorder_capacity settings_) as [|capacity] eqn:Hcapacity.
  - rewrite last_snoc. split; [reflexivity |]. split.
    + now exists [].
    + rewrite length_app. cbn. lia.
  - set (all := records ++ [record]).
    set (n := (length all - S capacity)%nat).
    assert (Hlen : length all = S (length records))
      by (unfold all; rewrite length_app; cbn; lia).
    split; [| split].
    + assert (Hsplit : all = firstn n all ++ skipn n all)
        by (symmetry; apply firstn_skipn).
      assert (Hnonempty : skipn n all <> []).
      { intros Hnil. apply (f_equal (@length _)) in Hnil.
        rewrite length_skipn in Hnil. cbn in Hnil. lia. }
      destruct (skipn n all) as [|x l] eqn:Hskip using rev_ind; [congruence |].
      clear IHl. rewrite last_snoc.
      unfold all in Hsplit. rewrite app_assoc in Hsplit.
      apply app_inj_tail in Hsplit. destruct Hsplit as [_ ->]. reflexivity.
    + exists (firstn n all). symmetry. apply firstn_skipn.
    + rewrite length_skipn. lia.
Qed.

Lemma recorder_keeps_the_latest_witness :
  let w := troubled_world (timedelta 600) in
  let earlier := GridEngineWorkerRecord.make 100 (Some "pipeline-100"%string)
                   (Some "B"%string) None None false in
  exists record,
    recorded w 101 = Some record
    /\ record_worker (example_settings 2) w [earlier] 101 = [earlier; record].
Proof.
  intros w earlier. eexists. split; [reflexivity |].
  destruct (recorder_keeps_the_latest (example_settings 2) w [earlier] 101 _ eq_refl)
    as (_ & _ & Hlength).
  destruct (record_worker (example_settings 2) w [earlier] 101)
    as [|r1 [|r2 [|r3 l]]] eqn:Hrecord; try discriminate Hlength.
  vm_compute in Hrecord. now injection Hrecord as <- <-.
Defined.

(** ** The worker validator *)

Lemma invalid_hosts_filter (w : world) (hosts invalid : list string) :
  invalid_hosts w hosts = Ok invalid ->
  Forall (fun host => exists b, is_invalid_host w host = Ok b) hosts
  /\ forall host, host ∈ invalid <-> host ∈ hosts /\ is_invalid_host w host = Ok true.
Proof.
  revert invalid. induction hosts as [|h hosts IH]; intros invalid; cbn [invalid_hosts].
  - intros [= <-]. split; [constructor |]. intros host. split.
    + intros Hin. now apply not_elem_of_nil in Hin.
    + intros [Hin _]. exact Hin.
  - destruct (is_invalid_host w h) as [b|e] eqn:Hh; cbn [bind]; [| discriminate].
    destruct (invalid_hosts w hosts) as [others|e]; cbn [bind]; [| discriminate].
    intros [= <-]. destruct (IH others eq_refl) as [Hall Hiff]. split.
    + constructor; eauto.
    + intros host. destruct b.
      * rewrite !elem_of_cons, Hiff. split.
        -- intros [->|[Hin Hinv]]; [split; [now left | assumption] | split; [now right | assumption]].
        -- intros [[->|Hin] Hinv]; [now left | right; now split].
      * rewrite elem_of_cons, Hiff. split.
        -- intros [Hin Hinv]. split; [now right | assumption].
        -- intros [[->|Hin] Hinv]; [congruence | now split].
Qed.

Lemma reap_all_lookup (get_jobs_at : call_site -> result (list job)) (w : world)
    (hosts : list string) :
  forall d d',
    reap_all get_jobs_at w hosts d = (Ok tt, d') ->
    (forall host,
       host_storage d' !! host
       = if bool_decide (host ∈ hosts) then None else host_storage d !! host)
    /\ static_host_storage d' = static_host_storage d
    /\ latest_running_job d' = latest_running_job d
    /\ worker_records d' = worker_records d
    /\ setting_up d' = setting_up d.
Proof.
  induction hosts as [|h hosts IH]; intros d d'; cbn [reap_all].
  - intros [= <-]. split; [| repeat split].
    intros host. rewrite bool_decide_eq_false_2; [reflexivity | apply not_elem_of_nil].
  - destruct (reap get_jobs_at w h (host_storage d)) as [storage|e] eqn:Hreap;
      [| discriminate].
    intros Hrest. apply IH in Hrest.
    destruct Hrest as (Hlookup & Hstatic & Hlatest & Hrecords & Hsetting).
    cbn in Hstatic, Hlatest, Hrecords, Hsetting.
    split; [| repeat split; assumption].
    intros host. rewrite Hlookup. cbn [host_storage with_host_storage].
    assert (Hstorage : storage = delete h (host_storage d)).
    { unfold reap in Hreap.
      destruct (_try_kill_invalid_host_jobs get_jobs_at w h); [| discriminate].
      destruct (delete_host w h true); [| discriminate].
      destruct (remove_from_hosts w h); [| discriminate].
      cbn [bind] in Hreap. unfold remove_host in Hreap.
      destruct (host_storage d !! h); [| discriminate]. congruence. }
    subst storage.
    destruct (decide (h = host)) as [->|Hne].
    + rewrite (bool_decide_eq_true_2 (host ∈ host :: hosts)) by apply list_elem_of_here.
      rewrite lookup_delete_eq. now destruct (bool_decide (host ∈ hosts)).
    + rewrite lookup_delete_ne by assumption.
      rewrite (bool_decide_ext (host ∈ h :: hosts) (host ∈ hosts)); [reflexivity |].
      rewrite elem_of_cons.
      split; [intros [?|?]; [congruence | assumption] | intros ?; now right].
Qed.

(** X10. When the worker validator ends without an exception, it has
    removed from the storage exactly the stored hosts that are invalid (not
    a valid execution host, or with a run that is not running); every
    other host keeps its time stamp, and nothing else of the daemon
    changes. *)
Theorem validate_removes_the_invalid_hosts
    (get_jobs_at : call_site -> result (list job)) (w : world) (d d' : daemon)
    (Hdone : validate get_jobs_at w d = (Ok tt, d')) :
  (forall host,
     host_storage d' !! host
     = match is_invalid_host w host with
       | Ok true => None
       | _ => host_storage d !! host
       end)
  /\ static_host_storage d' = static_host_storage d
  /\ latest_running_job d' = latest_running_job d
  /\ worker_records d' = worker_records d.
Proof.
  unfold validate in Hdone.
  destruct (load_hosts (host_storage d)) as [|h0 hosts0] eqn:Hhosts.
  - injection Hdone as <-. split; [| repeat split].
    intros host.
    assert (Hnone : host_storage d !! host = None).
    { destruct (host_storage d !! host) as [t|] eqn:Hlookup; [| reflexivity].
      apply elem_of_map_to_list in Hlookup.
      assert (Hin : host ∈ load_hosts (host_storage d)).
      { unfold load_hosts. apply list_elem_of_fmap. now exists (host, t). }
      rewrite Hhosts in Hin. now apply not_elem_of_nil in Hin. }
    rewrite Hnone. now destruct (is_invalid_host w host) as [[]|].
  - rewrite <- Hhosts in Hdone.
    destruct (invalid_hosts w (load_hosts (host_storage d))) as [invalid|e] eqn:Hinvalid;
      [| discriminate].
    destruct (invalid_hosts_filter w _ _ Hinvalid) as [Hall Hiff].
    destruct (reap_all_lookup get_jobs_at w invalid d d' Hdone)
      as (Hlookup & Hstatic & Hlatest & Hrecords & _).
    split; [| repeat split; assumption].
    intros host. rewrite Hlookup.
    destruct (host_storage d !! host) as [t|] eqn:Hstored.
    + assert (Hin : host ∈ load_hosts (host_storage d)).
      { unfold load_hosts. apply list_elem_of_fmap. exists (host, t).
        split; [reflexivity | now apply elem_of_map_to_list]. }
      rewrite Forall_forall in Hall. destruct (Hall host Hin) as [b Hb].
      rewrite Hb. destruct b.
      * rewrite bool_decide_eq_true_2; [reflexivity | apply Hiff; now split].
      * rewrite bool_decide_eq_false_2; [reflexivity |].
        intros Hinv. apply Hiff in Hinv. destruct Hinv as [_ Hinv]. congruence.
    + destruct (bool_decide (host ∈ invalid)); now destruct (is_invalid_host w host) as [[]|].
Qed.

Lemma validate_removes_the_invalid_hosts_witness :
  let w := troubled_world (timedelta 600) in
  let d := example_daemon {[ "pipeline-98"%string := timedelta 500;
                             "pipeline-99"%string := timedelta 500 ]} in
  let d' := snd (validate (fun _ => Ok []) w d) in
  host_storage d' !! "pipeline-98"%string = None
  /\ host_storage d' !! "pipeline-99"%string = Some (timedelta 500).
Proof.
  intros w d d'.
  assert (Hdone : validate (fun _ => Ok []) w d = (Ok tt, d'))
    by (vm_compute; reflexivity).
  destruct (validate_removes_the_invalid_hosts (fun _ => Ok []) w d d' Hdone)
    as (Hlookup & _).
  split; rewrite Hlookup; reflexivity.
Defined.

(** ** Scaling down *)

Section ScaleDownFacts.

Variable settings_ : settings.
Variable get_jobs_at : call_site -> result (list job).
Variable w : world.

Lemma scale_down_all_lookup (hosts : list string) :
  forall (d : daemon) (host : string),
    let d' := snd (scale_down_all get_jobs_at w hosts d) in
    host_storage d' !! host = host_storage d !! host
    \/ (In host hosts /\ scale_down_handler get_jobs_at w host = Ok true
        /\ host_storage d' !! host = None).
Proof.
  induction hosts as [|h hosts IH]; intros d host; cbn [scale_down_all].
  - now left.
  - destruct (scale_down_handler get_jobs_at w h) as [[|]|e] eqn:Hhandler.
    + unfold remove_host. destruct (host_storage d !! h) as [t|] eqn:Hh.
      * destruct (IH (with_host_storage (delete h (host_storage d)) d) host)
          as [Hsame|(Hin & Hok & Hnone)].
        -- cbn [host_storage with_host_storage] in Hsame.
           destruct (decide (h = host)) as [->|Hne].
           ++ right. split; [now left |]. split; [assumption |].
              cbn zeta. rewrite Hsame. apply lookup_delete_eq.
           ++ left. cbn zeta. rewrite Hsame. now apply lookup_delete_ne.
        -- right. split; [now right |]. now split.
      * now left.
    + destruct (IH d host) as [Hsame|(Hin & Hok & Hnone)].
      * now left.
      * right. split; [now right |]. now split.
    + now left.
Qed.

Lemma scale_down_all_removes_at_most (hosts : list string) :
  forall d : daemon,
    (size (host_storage d)
     <= size (host_storage (snd (scale_down_all get_jobs_at w hosts d)))
        + length hosts)%nat.
Proof.
  induction hosts as [|h hosts IH]; intros d; cbn [scale_down_all length].
  - cbn. lia.
  - destruct (scale_down_handler get_jobs_at w h) as [[|]|e].
    + unfold remove_host. destruct (host_storage d !! h) as [t|] eqn:Hh.
      * specialize (IH (with_host_storage (delete h (host_storage d)) d)).
        cbn [host_storage with_host_storage] in IH.
        pose proof (map_size_delete h (host_storage d)) as Hsize.
        rewrite Hh in Hsize. cbn in Hsize. lia.
      * cbn. lia.
    + specialize (IH d). lia.
    + cbn. lia.
Qed.

Lemma mapM_keyed {A B : Type} (f : A -> result B) (l : list A) (keyed : list (A * B)) :
  mapM (fun a => do b <- f a; Ok (a, b)) l = Ok keyed ->
  map fst keyed = l.
Proof.
  revert keyed. induction l as [|a l IH]; intros keyed; cbn [mapM].
  - now intros [= <-].
  - destruct (f a) as [b|e]; cbn [bind]; [| discriminate].
    destruct (mapM (fun a => do b <- f a; Ok (a, b)) l) as [rest|e]; cbn [bind];
      [| discriminate].
    intros [= <-]. cbn. f_equal. now apply IH.
Qed.

Lemma hosts_to_scale_down_batch (hosts batch : list string) :
  hosts_to_scale_down settings_ w hosts = Ok batch ->
  (forall host, In host batch -> In host hosts)
  /\ (Z.of_nat (length batch) <= Z.max 0 (scale_down_batch_size settings_)).
Proof.
  unfold hosts_to_scale_down.
  destruct (scale_down_batch_size settings_ <? 0) eqn:Hneg; [discriminate |].
  destruct (scale_down_batch_size settings_ =? 0) eqn:Hzero.
  - intros [= <-]. split; [intros host [] |]. cbn. lia.
  - destruct (mapM _ hosts) as [keyed|e] eqn:Hkeyed; cbn [bind]; [| discriminate].
    intros [= <-]. apply mapM_keyed in Hkeyed. split.
    + intros host Hin.
      apply list_elem_of_In, (subseteq_take _ _), list_elem_of_In in Hin.
      rewrite <- Hkeyed. apply in_map_iff in Hin.
      destruct Hin as (entry & <- & Hin). apply in_map.
      eapply Permutation_in; [apply sorted_perm | exact Hin].
    + rewrite length_firstn. apply Z.ltb_ge in Hneg. lia.
Qed.

Lemma get_hosts_activity_lookup {T : Type} (hosts : list string)
    (storage hosts_activity : gmap string T) :
  get_hosts_activity hosts storage = Ok hosts_activity ->
  forall host,
    hosts_activity !! host
    = if bool_decide (host ∈ hosts) then storage !! host else None.
Proof.
  revert hosts_activity.
  induction hosts as [|h hosts IH]; intros hosts_activity; cbn [get_hosts_activity].
  - intros [= <-] host. rewrite lookup_empty.
    rewrite bool_decide_eq_false_2; [reflexivity | apply not_elem_of_nil].
  - destruct (storage !! h) as [t|] eqn:Hh; [| discriminate].
    destruct (get_hosts_activity hosts storage) as [activity|e]; cbn [bind];
      [| discriminate].
    intros [= <-] host. destruct (decide (h = host)) as [->|Hne].
    + rewrite lookup_insert_eq.
      rewrite bool_decide_eq_true_2 by apply list_elem_of_here. now symmetry.
    + rewrite lookup_insert_ne by assumption. rewrite (IH activity eq_refl).
      rewrite (bool_decide_ext (host ∈ h :: hosts) (host ∈ hosts)); [reflexivity |].
      rewrite elem_of_cons.
      split; [intros [?|?]; [congruence | assumption] | intros ?; now right].
Qed.

Lemma filter_valid_idle_hosts_idle (candidates idle : list string) (start : Z)
    (d : daemon) :
  _filter_valid_idle_hosts settings_ candidates start d = Ok idle ->
  forall host, In host idle ->
    In host candidates
    /\ exists t, host_storage d !! host = Some t
                 /\ t + timedelta (idle_timeout settings_) <= start.
Proof.
  unfold _filter_valid_idle_hosts.
  destruct (get_hosts_activity candidates (host_storage d)) as [activity|e] eqn:Hactivity;
    cbn [bind]; [| discriminate].
  intros [= <-] host Hin.
  apply in_map_iff in Hin. destruct Hin as ([h t] & Heq & Hin). cbn in Heq. subst h.
  apply filter_In in Hin. destruct Hin as [Hin Hidle].
  apply list_elem_of_In, elem_of_map_to_list in Hin.
  rewrite (get_hosts_activity_lookup _ _ _ Hactivity) in Hin.
  destruct (bool_decide (host ∈ candidates)) eqn:Hcand; [| discriminate].
  apply bool_decide_eq_true_1, list_elem_of_In in Hcand.
  split; [assumption |]. exists t. split; [assumption |]. now apply Z.leb_le.
Qed.

(** X11. A host that [_scale_down] removes from the storage was one of the
    additional hosts, no running job of the autoscaler's listing runs on
    it, its last activity is older than [idle_timeout] when a scaling
    period is given, and the handler went through: disabled in its queue,
    the host had no job in the listing taken after that. *)
Theorem scale_down_removes_only_idle_hosts
    (running_jobs : list job) (additional_hosts : list string)
    (scaling_period_start : option Z) (d : daemon) (host : string) (t : Z)
    (Hbefore : host_storage d !! host = Some t)
    (Hafter : host_storage
                (snd (_scale_down settings_ get_jobs_at w running_jobs
                        additional_hosts scaling_period_start d)) !! host = None) :
  In host additional_hosts
  /\ (forall j, In j running_jobs -> ~ In host (GridEngineJob.hosts j))
  /\ (forall start, scaling_period_start = Some start ->
        t + timedelta (idle_timeout settings_) <= start)
  /\ scale_down_handler get_jobs_at w host = Ok true
  /\ (exists jobs, get_jobs_at (InScaleDownHandler host) = Ok jobs
                   /\ forall j, In j jobs -> ~ In host (GridEngineJob.hosts j)).
Proof.
  unfold _scale_down in Hafter.
  destruct (inactive_additional_hosts settings_ running_jobs additional_hosts
              scaling_period_start d) as [[|c candidates]|e] eqn:Hcandidates;
    cbn [snd] in Hafter; try congruence.
  unfold orchestrator_scale_down in Hafter.
  destruct (hosts_to_scale_down settings_ w (c :: candidates)) as [batch|e] eqn:Hbatch;
    cbn [snd] in Hafter; [| congruence].
  destruct (scale_down_all_lookup batch d host) as [Hsame|(Hin & Hhandler & _)];
    [cbn zeta in Hsame; congruence |].
  apply (proj1 (hosts_to_scale_down_batch _ _ Hbatch)) in Hin.
  assert (Hinactive :
            In host additional_hosts
            /\ (forall j, In j running_jobs -> ~ In host (GridEngineJob.hosts j))
            /\ (forall start, scaling_period_start = Some start ->
                  t + timedelta (idle_timeout settings_) <= start)).
  { unfold inactive_additional_hosts in Hcandidates.
    set (inactive := List.filter _ additional_hosts) in Hcandidates.
    assert (Hfilter : forall h, In h inactive ->
              In h additional_hosts
              /\ forall j, In j running_jobs -> ~ In h (GridEngineJob.hosts j)).
    { intros h Hh. apply filter_In in Hh. destruct Hh as [Hh Hactive].
      split; [assumption |]. intros j Hj Hon.
      apply negb_true_iff, bool_decide_eq_false_1 in Hactive. apply Hactive.
      apply list_elem_of_In, in_concat. exists (GridEngineJob.hosts j).
      split; [now apply in_map | assumption]. }
    destruct inactive as [|i0 inactive0] eqn:Hinactive.
    - injection Hcandidates as Heq. discriminate.
    - destruct scaling_period_start as [start|].
      + destruct (filter_valid_idle_hosts_idle _ _ _ _ Hcandidates host Hin)
          as (Hcand & t' & Ht' & Hidle).
        destruct (Hfilter host Hcand) as [Hadd Hrun].
        split; [assumption |]. split; [assumption |].
        intros start' [= <-]. congruence.
      + injection Hcandidates as -> ->.
        destruct (Hfilter host Hin) as [Hadd Hrun].
        split; [assumption |]. split; [assumption |]. discriminate. }
  destruct Hinactive as (Hadd & Hrun & Hidle).
  repeat (split; [assumption |]).
  unfold scale_down_handler in Hhandler.
  destruct (qmod_disable w host); cbn [bind] in Hhandler; [| discriminate].
  destruct (get_jobs_at (InScaleDownHandler host)) as [jobs|e]; cbn [bind] in Hhandler;
    [| discriminate].
  exists jobs. split; [reflexivity |]. intros j Hj Hon.
  destruct (List.filter (on_host host) jobs) as [|j0 l] eqn:Hfilter.
  - assert (Hjin : In j (List.filter (on_host host) jobs)).
    { apply filter_In. split; [assumption |].
      unfold on_host. apply bool_decide_eq_true_2. now apply list_elem_of_In. }
    rewrite Hfilter in Hjin. destruct Hjin.
  - destruct (qmod_enable w host); discriminate.
Qed.

(** X12. One call of [_scale_down] removes at most
    [scale_down_batch_size] hosts from the additional storage (none when the
    batch size is negative: [islice] raises), and leaves the static
    storage as it is. *)
Theorem scale_down_removes_a_batch_at_most
    (running_jobs : list job) (additional_hosts : list string)
    (scaling_period_start : option Z) (d : daemon) :
  let d' := snd (_scale_down settings_ get_jobs_at w running_jobs
                   additional_hosts scaling_period_start d) in
  Z.of_nat (size (host_storage d))
  <= Z.of_nat (size (host_storage d')) + Z.max 0 (scale_down_batch_size settings_)
  /\ static_host_storage d' = static_host_storage d.
Proof.
  cbn zeta. unfold _scale_down.
  destruct (inactive_additional_hosts settings_ running_jobs additional_hosts
              scaling_period_start d) as [[|c candidates]|e];
    cbn [snd]; try (split; [lia | reflexivity]).
  unfold orchestrator_scale_down.
  destruct (hosts_to_scale_down settings_ w (c :: candidates)) as [batch|e] eqn:Hbatch;
    cbn [snd]; [| split; [lia | reflexivity]].
  pose proof (scale_down_all_removes_at_most batch d) as Hsize.
  pose proof (proj2 (hosts_to_scale_down_batch _ _ Hbatch)) as Hlen.
  split; [lia |].
  clear. revert d. induction batch as [|h batch IH]; intros d; cbn [scale_down_all];
    [reflexivity |].
  destruct (scale_down_handler get_jobs_at w h) as [[|]|e]; try reflexivity.
  - destruct (remove_host h (host_storage d)); [| reflexivity].
    now rewrite IH.
  - apply IH.
Qed.

End ScaleDownFacts.

Lemma scale_down_removes_only_idle_hosts_witness :
  let settings_ := example_settings 2 in
  let w := calm_world (timedelta 60) example_instances in
  let d := example_daemon {[ "pipeline-99"%string := 0 ]} in
  host_storage (snd (_scale_down settings_ (fun _ => Ok []) w []
                       ["pipeline-99"%string] (Some (timedelta 60)) d))
    !! "pipeline-99"%string = None
  /\ 0 + timedelta (idle_timeout settings_) <= timedelta 60
  /\ scale_down_handler (fun _ => Ok []) w "pipeline-99" = Ok true.
Proof.
  intros settings_ w d.
  assert (Hafter : host_storage
                     (snd (_scale_down settings_ (fun _ => Ok []) w []
                             ["pipeline-99"%string] (Some (timedelta 60)) d))
                     !! "pipeline-99"%string = None)
    by (vm_compute; reflexivity).
  split; [exact Hafter |].
  destruct (scale_down_removes_only_idle_hosts settings_ (fun _ => Ok []) w []
              ["pipeline-99"%string] (Some (timedelta 60)) d "pipeline-99" 0
              eq_refl Hafter)
    as (_ & _ & Hidle & Hhandler & _).
  split; [exact (Hidle _ eq_refl) | exact Hhandler].
Defined.

(** ** Autoscaling switched off *)

(** X13. With [max_additional_hosts = 0], [scale] only stamps the hosts of
    the running jobs: both storages keep their hosts, no worker is
    launched or recorded, and a host of the additional storage keeps its
    last activity unless a running job of the listing is on it, in which
    case it gets the time of the call. *)
Theorem disabled_autoscaling_scales_nothing (settings_ : settings)
    (get_jobs_at : call_site -> result (list job)) (w : world) (d : daemon)
    (Hdisabled : max_additional_hosts settings_ = 0) :
  let d' := snd (scale settings_ get_jobs_at w d) in
  dom (host_storage d') = dom (host_storage d)
  /\ dom (static_host_storage d') = dom (static_host_storage d)
  /\ worker_records d' = worker_records d
  /\ setting_up d' = setting_up d
  /\ forall host,
       host_storage d' !! host = host_storage d !! host
       \/ exists updated_jobs j,
            get_jobs_at InAutoscaler = Ok updated_jobs
            /\ In j updated_jobs
            /\ GridEngineJob.state j = RUNNING
            /\ In host (GridEngineJob.hosts j)
            /\ is_Some (host_storage d !! host)
            /\ host_storage d' !! host = Some (now w).
Proof.
  cbn zeta. unfold scale.
  destruct (get_jobs_at InAutoscaler) as [updated_jobs|e];
    [| repeat split; now left].
  unfold scale_jobs. rewrite Hdisabled. cbn [Z.eqb fst snd].
  destruct (List.filter is_running_job updated_jobs) as [|j0 running_jobs]
    eqn:Hrunning; [repeat split; now left |].
  cbn [host_storage static_host_storage worker_records setting_up with_running_jobs].
  rewrite !update_running_jobs_host_activity_dom. repeat split.
  intros host. rewrite update_running_jobs_host_activity_lookup.
  destruct (host_storage d !! host) as [t|] eqn:Hstored; [| now left].
  destruct (bool_decide_reflect
              (host ∈ concat (map GridEngineJob.hosts (j0 :: running_jobs))))
    as [Hactive|Hidle]; [right | now left].
  apply list_elem_of_In, in_concat in Hactive.
  destruct Hactive as (hosts & Hhosts & Hhost).
  apply in_map_iff in Hhosts. destruct Hhosts as (j & <- & Hj).
  rewrite <- Hrunning in Hj. apply filter_In in Hj. destruct Hj as [Hj Hstate].
  exists updated_jobs, j. repeat split; try assumption; [| eauto].
  unfold is_running_job in Hstate.
  now destruct (GridEngineJob.state j).
Qed.

(** The host [pipeline-99] runs a job, the host [pipeline-98] does not. *)
Lemma disabled_autoscaling_scales_nothing_witness :
  let settings_ := example_settings 0 in
  let w := calm_world (timedelta 60) example_instances in
  let get_jobs_at := fun _ : call_site =>
    Ok [example_job PENDING []; example_job RUNNING ["pipeline-99"%string]] in
  let d := example_daemon {[ "pipeline-98"%string := 0;
                             "pipeline-99"%string := 0 ]} in
  let d' := snd (scale settings_ get_jobs_at w d) in
  dom (host_storage d') = dom (host_storage d)
  /\ worker_records d' = []
  /\ host_storage d' !! "pipeline-98"%string = Some 0
  /\ host_storage d' !! "pipeline-99"%string = Some (timedelta 60).
Proof.
  intros settings_ w get_jobs_at d d'.
  destruct (disabled_autoscaling_scales_nothing settings_ get_jobs_at w d eq_refl)
    as (Hdom & _ & Hrecords & _ & _).
  split; [exact Hdom |]. split; [exact Hrecords |].
  split; vm_compute; reflexivity.
Defined.

(** ** Deleting a host from the Grid Engine *)

(** X14. When the commands of [delete_host] fail only with exceptions that
    derive from [RuntimeError] (as [ExecutionError] does):
    with [skip_on_failure] all five steps are gone through and nothing is
    raised; without it, [delete_host] succeeds exactly when every command
    does, and raises [RuntimeError] as soon as one fails. *)
Theorem delete_host_skips_failures (w : world) (host : string)
    (Hruntime : forall command e,
       qconf_host w command host = Raise e -> is_runtime_error e = true) :
  delete_host w host true = Ok tt
  /\ (delete_host w host false = Raise RuntimeError
      <-> exists command e, qconf_host w command host = Raise e)
  /\ (delete_host w host false = Ok tt
      <-> forall command, qconf_host w command host = Ok tt).
Proof.
  unfold delete_host, _perform_command.
  destruct (qconf_host w ShutdownExecutionHost host) as [[]|e1] eqn:E1;
    [| rewrite (Hruntime _ _ E1)];
  (destruct (qconf_host w RemoveHostFromQueueSettings host) as [[]|e2] eqn:E2;
    [| rewrite (Hruntime _ _ E2)]);
  (destruct (qconf_host w RemoveHostFromHostGroup host) as [[]|e3] eqn:E3;
    [| rewrite (Hruntime _ _ E3)]);
  (destruct (qconf_host w RemoveHostFromAdministrativeHosts host) as [[]|e4] eqn:E4;
    [| rewrite (Hruntime _ _ E4)]);
  (destruct (qconf_host w RemoveHostFromGridEngine host) as [[]|e5] eqn:E5;
    [| rewrite (Hruntime _ _ E5)]);
  cbn [bind];
  (split; [reflexivity |]);
  (split; split);
  solve
    [ discriminate
    | reflexivity
    | intros _; do 2 eexists; eassumption
    | intros _ command; destruct command; assumption
    | intros (command & e & Hfail); destruct command; congruence
    | intros Hall;
      first [ pose proof (Hall ShutdownExecutionHost); congruence
            | pose proof (Hall RemoveHostFromQueueSettings); congruence
            | pose proof (Hall RemoveHostFromHostGroup); congruence
            | pose proof (Hall RemoveHostFromAdministrativeHosts); congruence
            | pose proof (Hall RemoveHostFromGridEngine); congruence ] ].
Qed.

Lemma delete_host_skips_failures_witness :
  let w := troubled_world (timedelta 600) in
  delete_host w "pipeline-99" true = Ok tt
  /\ delete_host w "pipeline-99" false = Raise RuntimeError.
Proof.
  intros w.
  destruct (delete_host_skips_failures w "pipeline-99") as (Hskip & Hfail & _).
  - intros command e. destruct command; cbn; intros [= <-] || discriminate.
    reflexivity.
  - split; [exact Hskip |]. apply Hfail.
    exists RemoveHostFromHostGroup, ExecutionError. reflexivity.
Defined.

(** ** The instance providers *)

Lemma StronglySorted_weaken {A : Type} (P Q : A -> A -> Prop) (l : list A) :
  (forall a b, P a b -> Q a b) -> StronglySorted P l -> StronglySorted Q l.
Proof.
  intros Himpl. induction 1 as [|a l Hsorted IH Ha]; constructor; [assumption |].
  eapply Forall_impl; [exact Ha |]. intros b. apply Himpl.
Qed.

Lemma available_provide_subset (records : list worker_record)
    (unavailability_delay now : Z) (instances : list instance) (i : instance) :
  In i (AvailableInstanceProvider.provide records unavailability_delay now instances) ->
  In i instances.
Proof.
  unfold AvailableInstanceProvider.provide.
  destruct (AvailableInstanceProvider._get_available records unavailability_delay
              now instances) as [|a l] eqn:Havailable; [trivial |].
  rewrite <- Havailable. unfold AvailableInstanceProvider._get_available.
  intros Hin. now apply filter_In in Hin.
Qed.

Lemma available_provide_nonempty (records : list worker_record)
    (unavailability_delay now : Z) (instances : list instance) :
  AvailableInstanceProvider.provide records unavailability_delay now instances = [] ->
  instances = [].
Proof.
  unfold AvailableInstanceProvider.provide.
  destruct (AvailableInstanceProvider._get_available records unavailability_delay
              now instances); [trivial | discriminate].
Qed.

(** X15. Whatever providers are stacked on the one that asks the API, what
    [provide] returns holds only instances that the API allows: a provider
    filters, sorts, or falls back on what it was given, and never raises
    by itself; an exception of the API call goes through unchanged. *)
Theorem providers_only_narrow (provider : GridEngineInstanceProvider)
    (records : list worker_record) (now : Z) (instances : list instance) (e : exn) :
  (exists provided,
     provide (Ok instances) records now provider = Ok provided
     /\ forall i, In i provided -> In i instances)
  /\ provide (Raise e) records now provider = Raise e.
Proof.
  induction provider as [|inner IH instance_type|inner IH family|inner IH cores
                         |inner IH delay|inner IH];
    cbn [provide].
  - split; [exists instances; split; [reflexivity | trivial] | reflexivity].
  - destruct IH as [(provided & -> & Hsub) ->]. cbn [bind].
    split; [| reflexivity]. eexists. split; [reflexivity |].
    intros i Hin. apply filter_In in Hin. now apply Hsub.
  - destruct IH as [(provided & -> & Hsub) ->]. cbn [bind].
    split; [| reflexivity]. eexists. split; [reflexivity |].
    intros i Hin. unfold sorted_by_key in Hin.
    eapply Permutation_in in Hin; [| apply sorted_perm].
    apply filter_In in Hin. now apply Hsub.
  - destruct IH as [(provided & -> & Hsub) ->]. cbn [bind].
    split; [| reflexivity]. eexists. split; [reflexivity |].
    intros i Hin. apply filter_In in Hin. now apply Hsub.
  - destruct IH as [(provided & -> & Hsub) ->]. cbn [bind].
    split; [| reflexivity]. eexists. split; [reflexivity |].
    intros i Hin. apply available_provide_subset in Hin. now apply Hsub.
  - destruct IH as [(provided & -> & Hsub) ->]. cbn [bind].
    split; [| reflexivity]. eexists. split; [reflexivity |].
    intros i Hin. unfold sorted_by_key_reverse in Hin.
    eapply Permutation_in in Hin; [| apply sorted_perm]. now apply Hsub.
Qed.


(** X16. The provider that [main] assembles for the descending autoscaling
    gives the allowed instances of the family that have at most the cores
    of the configured type, the biggest first; less those that the
    availability filter drops, which never drops them all: the list is
    empty only when no allowed instance of the family is small enough. *)
Theorem descending_autoscale_instances (family : string -> bool)
    (cores delay : Z) (records : list worker_record) (now : Z)
    (instances : list instance)
    (Hcores : cores <> 0) :
  exists provided,
    provide (Ok instances) records now
      (descending_autoscale_provider family cores delay) = Ok provided
    /\ StronglySorted (fun a b => Instance.cpu b <= Instance.cpu a) provided
    /\ (forall i, In i provided ->
          In i instances /\ family (Instance.name i) = true
          /\ Instance.cpu i <= cores)
    /\ (provided = []
        <-> forall i, In i instances -> family (Instance.name i) = true ->
              cores < Instance.cpu i).
Proof.
  unfold descending_autoscale_provider.
  apply Z.eqb_neq in Hcores. rewrite Hcores.
  set (within :=
         List.filter (fun i => Instance.cpu i <=? cores)
           (sorted_by_key Instance.cpu
              (List.filter (fun i => family (Instance.name i)) instances))).
  assert (Hwithin : forall i, In i within <->
            In i instances /\ family (Instance.name i) = true
            /\ Instance.cpu i <= cores).
  { intros i. unfold within. rewrite filter_In. unfold sorted_by_key.
    rewrite Z.leb_le. split.
    - intros [Hin Hle]. eapply Permutation_in in Hin; [| apply sorted_perm].
      apply filter_In in Hin. tauto.
    - intros (Hin & Hfamily & Hle). split; [| assumption].
      eapply Permutation_in; [symmetry; apply sorted_perm |].
      apply filter_In. now split. }
  assert (Hempty : within = [] <->
            forall i, In i instances -> family (Instance.name i) = true ->
              cores < Instance.cpu i).
  { split.
    - intros Hnil i Hin Hfamily.
      destruct (Z.lt_ge_cases cores (Instance.cpu i)) as [|Hle]; [assumption |].
      assert (Hi : In i within) by (apply Hwithin; repeat split; assumption).
      rewrite Hnil in Hi. destruct Hi.
    - intros Hall. destruct within as [|i l] eqn:Hw; [reflexivity |].
      assert (Hi : In i (i :: l)) by now left.
      apply Hwithin in Hi. destruct Hi as (Hin & Hfamily & Hle).
      specialize (Hall i Hin Hfamily). lia. }
  set (chosen := if delay =? 0 then within
                 else AvailableInstanceProvider.provide records delay now within).
  assert (Hchosen : (forall i, In i chosen -> In i within)
                    /\ (chosen = [] -> within = [])).
  { unfold chosen. destruct (delay =? 0); [split; trivial |]. split.
    - intros i. apply available_provide_subset.
    - apply available_provide_nonempty. }
  exists (sorted_by_key_reverse Instance.cpu chosen).
  split; [| split; [| split]].
  - unfold chosen, within. destruct (delay =? 0); reflexivity.
  - unfold sorted_by_key_reverse.
    eapply StronglySorted_weaken; [| apply sorted_sorted].
    + intros a b Hle. cbn in Hle. apply Z.leb_le. exact Hle.
    + intros a b Hab. apply Z.leb_gt in Hab. apply Z.leb_le. lia.
    + intros a b c Hab Hbc. apply Z.leb_le in Hab, Hbc. apply Z.leb_le. lia.
  - intros i Hin. unfold sorted_by_key_reverse in Hin.
    eapply Permutation_in in Hin; [| apply sorted_perm].
    apply Hwithin. now apply (proj1 Hchosen).
  - rewrite <- Hempty. split.
    + intros Hnil. apply (proj2 Hchosen).
      destruct chosen as [|c l]; [reflexivity |].
      apply (f_equal (@length _)) in Hnil. unfold sorted_by_key_reverse in Hnil.
      rewrite sorted_length in Hnil. discriminate.
    + intros Hnil. unfold chosen. rewrite Hnil.
      destruct (delay =? 0); reflexivity.
Qed.

Lemma descending_autoscale_instances_witness :
  provide (Ok example_instances) [] 0
    (descending_autoscale_provider (fun _ => true) 4 1800)
  = Ok [Instance.make "B" "spot" 4 0 16; Instance.make "A" "spot" 2 0 8].
Proof.
  destruct (descending_autoscale_instances (fun _ => true) 4 1800 [] 0
              example_instances ltac:(discriminate))
    as (provided & Hprovide & _).
  rewrite Hprovide. vm_compute in Hprovide. now injection Hprovide as <-.
Defined.

(** ** The waits of the scale-up handler *)

Section PollLoop.

Context {A : Type} (body : nat -> poll A).

Lemma poll_loop_run (n : nat) :
  forall attempts polls,
    Z.to_nat attempts = n ->
    exists res p,
      (forall fuel, (n < fuel)%nat ->
         poll_loop fuel body attempts polls = Some (res, p))
      /\ (p <= polls + n)%nat
      /\ ((forall k, (k < n)%nat -> body (polls + k)%nat = Again) ->
          res = Raise ScalingError /\ p = (polls + n)%nat)
      /\ (forall k r,
            (k < n)%nat ->
            (forall j, (j < k)%nat -> body (polls + j)%nat = Again) ->
            body (polls + k)%nat = Done r ->
            res = r /\ p = S (polls + k)).
Proof.
  induction n as [|n IH]; intros attempts polls Hn.
  - exists (Raise ScalingError), polls. split; [| split; [lia | split]].
    + intros [|fuel] Hfuel; [lia |]. cbn [poll_loop].
      replace (0 <? attempts) with false by (symmetry; apply Z.ltb_ge; lia).
      reflexivity.
    + intros _. split; [reflexivity | lia].
    + intros k r Hk. lia.
  - assert (Hpos : (0 <? attempts) = true) by (apply Z.ltb_lt; lia).
    destruct (body polls) as [r|] eqn:Hbody.
    + exists r, (S polls). split; [| split; [lia | split]].
      * intros [|fuel] Hfuel; [lia |]. cbn [poll_loop]. now rewrite Hpos, Hbody.
      * intros Hall. specialize (Hall 0%nat ltac:(lia)).
        rewrite Nat.add_0_r in Hall. congruence.
      * intros k r' Hk Hbefore Hdone. destruct k as [|k].
        -- rewrite Nat.add_0_r in Hdone. split; [congruence | lia].
        -- specialize (Hbefore 0%nat ltac:(lia)).
           rewrite Nat.add_0_r in Hbefore. congruence.
    + destruct (IH (attempts - 1) (S polls) ltac:(lia))
        as (res & p & Hrun & Hp & Hall & Hfirst).
      exists res, p. split; [| split; [lia | split]].
      * intros [|fuel] Hfuel; [lia |]. cbn [poll_loop]. rewrite Hpos, Hbody.
        apply Hrun. lia.
      * intros Hagain. destruct Hall as [-> ->]; [| split; [reflexivity | lia]].
        intros k Hk. specialize (Hagain (S k) ltac:(lia)).
        now replace (S polls + k)%nat with (polls + S k)%nat by lia.
      * intros k r Hk Hbefore Hdone. destruct k as [|k].
        -- rewrite Nat.add_0_r in Hdone. congruence.
        -- replace (polls + S k)%nat with (S polls + k)%nat in * by lia.
           destruct (Hfirst k r) as [-> ->]; [lia | | assumption | split; [reflexivity | lia]].
           intros j Hj. specialize (Hbefore (S j) ltac:(lia)).
           now replace (polls + S j)%nat with (S polls + j)%nat in Hbefore by lia.
Qed.

End PollLoop.

(** X17. [_await_worker_initialization] always ends, after at most
    [polling_timeout / polling_delay] requests for the run (none when this
    quotient is not positive): with [ScalingError] when the attempts are
    used up or a reply shows a status other than RUNNING, and normally as
    soon as a reply shows the run initialized and a task [SGEWorkerSetup]
    with the status SUCCESS. *)
Theorem await_worker_initialization_ends (polling_timeout polling_delay : Z)
    (load_run : nat -> result worker_run)
    (load_task : nat -> result (list (option string))) :
  let attempts :=
    Z.to_nat (GridEngineScaleUpHandler.attempts_of polling_timeout polling_delay) in
  let round k := worker_initialization_round (load_run k) (load_task k) in
  exists res polls,
    (forall fuel, (attempts < fuel)%nat ->
       _await_worker_initialization fuel polling_timeout polling_delay
         load_run load_task = Some (res, polls))
    /\ (polls <= attempts)%nat
    /\ ((forall k, (k < attempts)%nat -> round k = Again) ->
        res = Raise ScalingError /\ polls = attempts)
    /\ (forall k r,
          (k < attempts)%nat ->
          (forall j, (j < k)%nat -> round j = Again) ->
          load_run k = Ok r ->
          (forall status, worker_status r = Some status -> status <> "RUNNING"%string ->
             res = Raise ScalingError /\ polls = S k)
          /\ (forall tasks,
                (worker_status r = None \/ worker_status r = Some "RUNNING"%string) ->
                worker_initialized r = Some true ->
                load_task k = Ok tasks -> In (Some "SUCCESS"%string) tasks ->
                res = Ok tt /\ polls = S k)).
Proof.
  intros attempts round.
  destruct (poll_loop_run round attempts
              (GridEngineScaleUpHandler.attempts_of polling_timeout polling_delay)
              0%nat eq_refl)
    as (res & polls & Hrun & Hpolls & Hall & Hfirst).
  exists res, polls. split; [exact Hrun |]. split; [lia |]. split.
  - intros Hagain. destruct Hall as [-> ->]; [| split; reflexivity].
    intros k Hk. now apply Hagain.
  - intros k r Hk Hbefore Hreply. split.
    + intros status Hstatus Hne.
      apply (Hfirst k (Raise ScalingError) Hk Hbefore).
      cbn. unfold round, worker_initialization_round. rewrite Hreply, Hstatus.
      now replace (String.eqb status "RUNNING") with false
        by (symmetry; apply String.eqb_neq; exact Hne).
    + intros tasks Hstatus Hinit Htasks Hsuccess.
      apply (Hfirst k (Ok tt) Hk Hbefore).
      cbn. unfold round, worker_initialization_round. rewrite Hreply, Hinit, Htasks.
      assert (Hrunning :
                match worker_status r with
                | None => false
                | Some status => negb (String.eqb status "RUNNING")
                end = false)
        by (destruct Hstatus as [->| ->]; reflexivity).
      rewrite Hrunning.
      assert (Hexists : existsb (fun status => bool_decide (status = Some "SUCCESS"%string))
                          tasks = true).
      { apply existsb_exists. exists (Some "SUCCESS"%string).
        split; [assumption | now apply bool_decide_eq_true_2]. }
      now rewrite Hexists.
Qed.

(** X18. [_enable_worker_in_grid_engine] always ends, after at most
    [ge_polling_timeout / polling_delay] tries.  Every exception of a try
    is caught: the call returns at the first try in which the host is
    enabled and its activity stamped, and raises [ScalingError], and
    nothing else, when no try succeeds. *)
Theorem enable_worker_in_grid_engine_ends (ge_polling_timeout polling_delay : Z)
    (enable_host stamp : nat -> result unit) :
  let attempts :=
    Z.to_nat (if polling_delay =? 0 then _GE_POLL_ATTEMPTS
              else ge_polling_timeout / polling_delay) in
  let succeeds k := enable_host k = Ok tt /\ stamp k = Ok tt in
  exists res tries,
    (forall fuel, (attempts < fuel)%nat ->
       _enable_worker_in_grid_engine fuel ge_polling_timeout polling_delay
         enable_host stamp = Some (res, tries))
    /\ (tries <= attempts)%nat
    /\ (res = Ok tt \/ res = Raise ScalingError)
    /\ (res = Ok tt <-> exists k, (k < attempts)%nat /\ succeeds k)
    /\ (forall k, (k < attempts)%nat -> succeeds k ->
          (forall j, (j < k)%nat -> ~ succeeds j) -> tries = S k).
Proof.
  intros attempts succeeds.
  set (round := fun k => enable_round (enable_host k) (stamp k)).
  assert (Hround : forall k, (round k = Done (Ok tt) /\ succeeds k)
                             \/ (round k = Again /\ ~ succeeds k)).
  { intros k. unfold round, enable_round, succeeds.
    destruct (enable_host k) as [[]|e]; cbn [bind].
    - destruct (stamp k) as [[]|e]; [left; auto |].
      right. split; [reflexivity |]. intros [_ H]; discriminate.
    - right. split; [reflexivity |]. intros [H _]; discriminate. }
  destruct (poll_loop_run round attempts
              (if polling_delay =? 0 then _GE_POLL_ATTEMPTS
               else ge_polling_timeout / polling_delay) 0%nat eq_refl)
    as (res & tries & Hrun & Htries & Hall & Hfirst).
  exists res, tries. split; [exact Hrun |]. split; [lia |].
  (* the first round that succeeds, if any *)
  assert (Hsearch : forall n, (n <= attempts)%nat ->
            (forall k, (k < n)%nat -> round k = Again)
            \/ exists k, (k < n)%nat /\ round k = Done (Ok tt)
                         /\ forall j, (j < k)%nat -> round j = Again).
  { induction n as [|n IHn]; intros Hn.
    - left. intros k Hk. lia.
    - destruct (IHn ltac:(lia)) as [Hnone|(k & Hk & Hdone & Hbefore)].
      + destruct (Hround n) as [[Hdone _]|[Hagain _]].
        * right. exists n. split; [lia |]. split; [assumption |]. exact Hnone.
        * left. intros k Hk. destruct (decide (k = n)) as [->|]; [assumption |].
          apply Hnone. lia.
      + right. exists k. split; [lia |]. now split. }
  destruct (Hsearch attempts (le_n _)) as [Hnone|(k & Hk & Hdone & Hbefore)].
  - destruct Hall as [-> ->]; [exact Hnone |].
    split; [now right |]. split.
    + split; [discriminate |]. intros (k & Hk & Hsucceeds).
      destruct (Hround k) as [[_ _]|[_ Hnot]]; [| contradiction].
      specialize (Hnone k Hk). destruct (Hround k) as [[Hd _]|[_ Hn]]; congruence.
    + intros k Hk Hsucceeds _.
      specialize (Hnone k Hk). destruct (Hround k) as [[Hd _]|[_ Hn]];
        [congruence | contradiction].
  - destruct (Hfirst k (Ok tt) Hk Hbefore Hdone) as [-> ->].
    split; [now left |]. split.
    + split; [| reflexivity]. intros _. exists k. split; [assumption |].
      destruct (Hround k) as [[_ Hs]|[Ha _]]; [assumption | congruence].
    + intros k' Hk' Hsucceeds Hfirst'.
      destruct (Nat.lt_trichotomy k k') as [Hlt|[->|Hgt]]; [| reflexivity |].
      * exfalso. apply (Hfirst' k Hlt).
        destruct (Hround k) as [[_ Hs]|[Ha _]]; [assumption | congruence].
      * exfalso. specialize (Hbefore k' Hgt).
        destruct (Hround k') as [[Hd _]|[_ Hn]]; [congruence | contradiction].
Qed.

(** X19. The loop of [_await_pod_initialization] tests [attempts != 0]
    where the two other waits test [attempts > 0]: when
    [polling_timeout / polling_delay] is negative, and as long as the run
    is running without a [podIP], it never gives up. *)
Theorem await_pod_never_gives_up (polling_timeout polling_delay : Z)
    (load_run : nat -> result run)
    (Hdelay : polling_delay <> 0)
    (Hnegative : polling_timeout / polling_delay < 0)
    (Hpending : forall k, GridEngineScaleUpHandler.pending_reply (load_run k) = true) :
  forall fuel,
    GridEngineScaleUpHandler._await_pod_initialization fuel polling_timeout
      polling_delay load_run = None.
Proof.
  unfold GridEngineScaleUpHandler._await_pod_initialization,
    GridEngineScaleUpHandler.attempts_of.
  apply Z.eqb_neq in Hdelay. rewrite Hdelay.
  generalize 0%nat.
  revert Hnegative. generalize (polling_timeout / polling_delay). intros attempts Hneg.
  intros polls fuel. revert attempts Hneg polls.
  induction fuel as [|fuel IH]; intros attempts Hneg polls; [reflexivity |].
  rewrite await_loop_step.
  replace (attempts =? 0) with false by (symmetry; apply Z.eqb_neq; lia).
  destruct (pending_reply_inv _ (Hpending polls)) as (r & -> & -> & ->).
  apply IH. lia.
Qed.

Lemma await_pod_never_gives_up_witness :
  GridEngineScaleUpHandler._await_pod_initialization 1000 (-900) 10
    (fun _ => Ok {| run_status := Some "RUNNING"%string;
                    run_podId := Some "pipeline-101"%string;
                    run_podIP := None |})
  = None.
Proof.
  apply await_pod_never_gives_up.
  - discriminate.
  - reflexivity.
  - intros k. reflexivity.
Defined.

(** ** Requests to the API *)

Section ExecuteRequest.

Context {P : Type}.
Variable RESPONSE_STATUS_OK : string.
Variable get : nat -> result (api_response P).

Let outcome (k : nat) : result (option P) :=
  request_outcome RESPONSE_STATUS_OK (get k).

Lemma execute_request_loop_run (n : nat) :
  forall attempts count exceptions,
    Z.to_nat (attempts - Z.of_nat count) = n ->
    exists res sent,
      (forall fuel, (n < fuel)%nat ->
         execute_request_loop RESPONSE_STATUS_OK fuel get attempts count exceptions
         = Some (res, sent))
      /\ (sent <= count + n)%nat
      /\ (n = 0%nat ->
          sent = count
          /\ res = match last exceptions with
                   | Some e => Raise e
                   | None => Raise IndexError
                   end)
      /\ (forall m e,
            n = S m ->
            (forall k, (k < n)%nat -> exists e', outcome (count + k) = Raise e') ->
            outcome (count + m) = Raise e ->
            res = Raise e /\ sent = (count + n)%nat)
      /\ (forall k payload,
            (k < n)%nat ->
            (forall j, (j < k)%nat -> exists e, outcome (count + j) = Raise e) ->
            outcome (count + k) = Ok payload ->
            res = Ok payload /\ sent = S (count + k)).
Proof.
  induction n as [|n IH]; intros attempts count exceptions Hn.
  - eexists _, count. split; [| split; [lia | split; [| split]]].
    + intros [|fuel] Hfuel; [lia |]. cbn [execute_request_loop].
      replace (Z.of_nat count <? attempts) with false
        by (symmetry; apply Z.ltb_ge; lia).
      reflexivity.
    + intros _. split; reflexivity.
    + intros m e Hm. discriminate.
    + intros k payload Hk. lia.
  - assert (Hmore : (Z.of_nat count <? attempts) = true) by (apply Z.ltb_lt; lia).
    destruct (outcome count) as [payload|e] eqn:Houtcome.
    + exists (Ok payload), (S count). split; [| split; [lia | split; [| split]]].
      * intros [|fuel] Hfuel; [lia |]. cbn [execute_request_loop].
        rewrite Hmore. unfold outcome in Houtcome. now rewrite Houtcome.
      * discriminate.
      * intros m e _ Hall _. destruct (Hall 0%nat ltac:(lia)) as [e' He'].
        rewrite Nat.add_0_r in He'. congruence.
      * intros k payload' Hk Hbefore Hok. destruct k as [|k].
        -- rewrite Nat.add_0_r in Hok. split; [congruence | lia].
        -- destruct (Hbefore 0%nat ltac:(lia)) as [e He].
           rewrite Nat.add_0_r in He. congruence.
    + destruct (IH attempts (S count) (exceptions ++ [e]) ltac:(lia))
        as (res & sent & Hrun & Hsent & Hzero & Hall & Hfirst).
      exists res, sent. split; [| split; [lia | split; [| split]]].
      * intros [|fuel] Hfuel; [lia |]. cbn [execute_request_loop].
        rewrite Hmore. unfold outcome in Houtcome. rewrite Houtcome.
        apply Hrun. lia.
      * discriminate.
      * intros m e' [= <-] Hfail Hlast. destruct n as [|n'].
        -- destruct (Hzero eq_refl) as [-> ->]. rewrite last_snoc.
           rewrite Nat.add_0_r in Hlast. split; [congruence | lia].
        -- destruct (Hall n' e' eq_refl) as [-> ->]; [| | split; [reflexivity | lia]].
           ++ intros k Hk. destruct (Hfail (S k) ltac:(lia)) as [e'' He''].
              exists e''. now replace (S count + k)%nat with (count + S k)%nat by lia.
           ++ now replace (S count + n')%nat with (count + S n')%nat by lia.
      * intros k payload Hk Hbefore Hok. destruct k as [|k].
        -- rewrite Nat.add_0_r in Hok. congruence.
        -- replace (count + S k)%nat with (S count + k)%nat in * by lia.
           destruct (Hfirst k payload) as [-> ->];
             [lia | | assumption | split; [reflexivity | lia]].
           intros j Hj. destruct (Hbefore (S j) ltac:(lia)) as [e' He'].
           exists e'. now replace (S count + j)%nat with (count + S j)%nat by lia.
Qed.

(** X20. [_execute_request] sends at most [attempts] requests and always
    ends: it returns the payload of the first reply that is a 200 with the
    status OK, and raises the exception of the last request when all of
    them fail.  With [attempts <= 0] no request is sent and it raises
    [IndexError] ([exceptions[-1]] of an empty list). *)
Theorem execute_request_retries (attempts : Z) :
  let n := Z.to_nat attempts in
  exists res sent,
    (forall fuel, (n < fuel)%nat ->
       _execute_request RESPONSE_STATUS_OK fuel get attempts = Some (res, sent))
    /\ (sent <= n)%nat
    /\ (attempts <= 0 -> sent = 0%nat /\ res = Raise IndexError)
    /\ (forall k payload,
          (k < n)%nat ->
          (forall j, (j < k)%nat -> exists e, outcome j = Raise e) ->
          outcome k = Ok payload ->
          res = Ok payload /\ sent = S k)
    /\ (forall e,
          0 < attempts ->
          (forall k, (k < n)%nat -> exists e', outcome k = Raise e') ->
          outcome (n - 1) = Raise e ->
          res = Raise e /\ sent = n).
Proof.
  intros n.
  destruct (execute_request_loop_run n attempts 0%nat [])
    as (res & sent & Hrun & Hsent & Hzero & Hall & Hfirst);
    [subst n; lia |].
  exists res, sent. split; [exact Hrun |]. split; [lia |]. split; [| split].
  - intros Hnone. apply Hzero. subst n. lia.
  - intros k payload Hk Hbefore Hok. apply (Hfirst k payload Hk Hbefore Hok).
  - intros e Hpos Hfail Hlast.
    destruct n as [|m] eqn:Hn; [lia |].
    replace (S m - 1)%nat with m in Hlast by lia.
    destruct (Hall m e eq_refl Hfail Hlast) as [-> ->]. split; reflexivity.
Qed.

End ExecuteRequest.

(** ** The instance selector at large *)

Lemma total_cpu_app (a b : list resource) :
  total_cpu (a ++ b) = total_cpu a + total_cpu b.
Proof. induction a as [|d a IH]; cbn; [reflexivity | rewrite IH; lia]. Qed.

Lemma fold_add_cpu (demands : list resource) :
  forall total,
    ComputeResource.cpu (fold_left ComputeResource.add demands total)
    = ComputeResource.cpu total + total_cpu demands.
Proof.
  induction demands as [|d demands IH]; intros total; cbn [fold_left total_cpu].
  - lia.
  - rewrite IH. cbn. lia.
Qed.

Lemma total_cpu_nonneg (demands : list resource) :
  Forall (fun d => 0 <= ComputeResource.cpu d) demands -> 0 <= total_cpu demands.
Proof.
  induction 1 as [|d demands Hd _ IH]; cbn [total_cpu]; lia.
Qed.

(** [_apply] shares the cpu of the demands between what remains and what
    is fulfilled. *)
Lemma apply_loop_shares (demands : list resource) :
  Forall is_demand demands ->
  forall supply,
    0 <= ComputeResource.cpu supply ->
    exists remaining fulfilled,
      CpuCapacityInstanceSelector._apply_loop supply demands = Ok (remaining, fulfilled)
      /\ total_cpu remaining + total_cpu fulfilled = total_cpu demands
      /\ Forall is_demand remaining
      /\ Forall (fun d => 0 <= ComputeResource.cpu d) fulfilled
      /\ (length remaining <= length demands)%nat.
Proof.
  induction 1 as [|d demands [Hcpu Hcls] Hrest IH]; intros supply Hsupply.
  - exists [], []. cbn. repeat split; constructor.
  - cbn [CpuCapacityInstanceSelector._apply_loop].
    destruct (ComputeResource.bool supply) eqn:Htruthy; cbn [negb].
    2:{ exists (d :: demands), []. cbn [total_cpu length].
        repeat split; try lia; constructor; try assumption. now split. }
    cbn [ComputeResource.subtract].
    destruct (ComputeResource.cls d) eqn:Hclass; [| | congruence].
    + (* fractional *)
      match goal with
      | |- context [CpuCapacityInstanceSelector._apply_loop ?s demands] =>
          destruct (IH s) as (remaining & fulfilled & Hloop & Htotal & Hrem & Hful & Hlen);
            [cbn; lia |]
      end.
      rewrite Hloop. cbn [bind].
      eexists _, _. split; [reflexivity |].
      split; [| split; [| split]].
      * match goal with
        | |- context [if ComputeResource.bool ?x then _ else _] =>
            destruct (ComputeResource.bool x) eqn:Hunmet
        end;
          cbn [total_cpu]; unfold ComputeResource.sub;
          cbn [ComputeResource.cpu ComputeResource.subtract fst]; [lia |].
        unfold ComputeResource.bool in Hunmet.
        cbn [ComputeResource.cpu ComputeResource.gpu ComputeResource.mem] in Hunmet.
        apply Z.ltb_ge in Hunmet. lia.
      * match goal with
        | |- context [if ComputeResource.bool ?x then _ else _] =>
            destruct (ComputeResource.bool x)
        end; [| assumption].
        constructor; [| assumption]. split; cbn; [lia | discriminate].
      * constructor; [| assumption].
        unfold ComputeResource.sub.
        cbn [ComputeResource.cpu ComputeResource.subtract fst]. lia.
      * match goal with
        | |- context [if ComputeResource.bool ?x then _ else _] =>
            destruct (ComputeResource.bool x)
        end; cbn [length]; lia.
    + (* integral *)
      match goal with
      | |- context [if ComputeResource.bool ?x then _ else _] =>
          destruct (ComputeResource.bool x) eqn:Hunmet
      end.
      * destruct (IH supply Hsupply)
          as (remaining & fulfilled & Hloop & Htotal & Hrem & Hful & Hlen).
        rewrite Hloop. cbn [bind]. eexists _, _. split; [reflexivity |].
        cbn [total_cpu length].
        repeat split; try lia; try assumption.
        constructor; [| assumption]. split; [assumption | congruence].
      * match goal with
        | |- context [CpuCapacityInstanceSelector._apply_loop ?s demands] =>
            destruct (IH s) as (remaining & fulfilled & Hloop & Htotal & Hrem & Hful & Hlen);
              [cbn; lia |]
        end.
        rewrite Hloop. cbn [bind]. eexists _, _. split; [reflexivity |].
        cbn [total_cpu length].
        repeat split; try lia; try assumption.
        constructor; assumption.
Qed.

Lemma capacity_shares (reserved_supply : resource) (demands : list resource)
    (i : instance) :
  Forall is_demand demands ->
  exists remaining fulfilled,
    CpuCapacityInstanceSelector.capacity reserved_supply demands i
    = Ok (total_cpu fulfilled, (remaining, fulfilled))
    /\ total_cpu remaining + total_cpu fulfilled = total_cpu demands
    /\ Forall is_demand remaining
    /\ Forall (fun d => 0 <= ComputeResource.cpu d) fulfilled.
Proof.
  intros Hdemands. unfold CpuCapacityInstanceSelector.capacity,
    CpuCapacityInstanceSelector._apply.
  destruct (apply_loop_shares demands Hdemands
              (ComputeResource.sub (ResourceSupply_of i) reserved_supply))
    as (remaining & fulfilled & Hloop & Htotal & Hrem & Hful & _); [cbn; lia |].
  rewrite Hloop. cbn [bind]. exists remaining, fulfilled.
  rewrite fold_add_cpu. cbn. repeat split; assumption.
Qed.

Lemma best_loop_returns (reserved_supply : resource) (demands : list resource)
    (instances : list instance) :
  Forall is_demand demands ->
  forall b0, exists b,
    CpuCapacityInstanceSelector.best_loop reserved_supply demands b0 instances = Ok b.
Proof.
  intros Hdemands. induction instances as [|i instances IH]; intros b0.
  - now exists b0.
  - cbn [CpuCapacityInstanceSelector.best_loop].
    destruct (capacity_shares reserved_supply demands i Hdemands)
      as (remaining & fulfilled & -> & _). cbn [bind]. apply IH.
Qed.

(** The counter of [_resolve_owner] holds, for each owner, the cpu of its
    demands when it is positive. *)
Lemma owner_cpus_counter_lookup (demands : list resource) :
  Forall (fun d => 0 <= ComputeResource.cpu d) demands ->
  forall (acc : Counter.t) (sums : option string -> Z),
    (forall o, 0 <= sums o) ->
    (forall o, acc !! o = Counter.positive (sums o)) ->
    forall o,
      fold_left Counter.add
        (map (fun demand => {[ ComputeResource.owner demand := ComputeResource.cpu demand ]})
             demands) acc !! o
      = Counter.positive (sums o + owner_cpu o demands).
Proof.
  induction 1 as [|d demands Hd Hrest IH]; intros acc sums Hsums Hacc o;
    cbn [map fold_left].
  - unfold owner_cpu. cbn. rewrite Z.add_0_r. apply Hacc.
  - rewrite (IH _ (fun o => sums o
                            + if bool_decide (ComputeResource.owner d = o)
                              then ComputeResource.cpu d else 0)).
    + unfold owner_cpu. cbn [List.filter].
      destruct (bool_decide (ComputeResource.owner d = o)); cbn [total_cpu];
        f_equal; lia.
    + intros o'. specialize (Hsums o').
      destruct (bool_decide (ComputeResource.owner d = o')); lia.
    + intros o'. unfold Counter.add. rewrite lookup_merge, Hacc.
      specialize (Hsums o').
      destruct (decide (ComputeResource.owner d = o')) as [<-|Hne].
      * rewrite lookup_singleton_eq, bool_decide_eq_true_2 by reflexivity.
        unfold Counter.positive.
        destruct (Z.ltb_spec 0 (sums (ComputeResource.owner d))); cbn.
        -- reflexivity.
        -- now replace (sums (ComputeResource.owner d)) with 0 by lia.
      * rewrite lookup_singleton_ne by assumption.
        rewrite bool_decide_eq_false_2 by assumption. rewrite Z.add_0_r.
        unfold Counter.positive.
        destruct (Z.ltb_spec 0 (sums o')) as [Hpos|Hnot]; cbn; [| reflexivity].
        now apply Z.ltb_lt in Hpos as ->.
Qed.

Lemma owner_cpu_nonneg (o : option string) (demands : list resource) :
  Forall (fun d => 0 <= ComputeResource.cpu d) demands -> 0 <= owner_cpu o demands.
Proof.
  intros Hall. unfold owner_cpu. apply total_cpu_nonneg.
  apply Forall_forall. intros d Hin. apply list_elem_of_In, filter_In in Hin.
  rewrite Forall_forall in Hall. apply Hall, list_elem_of_In, Hin.
Qed.

Lemma positive_demand (demands : list resource) :
  Forall (fun d => 0 <= ComputeResource.cpu d) demands ->
  0 < total_cpu demands ->
  exists d, In d demands /\ 0 < owner_cpu (ComputeResource.owner d) demands.
Proof.
  induction 1 as [|d demands Hd Hrest IH]; cbn [total_cpu]; [lia |].
  intros Htotal.
  destruct (Z.lt_ge_cases 0 (ComputeResource.cpu d)) as [Hpos|Hzero].
  - exists d. split; [now left |]. unfold owner_cpu. cbn [List.filter].
    rewrite bool_decide_eq_true_2 by reflexivity. cbn [total_cpu].
    pose proof (owner_cpu_nonneg (ComputeResource.owner d) demands Hrest) as Hnonneg.
    unfold owner_cpu in Hnonneg. lia.
  - destruct IH as (d' & Hin & Hd'); [lia |].
    exists d'. split; [now right |]. unfold owner_cpu in *. cbn [List.filter].
    destruct (bool_decide _); cbn [total_cpu]; lia.
Qed.

Lemma resolve_owner_most_cpu (demands : list resource) :
  Forall (fun d => 0 <= ComputeResource.cpu d) demands ->
  0 < total_cpu demands ->
  exists owner,
    CpuCapacityInstanceSelector._resolve_owner demands = Ok owner
    /\ 0 < owner_cpu owner demands
    /\ forall o, owner_cpu o demands <= owner_cpu owner demands.
Proof.
  intros Hall Htotal. unfold CpuCapacityInstanceSelector._resolve_owner.
  set (counter := fold_left Counter.add _ _).
  assert (Hlookup : forall o, counter !! o = Counter.positive (owner_cpu o demands)).
  { intros o. unfold counter.
    rewrite (owner_cpus_counter_lookup demands Hall ∅ (fun _ => 0)).
    - reflexivity.
    - intros _. lia.
    - intros o'. now rewrite lookup_empty. }
  unfold Counter.most_common, sorted_by_key_reverse.
  set (le := fun a b : option string * Z => snd b <=? snd a).
  pose proof (sorted_sorted le) as Hsorted.
  pose proof (sorted_perm le (map_to_list counter)) as Hperm.
  specialize (Hsorted ltac:(intros a b H; apply Z.leb_gt in H; apply Z.leb_le; lia)
                      ltac:(intros a b c H1 H2; apply Z.leb_le in H1, H2;
                            apply Z.leb_le; lia)
                      (map_to_list counter)).
  destruct (sorted le (map_to_list counter)) as [|[owner n] rest] eqn:Hmost.
  - exfalso. destruct (positive_demand demands Hall Htotal) as (d & _ & Hd).
    assert (Hin : (ComputeResource.owner d, owner_cpu (ComputeResource.owner d) demands)
                  ∈ map_to_list counter).
    { apply elem_of_map_to_list. rewrite Hlookup. unfold Counter.positive.
      now apply Z.ltb_lt in Hd as ->. }
    apply list_elem_of_In in Hin.
    apply (Permutation_in _ (Permutation_sym Hperm)) in Hin. destruct Hin.
  - exists owner. split; [reflexivity |].
    assert (Hhead : (owner, n) ∈ map_to_list counter).
    { apply list_elem_of_In. eapply Permutation_in; [exact Hperm | now left]. }
    apply elem_of_map_to_list in Hhead. rewrite Hlookup in Hhead.
    unfold Counter.positive in Hhead.
    destruct (Z.ltb_spec 0 (owner_cpu owner demands)) as [Hpos|]; [| discriminate].
    injection Hhead as <-. split; [assumption |].
    intros o. destruct (Z.lt_ge_cases 0 (owner_cpu o demands)) as [Ho|Ho]; [| lia].
    assert (Hin : (o, owner_cpu o demands) ∈ map_to_list counter).
    { apply elem_of_map_to_list. rewrite Hlookup. unfold Counter.positive.
      now apply Z.ltb_lt in Ho as ->. }
    apply list_elem_of_In in Hin.
    apply (Permutation_in _ (Permutation_sym Hperm)) in Hin.
    destruct Hin as [Heq|Hin]; [injection Heq as <- _; lia |].
    inversion Hsorted as [|? ? _ Hfirst]; subst.
    rewrite Forall_forall in Hfirst.
    specialize (Hfirst _ (proj2 (list_elem_of_In _ _) Hin)).
    cbn in Hfirst. apply Z.leb_le in Hfirst. exact Hfirst.
Qed.

Lemma selector_step (reserved_supply : resource)
    (instances : list instance) (demands : list resource)
    (Hdemands : Forall is_demand demands) :
  match CpuCapacityInstanceSelector.select_next reserved_supply instances demands with
  | Raise _ => False
  | Ok None =>
      forall i, In i instances ->
        exists remaining fulfilled,
          CpuCapacityInstanceSelector.capacity reserved_supply demands i
          = Ok (0, (remaining, fulfilled))
  | Ok (Some (chosen, remaining)) =>
      In (demand_instance chosen) instances
      /\ Forall is_demand remaining
      /\ total_cpu remaining < total_cpu demands
      /\ exists fulfilled,
           CpuCapacityInstanceSelector.capacity reserved_supply demands
             (demand_instance chosen)
           = Ok (total_cpu demands - total_cpu remaining, (remaining, fulfilled))
           /\ 0 < owner_cpu (demand_owner chosen) fulfilled
           /\ forall o, owner_cpu o fulfilled
                        <= owner_cpu (demand_owner chosen) fulfilled
  end.
Proof.
  unfold CpuCapacityInstanceSelector.select_next.
  destruct demands as [|d0 demands0] eqn:Heq.
  - intros i Hin.
    destruct (capacity_shares reserved_supply [] i Hdemands)
      as (remaining & fulfilled & Hcap & Htotal & _ & Hful).
    exists remaining, fulfilled. rewrite Hcap. cbn [total_cpu] in Htotal.
    pose proof (total_cpu_nonneg fulfilled Hful).
    assert (Hrem : 0 <= total_cpu remaining).
    { unfold CpuCapacityInstanceSelector.capacity, CpuCapacityInstanceSelector._apply in Hcap.
      cbn in Hcap. injection Hcap as _ <- _. cbn. lia. }
    now replace (total_cpu fulfilled) with 0 by lia.
  - rewrite <- Heq in *. clear Heq d0 demands0.
    destruct (best_loop_returns reserved_supply demands instances Hdemands (0, None))
      as [b Hbest].
    rewrite Hbest. cbn [bind].
    destruct (best_loop_first_maximum _ _ _ _ _ Hbest)
      as [[-> Hmax]|(before & best & after & r & f & Hinstances & Hb & Hcap & Hlt & _)].
    + cbn [snd]. intros i Hin.
      destruct (capacity_shares reserved_supply demands i Hdemands)
        as (remaining & fulfilled & Hcap & _ & _ & Hful).
      exists remaining, fulfilled. rewrite Hcap.
      pose proof (total_cpu_nonneg fulfilled Hful).
      specialize (Hmax i _ _ Hin Hcap). cbn [fst] in Hmax.
      now replace (total_cpu fulfilled) with 0 by lia.
    + rewrite Hb. cbn [snd fst] in Hlt |- *.
      destruct (capacity_shares reserved_supply demands best Hdemands)
        as (remaining & fulfilled & Hcap' & Htotal & Hrem & Hful).
      rewrite Hcap' in Hcap. injection Hcap as Hc <- <-.
      destruct (resolve_owner_most_cpu fulfilled Hful ltac:(lia))
        as (owner & -> & Hpos & Hmost).
      cbn [bind demand_instance demand_owner].
      split; [rewrite Hinstances; apply in_elt |].
      split; [assumption |]. split; [lia |].
      exists fulfilled. split; [| split; assumption].
      rewrite Hcap'. do 2 f_equal. lia.
Qed.

Lemma select_loop_ends (reserved_supply : resource) (instances : list instance)
    (t : nat) :
  forall demands,
    Forall is_demand demands ->
    Z.to_nat (total_cpu demands) = t ->
    exists instance_demands,
      (Z.of_nat (length instance_demands) <= total_cpu demands)
      /\ (forall chosen, In chosen instance_demands ->
            In (demand_instance chosen) instances)
      /\ forall n,
           (t <= n)%nat ->
           CpuCapacityInstanceSelector.select_loop n reserved_supply instances demands
           = Ok instance_demands.
Proof.
  induction t as [t IH] using lt_wf_ind. intros demands Hdemands Ht.
  pose proof (selector_step reserved_supply instances demands Hdemands) as Hstep.
  assert (Hnonneg : 0 <= total_cpu demands).
  { apply total_cpu_nonneg. eapply Forall_impl; [exact Hdemands |].
    intros d [Hd _]. exact Hd. }
  destruct (CpuCapacityInstanceSelector.select_next reserved_supply instances demands)
    as [[[chosen remaining]|]|e] eqn:Hnext; [| | destruct Hstep].
  - destruct Hstep as (Hin & Hrem & Hless & _).
    assert (Hnonneg' : 0 <= total_cpu remaining).
    { apply total_cpu_nonneg. eapply Forall_impl; [exact Hrem |].
      intros d [Hd _]. exact Hd. }
    destruct (IH (Z.to_nat (total_cpu remaining)) ltac:(lia) remaining Hrem eq_refl)
      as (rest & Hlen & Hfrom & Hloop).
    exists (chosen :: rest). split; [cbn [length]; lia |]. split.
    + intros c [<-|Hc]; [assumption | now apply Hfrom].
    + intros n Hn. destruct n as [|n]; [lia |].
      cbn [CpuCapacityInstanceSelector.select_loop]. rewrite Hnext. cbn [bind].
      rewrite (Hloop n) by lia. reflexivity.
  - exists []. split; [cbn; lia |]. split; [intros c [] |].
    intros n _. destruct n as [|n]; [reflexivity |].
    cbn [CpuCapacityInstanceSelector.select_loop]. now rewrite Hnext.
Qed.

(** X22. For such demands the generator [select] is finite: it yields at
    most as many instances as the demands ask cpu, all of them provided
    instances, and then ends; taking more of it with [islice] gives nothing
    more. *)
Theorem selector_ends (reserved_supply : resource)
    (instances : list instance) (demands : list resource)
    (Hdemands : Forall is_demand demands) :
  exists instance_demands,
    (Z.of_nat (length instance_demands) <= total_cpu demands)
    /\ (forall chosen, In chosen instance_demands ->
          In (demand_instance chosen) instances)
    /\ forall n,
         (Z.to_nat (total_cpu demands) < n)%nat ->
         CpuCapacityInstanceSelector.select n (Ok instances) reserved_supply demands
         = Ok instance_demands.
Proof.
  destruct (select_loop_ends reserved_supply instances _ demands Hdemands eq_refl)
    as (instance_demands & Hlen & Hfrom & Hloop).
  exists instance_demands. split; [assumption |]. split; [assumption |].
  intros n Hn. destruct n as [|n]; [lia |].
  unfold CpuCapacityInstanceSelector.select. cbn [bind]. apply Hloop. lia.
Qed.

(** X21. For demands of the two demand classes with a cpu that is not
    negative, one resumption of [CpuCapacityInstanceSelector.select] never
    raises.  When it yields an instance, the instance is one of those
    provided, it fulfils at least 1 cpu, the cpu of the demands that remain
    is that of the demands less the cpu fulfilled, and the instance goes
    to an owner who has the most cpu among the demands fulfilled.  When it
    ends instead, no provided instance can fulfil any cpu. *)
Theorem selector_takes_a_step (reserved_supply : resource)
    (instances : list instance) (demands : list resource)
    (Hdemands : Forall is_demand demands) :
  exists next,
    CpuCapacityInstanceSelector.select_next reserved_supply instances demands = Ok next
    /\ (next = None ->
        forall i, In i instances ->
          exists remaining fulfilled,
            CpuCapacityInstanceSelector.capacity reserved_supply demands i
            = Ok (0, (remaining, fulfilled)))
    /\ (forall chosen remaining,
          next = Some (chosen, remaining) ->
          In (demand_instance chosen) instances
          /\ Forall is_demand remaining
          /\ total_cpu remaining < total_cpu demands
          /\ exists fulfilled,
               CpuCapacityInstanceSelector.capacity reserved_supply demands
                 (demand_instance chosen)
               = Ok (total_cpu demands - total_cpu remaining, (remaining, fulfilled))
               /\ 0 < owner_cpu (demand_owner chosen) fulfilled
               /\ forall o, owner_cpu o fulfilled
                            <= owner_cpu (demand_owner chosen) fulfilled).
Proof.
  pose proof (selector_step reserved_supply instances demands Hdemands) as Hstep.
  destruct (CpuCapacityInstanceSelector.select_next reserved_supply instances demands)
    as [[[chosen remaining]|]|e]; [| | destruct Hstep].
  - eexists. split; [reflexivity |]. split; [discriminate |].
    intros chosen' remaining' [= <- <-]. exact Hstep.
  - exists None. split; [reflexivity |]. split; [| discriminate].
    intros _. exact Hstep.
Qed.


Lemma example_demands_are_demands : Forall is_demand example_demands.
Proof. repeat constructor; cbn; (lia || discriminate). Qed.

Lemma selector_takes_a_step_witness :
  exists chosen remaining,
    CpuCapacityInstanceSelector.select_next (ComputeResource.resource_supply 0)
      example_instances example_demands
    = Ok (Some (chosen, remaining))
    /\ demand_instance chosen = Instance.make "C" "spot" 8 0 32
    /\ total_cpu remaining = 2.
Proof.
  destruct (selector_takes_a_step (ComputeResource.resource_supply 0)
              example_instances example_demands example_demands_are_demands)
    as (next & Hnext & _).
  rewrite Hnext. vm_compute in Hnext. injection Hnext as <-.
  eexists _, _. repeat split.
Defined.

Lemma selector_ends_witness :
  exists first second,
    CpuCapacityInstanceSelector.select 11 (Ok example_instances)
      (ComputeResource.resource_supply 0) example_demands
    = Ok [first; second]
    /\ demand_instance first = Instance.make "C" "spot" 8 0 32
    /\ demand_instance second = Instance.make "A" "spot" 2 0 8.
Proof.
  destruct (selector_ends (ComputeResource.resource_supply 0) example_instances
              example_demands example_demands_are_demands)
    as (instance_demands & _ & _ & Hselect).
  specialize (Hselect 11%nat ltac:(vm_compute; lia)).
  rewrite Hselect. vm_compute in Hselect. injection Hselect as <-.
  eexists _, _. repeat split.
Defined.

(** X23. In [_apply], a supply takes the owner of the demand it serves
    ([self.owner or other.owner]), and gives it to what it hands back:
    after a demand of [user] is served whole by an instance, the unmet
    part of the fractional demand that follows remains under the name of
    [user], whoever owns it. *)
Theorem unmet_demand_changes_owner (reserved_supply : resource) (i : instance)
    (served unserved : resource) (rest : list resource) (user : string)
    (Hreserved : ComputeResource.owner reserved_supply = None)
    (Hgpu : ComputeResource.gpu served = 0 /\ ComputeResource.mem served = 0)
    (Hserved_class : ComputeResource.cls served <> ComputeResource.ResourceSupply)
    (Huser : ComputeResource.owner served = Some user /\ user <> ""%string)
    (Hfits : 0 < ComputeResource.cpu served
             < ComputeResource.cpu
                 (ComputeResource.sub (ResourceSupply_of i) reserved_supply))
    (Hclass : ComputeResource.cls unserved = ComputeResource.FractionalDemand)
    (Hunmet : ComputeResource.cpu
                (ComputeResource.sub (ResourceSupply_of i) reserved_supply)
              - ComputeResource.cpu served < ComputeResource.cpu unserved)
    (Hrest : Forall is_demand rest) :
  exists unmet remaining fulfilled,
    CpuCapacityInstanceSelector._apply (served :: unserved :: rest)
      (ComputeResource.sub (ResourceSupply_of i) reserved_supply)
    = Ok (unmet :: remaining, fulfilled)
    /\ ComputeResource.cls unmet = ComputeResource.FractionalDemand
    /\ ComputeResource.cpu unmet
       = ComputeResource.cpu unserved
         - (ComputeResource.cpu
              (ComputeResource.sub (ResourceSupply_of i) reserved_supply)
            - ComputeResource.cpu served)
    /\ ComputeResource.owner unmet = Some user.
Proof.
  destruct Hgpu as [Hgpu Hmem]. destruct Huser as [Howner Hnonempty].
  unfold CpuCapacityInstanceSelector._apply.
  set (supply := ComputeResource.sub (ResourceSupply_of i) reserved_supply) in *.
  assert (Hsupply_owner : ComputeResource.owner supply = None)
    by (subst supply; cbn; now rewrite Hreserved).
  assert (Hsupply_gpu : 0 <= ComputeResource.gpu supply /\ 0 <= ComputeResource.mem supply)
    by (subst supply; cbn; lia).
  clearbody supply.
  assert (Htruthy : ComputeResource.bool supply = true)
    by (unfold ComputeResource.bool; apply Z.ltb_lt; lia).
  set (left := fst (ComputeResource.subtract supply served)).
  set (unmet := snd (ComputeResource.subtract left unserved)).
  assert (Hleft_truthy : ComputeResource.bool left = true)
    by (unfold ComputeResource.bool, left; cbn; apply Z.ltb_lt; lia).
  assert (Hleft_owner : ComputeResource.owner left = Some user).
  { unfold left. cbn. rewrite Hsupply_owner, Howner. reflexivity. }
  assert (Hunmet_truthy : ComputeResource.bool unmet = true).
  { unfold ComputeResource.bool, unmet, left. cbn. apply Z.ltb_lt. lia. }
  assert (Hserved_met :
            ComputeResource.bool (snd (ComputeResource.subtract supply served))
            = false).
  { unfold ComputeResource.bool. cbn. apply Z.ltb_ge. lia. }
  destruct (apply_loop_shares rest Hrest (fst (ComputeResource.subtract left unserved)))
    as (remaining & fulfilled & Hloop & _); [cbn; lia |].
  assert (Hinner :
            CpuCapacityInstanceSelector._apply_loop left (unserved :: rest)
            = Ok (unmet :: remaining,
                  ComputeResource.sub unserved unmet :: fulfilled)).
  { change (CpuCapacityInstanceSelector._apply_loop left (unserved :: rest))
      with (if negb (ComputeResource.bool left) then Ok (unserved :: rest, [])
            else
              match ComputeResource.cls unserved with
              | ComputeResource.IntegralDemand =>
                  if ComputeResource.bool unmet then
                    do '(remaining_demands, fulfilled_demands) <-
                      CpuCapacityInstanceSelector._apply_loop left rest;
                    Ok (unserved :: remaining_demands, fulfilled_demands)
                  else
                    do '(remaining_demands, fulfilled_demands) <-
                      CpuCapacityInstanceSelector._apply_loop
                        (fst (ComputeResource.subtract left unserved)) rest;
                    Ok (remaining_demands, unserved :: fulfilled_demands)
              | ComputeResource.FractionalDemand =>
                  do '(remaining_demands, fulfilled_demands) <-
                    CpuCapacityInstanceSelector._apply_loop
                      (fst (ComputeResource.subtract left unserved)) rest;
                  Ok (if ComputeResource.bool unmet
                      then unmet :: remaining_demands
                      else remaining_demands,
                      ComputeResource.sub unserved unmet :: fulfilled_demands)
              | ComputeResource.ResourceSupply => Raise ScalingError
              end).
    rewrite Hleft_truthy, Hclass, Hloop. cbn [negb bind].
    now rewrite Hunmet_truthy. }
  exists unmet.
  assert (Houter :
            exists head,
              CpuCapacityInstanceSelector._apply_loop supply
                (served :: unserved :: rest)
              = do '(remaining_demands, fulfilled_demands) <-
                  CpuCapacityInstanceSelector._apply_loop left (unserved :: rest);
                Ok (remaining_demands, head :: fulfilled_demands)).
  { change (CpuCapacityInstanceSelector._apply_loop supply
              (served :: unserved :: rest))
      with (if negb (ComputeResource.bool supply)
            then Ok (served :: unserved :: rest, [])
            else
              match ComputeResource.cls served with
              | ComputeResource.IntegralDemand =>
                  if ComputeResource.bool (snd (ComputeResource.subtract supply served))
                  then
                    do '(remaining_demands, fulfilled_demands) <-
                      CpuCapacityInstanceSelector._apply_loop supply
                        (unserved :: rest);
                    Ok (served :: remaining_demands, fulfilled_demands)
                  else
                    do '(remaining_demands, fulfilled_demands) <-
                      CpuCapacityInstanceSelector._apply_loop left (unserved :: rest);
                    Ok (remaining_demands, served :: fulfilled_demands)
              | ComputeResource.FractionalDemand =>
                  do '(remaining_demands, fulfilled_demands) <-
                    CpuCapacityInstanceSelector._apply_loop left (unserved :: rest);
                  Ok (if ComputeResource.bool
                           (snd (ComputeResource.subtract supply served))
                      then snd (ComputeResource.subtract supply served)
                           :: remaining_demands
                      else remaining_demands,
                      ComputeResource.sub served
                        (snd (ComputeResource.subtract supply served))
                      :: fulfilled_demands)
              | ComputeResource.ResourceSupply => Raise ScalingError
              end).
    rewrite Htruthy, Hserved_met. cbn [negb].
    destruct (ComputeResource.cls served); [eexists; reflexivity .. | congruence]. }
  destruct Houter as [head Houter].
  exists remaining, (head :: ComputeResource.sub unserved unmet :: fulfilled).
  split; [now rewrite Houter, Hinner |].
  split; [exact Hclass |]. split.
  - unfold unmet, left. cbn. lia.
  - unfold unmet. cbn [ComputeResource.owner ComputeResource.subtract snd].
    rewrite Hleft_owner. cbn. now destruct (String.eqb_spec user "").
Qed.

Lemma unmet_demand_changes_owner_witness :
  exists fulfilled,
    CpuCapacityInstanceSelector._apply example_demands
      (ComputeResource.sub (ResourceSupply_of (Instance.make "C" "spot" 8 0 32))
         (ComputeResource.resource_supply 0))
    = Ok ([ComputeResource.make ComputeResource.FractionalDemand 2 0 0
             (Some "alice"%string)], fulfilled).
Proof.
  destruct (unmet_demand_changes_owner (ComputeResource.resource_supply 0)
              (Instance.make "C" "spot" 8 0 32)
              (ComputeResource.integral_demand 4 (Some "alice"%string))
              (ComputeResource.fractional_demand 6 (Some "bob"%string))
              [] "alice")
    as (unmet & remaining & fulfilled & Happly & _).
  - reflexivity.
  - split; reflexivity.
  - discriminate.
  - split; [reflexivity | discriminate].
  - cbn. lia.
  - reflexivity.
  - cbn. lia.
  - constructor.
  - exists fulfilled. unfold example_demands. rewrite Happly.
    vm_compute in Happly. now injection Happly as <- <- <-.
Defined.

(** ** The states of the jobs *)

Lemma from_letter_code_found (states : list (GridEngineJobState * list string))
    (code : option string) (key : GridEngineJobState) :
  from_letter_code states code = Ok key ->
  exists codes c, In (key, codes) states /\ In c codes /\ code = Some c.
Proof.
  induction states as [|[k codes] states IH]; cbn [from_letter_code]; [discriminate |].
  destruct (existsb _ codes) eqn:Hcodes.
  - intros [= <-]. apply existsb_exists in Hcodes. destruct Hcodes as (c & Hin & Hc).
    apply bool_decide_eq_true_1 in Hc. exists codes, c. repeat split; [now left | assumption ..].
  - intros Hrest. destruct (IH Hrest) as (codes' & c & Hin & Hc & Hcode).
    exists codes', c. repeat split; [now right | assumption ..].
Qed.

Lemma from_letter_code_unknown (states : list (GridEngineJobState * list string))
    (code : option string) (e : exn) :
  from_letter_code states code = Raise e ->
  e = TypeError
  /\ forall key codes c, In (key, codes) states -> In c codes -> code <> Some c.
Proof.
  induction states as [|[k codes] states IH]; cbn [from_letter_code].
  - intros [= <-]. split; [reflexivity |]. intros key codes c [].
  - destruct (existsb _ codes) eqn:Hcodes; [discriminate |].
    intros Hrest. destruct (IH Hrest) as [-> Hnone]. split; [reflexivity |].
    intros key codes' c [[= <- <-]|Hin] Hc Hcode.
    + assert (Hfound : existsb (fun c => bool_decide (code = Some c)) codes = true).
      { apply existsb_exists. exists c. split; [assumption |].
        now apply bool_decide_eq_true_2. }
      congruence.
    + exact (Hnone key codes' c Hin Hc Hcode).
Qed.

(** The lists of codes of two states have no code in common. *)
Lemma letter_codes_have_one_state (key : GridEngineJobState) (codes : list string)
    (c : string) :
  In (key, codes) _letter_codes_to_states -> In c codes ->
  from_letter_code _letter_codes_to_states (Some c) = Ok key.
Proof.
  intros Hentry Hc. cbn in Hentry.
  repeat (destruct Hentry as [[= <- <-]|Hentry];
          [cbn in Hc;
           repeat (destruct Hc as [<-|Hc]; [reflexivity |]); destruct Hc |]).
  destruct Hentry.
Qed.

(** X24. Whatever the order in which the dictionary of the states gives its
    keys, [from_letter_code] answers the same: no code stands in the lists
    of two states.  It never answers [UNKNOWN]: for a code of no list, or
    for no code at all, it raises a [TypeError], since what it raises is a
    string. *)
Theorem state_of_a_letter_code (states : list (GridEngineJobState * list string))
    (code : option string)
    (Hstates : Permutation states _letter_codes_to_states) :
  from_letter_code states code = from_letter_code _letter_codes_to_states code
  /\ from_letter_code states code <> Ok UNKNOWN
  /\ (forall e, from_letter_code states code = Raise e ->
        e = TypeError
        /\ forall key codes c, In (key, codes) _letter_codes_to_states ->
             In c codes -> code <> Some c).
Proof.
  assert (Hsame : from_letter_code states code
                  = from_letter_code _letter_codes_to_states code).
  { destruct (from_letter_code states code) as [key|e] eqn:Hfound.
    - destruct (from_letter_code_found _ _ _ Hfound) as (codes & c & Hin & Hc & ->).
      symmetry. apply (letter_codes_have_one_state key codes c); [| assumption].
      eapply Permutation_in; [exact Hstates | exact Hin].
    - destruct (from_letter_code_unknown _ _ _ Hfound) as [-> Hnone].
      destruct (from_letter_code _letter_codes_to_states code) as [key|e] eqn:Hcanon.
      + destruct (from_letter_code_found _ _ _ Hcanon) as (codes & c & Hin & Hc & Hcode).
        exfalso. apply (Hnone key codes c); [| assumption ..].
        eapply Permutation_in; [symmetry; exact Hstates | exact Hin].
      + now destruct (from_letter_code_unknown _ _ _ Hcanon) as [-> _]. }
  split; [exact Hsame |]. split.
  - intros Hunknown.
    destruct (from_letter_code_found _ _ _ Hunknown) as (codes & c & Hin & _).
    apply (Permutation_in _ Hstates) in Hin. cbn in Hin.
    repeat (destruct Hin as [Hin|Hin]; [discriminate Hin |]). destruct Hin.
  - intros e Hraise. rewrite Hsame in Hraise.
    exact (from_letter_code_unknown _ _ _ Hraise).
Qed.

Lemma state_of_a_letter_code_witness :
  from_letter_code (rev _letter_codes_to_states) (Some "hqw"%string) = Ok PENDING
  /\ from_letter_code (rev _letter_codes_to_states) (Some "Rq"%string)
     = Raise TypeError.
Proof.
  assert (Hperm : Permutation (rev _letter_codes_to_states) _letter_codes_to_states)
    by (symmetry; apply Permutation_rev).
  split.
  - now rewrite (proj1 (state_of_a_letter_code _ (Some "hqw"%string) Hperm)).
  - now rewrite (proj1 (state_of_a_letter_code _ (Some "Rq"%string) Hperm)).
Defined.

(** ** The tasks of an array job *)

Lemma split_chars_plain (sep : ascii) (s : list ascii) :
  ~ In sep s -> split_chars sep s = [s].
Proof.
  induction s as [|c s IH]; intros Hfree; [reflexivity |].
  cbn [split_chars]. destruct (Ascii.eqb_spec c sep) as [->|Hne].
  - exfalso. apply Hfree. now left.
  - rewrite IH; [reflexivity |]. intros Hin. apply Hfree. now right.
Qed.

Lemma split_chars_at (sep : ascii) (front back : list ascii) :
  ~ In sep front ->
  split_chars sep (front ++ sep :: back) = front :: split_chars sep back.
Proof.
  induction front as [|c front IH]; intros Hfree; cbn [app split_chars].
  - now rewrite Ascii.eqb_refl.
  - destruct (Ascii.eqb_spec c sep) as [->|Hne].
    + exfalso. apply Hfree. now left.
    + rewrite IH; [reflexivity |]. intros Hin. apply Hfree. now right.
Qed.

Lemma py_split_plain (sep : ascii) (s : string) :
  without sep s -> py_split sep s = [s].
Proof.
  intros Hfree. unfold py_split. rewrite split_chars_plain by exact Hfree.
  cbn. now rewrite string_of_list_ascii_of_string.
Qed.

Lemma py_split_at (sep : ascii) (front back : string) :
  without sep front ->
  py_split sep (front ++ String sep back) = front :: py_split sep back.
Proof.
  intros Hfree. unfold py_split. rewrite list_ascii_of_string_app.
  cbn [list_ascii_of_string]. rewrite split_chars_at by exact Hfree.
  cbn [map]. now rewrite string_of_list_ascii_of_string.
Qed.

Lemma string_append_assoc (a b c : string) :
  ((a ++ b) ++ c = a ++ (b ++ c))%string.
Proof.
  induction a as [|x a IH]; [reflexivity |].
  change (String x ((a ++ b) ++ c) = String x (a ++ (b ++ c)))%string.
  now f_equal.
Qed.

Lemma without_app (c : ascii) (a b : string) :
  without c (a ++ b) <-> without c a /\ without c b.
Proof.
  unfold without. rewrite list_ascii_of_string_app, in_app_iff. tauto.
Qed.

Lemma without_cons (c x : ascii) (s : string) :
  without c (String x s) <-> x <> c /\ without c s.
Proof. unfold without. cbn. intuition congruence. Qed.

Lemma py_range_length (start stop : Z) :
  length (py_range start stop) = Z.to_nat (stop - start).
Proof. unfold py_range. now rewrite length_map, length_seq. Qed.

Lemma py_range_In (start stop n : Z) :
  In n (py_range start stop) <-> start <= n < stop.
Proof.
  unfold py_range. rewrite in_map_iff. split.
  - intros (k & <- & Hk). apply in_seq in Hk. lia.
  - intros Hn. exists (Z.to_nat (n - start)). split; [lia |]. apply in_seq. lia.
Qed.

(** X25. For the tasks [start-stop:step] of an array job, [_parse_array]
    gives every number from [start] to [stop], whatever the step is:
    [stop + 1 - start] of them (none when [stop] is below [start]). *)
Theorem parse_array_ignores_the_step (start stop step : string) (first last : Z)
    (Hstart : py_int start = Ok first) (Hstop : py_int stop = Ok last)
    (Hborders : forall c, In c ["-"; ":"; ","]%char ->
                  without c start /\ without c stop)
    (Hstep : without ":" step /\ without "," step) :
  let tasks := py_range first (last + 1) in
  _parse_array (Some (start ++ "-" ++ stop ++ ":" ++ step)%string) = Ok tasks
  /\ length tasks = Z.to_nat (last + 1 - first)
  /\ forall n, In n tasks <-> first <= n <= last.
Proof.
  intros tasks.
  destruct (Hborders "-"%char ltac:(now left)) as [Hdash1 Hdash2].
  destruct (Hborders ":"%char ltac:(right; now left)) as [Hcolon1 Hcolon2].
  destruct (Hborders ","%char ltac:(right; right; now left)) as [Hcomma1 Hcomma2].
  destruct Hstep as [Hcolon3 Hcomma3].
  split; [| split].
  - unfold _parse_array.
    assert (Hnonempty : String.eqb (start ++ "-" ++ stop ++ ":" ++ step) "" = false)
      by (destruct start; reflexivity).
    rewrite Hnonempty.
    rewrite py_split_plain.
    2:{ rewrite without_app. split; [assumption |].
        change ("-" ++ stop ++ ":" ++ step)%string
          with (String "-" (stop ++ String ":" step)).
        rewrite without_cons. split; [discriminate |].
        rewrite without_app. split; [assumption |].
        rewrite without_cons. split; [discriminate | assumption]. }
    cbn [parse_intervals]. unfold parse_interval.
    assert (Hhas : existsb (Ascii.eqb ":")
                     (list_ascii_of_string (start ++ "-" ++ stop ++ ":" ++ step))
                   = true).
    { apply existsb_exists. exists ":"%char. split; [| reflexivity].
      rewrite !list_ascii_of_string_app. rewrite !in_app_iff.
      right. right. right. left. now left. }
    rewrite Hhas.
    replace (start ++ "-" ++ stop ++ ":" ++ step)%string
      with ((start ++ String "-" stop) ++ String ":" step)%string.
    2:{ rewrite string_append_assoc. reflexivity. }
    rewrite py_split_at.
    2:{ rewrite without_app. split; [assumption |].
        rewrite without_cons. split; [discriminate | assumption]. }
    rewrite (py_split_plain ":" step) by assumption.
    rewrite py_split_at by assumption.
    rewrite (py_split_plain "-" stop) by assumption.
    rewrite Hstart, Hstop. cbn [bind]. now rewrite app_nil_r.
  - unfold tasks. rewrite py_range_length. f_equal; lia.
  - intros n. unfold tasks. rewrite py_range_In. lia.
Qed.

Lemma parse_array_ignores_the_step_witness :
  _parse_array (Some "1-9:2"%string) = Ok [1; 2; 3; 4; 5; 6; 7; 8; 9].
Proof.
  apply (parse_array_ignores_the_step "1" "9" "2" 1 9).
  - reflexivity.
  - reflexivity.
  - intros c Hc. unfold without. cbn.
    destruct Hc as [<-|[<-|[<-|[]]]]; split; intros [H|[]]; discriminate H.
  - unfold without. cbn. split; intros [H|[]]; discriminate H.
Defined.

(** ** Memory requests, in general *)

(** X26. A memory request with one of the suffixes k, m, g, K, M, G and a
    number that is not negative is read as the whole gibibytes that fit
    into [number * modifier] bytes: the quotient rounded down, and 0 for
    anything below one gibibyte. *)
Theorem parse_mem_floors (front : string) (c : ascii) (modifier number : Z)
    (Hmodifier : GridEngine.modifiers c = Some modifier)
    (Hnumber : py_int front = Ok number)
    (Hrange : 0 <= number /\ number * modifier < 2 ^ 53 * 1024 ^ 3) :
  exists gib,
    GridEngine._parse_mem (front ++ String c EmptyString) = Ok gib
    /\ gib = number * modifier / 1024 ^ 3
    /\ gib * 1024 ^ 3 <= number * modifier < (gib + 1) * 1024 ^ 3
    /\ (number * modifier < 1024 ^ 3 -> gib = 0).
Proof.
  destruct Hrange as [Hnonneg Hsmall].
  assert (Hpositive : 0 < modifier).
  { unfold GridEngine.modifiers in Hmodifier.
    repeat match type of Hmodifier with
           | (if ?b then _ else _) = _ => destruct b
           end; try discriminate; injection Hmodifier as <-; lia. }
  assert (Hquotient : 0 <= number * modifier / 1024 ^ 3 < 2 ^ 53).
  { split.
    - apply Z.div_pos; lia.
    - apply Z.div_lt_upper_bound; lia. }
  exists (number * modifier / 1024 ^ 3). split; [| split; [reflexivity | split]].
  - apply parse_mem_suffix; [assumption .. |]. lia.
  - pose proof (Z.div_mod (number * modifier) (1024 ^ 3) ltac:(lia)) as Hdiv.
    pose proof (Z.mod_pos_bound (number * modifier) (1024 ^ 3) ltac:(lia)) as Hmod.
    lia.
  - intros Hless. apply Z.div_small. lia.
Qed.

Lemma parse_mem_floors_witness :
  GridEngine._parse_mem "1536M" = Ok 1.
Proof.
  destruct (parse_mem_floors "1536" "M" (1024 ^ 2) 1536 eq_refl eq_refl)
    as (gib & Hparse & -> & _).
  - split; [lia | reflexivity].
  - exact Hparse.
Defined.

(** ** The order of the scaling down *)

Lemma mapM_keyed_values {A B : Type} (f : A -> result B) (l : list A)
    (keyed : list (A * B)) :
  mapM (fun a => do b <- f a; Ok (a, b)) l = Ok keyed ->
  forall a b, In (a, b) keyed -> f a = Ok b.
Proof.
  revert keyed. induction l as [|x l IH]; intros keyed; cbn [mapM].
  - intros [= <-] a b [].
  - destruct (f x) as [y|e] eqn:Hx; cbn [bind]; [| discriminate].
    destruct (mapM (fun a => do b <- f a; Ok (a, b)) l) as [rest|e]; cbn [bind];
      [| discriminate].
    intros [= <-] a b [[= <- <-]|Hin]; [assumption |]. now apply (IH rest).
Qed.

Lemma StronglySorted_firstn_skipn {A : Type} (R : A -> A -> Prop) (n : nat)
    (l : list A) :
  StronglySorted R l ->
  forall a b, In a (firstn n l) -> In b (skipn n l) -> R a b.
Proof.
  intros Hsorted. revert n.
  induction Hsorted as [|x l Hsorted IH Hx]; intros n a b.
  - destruct n; intros [].
  - destruct n as [|n]; cbn [firstn skipn]; [intros [] |].
    intros [<-|Ha] Hb.
    + rewrite Forall_forall in Hx. apply Hx.
      apply list_elem_of_In in Hb. now apply (subseteq_drop n l).
    + now apply (IH n).
Qed.

(** X27. When the batch size is not 0, the hosts that the orchestrator
    picks for a scaling down are as many as the batch size allows, and
    they are the ones with the most processors: no host that is left has
    more processors than a host that is taken. *)
Theorem scale_down_takes_the_largest_hosts (settings_ : settings) (w : world)
    (hosts batch : list string)
    (Hbatch : hosts_to_scale_down settings_ w hosts = Ok batch)
    (Hsize : scale_down_batch_size settings_ <> 0) :
  exists rest,
    Permutation (batch ++ rest) hosts
    /\ length batch
       = Nat.min (Z.to_nat (scale_down_batch_size settings_)) (length hosts)
    /\ (forall host, In host hosts -> exists cpu, host_processors w host = Ok cpu)
    /\ forall taken left cpu_taken cpu_left,
         In taken batch -> In left rest ->
         host_processors w taken = Ok cpu_taken ->
         host_processors w left = Ok cpu_left ->
         cpu_left <= cpu_taken.
Proof.
  unfold hosts_to_scale_down in Hbatch.
  destruct (scale_down_batch_size settings_ <? 0) eqn:Hneg; [discriminate |].
  apply Z.eqb_neq in Hsize. rewrite Hsize in Hbatch.
  destruct (mapM _ hosts) as [keyed|e] eqn:Hkeyed; cbn [bind] in Hbatch;
    [| discriminate].
  injection Hbatch as <-.
  pose proof (mapM_keyed _ _ _ Hkeyed) as Hhosts.
  pose proof (mapM_keyed_values _ _ _ Hkeyed) as Hvalues. cbn beta in Hvalues.
  set (n := Z.to_nat (scale_down_batch_size settings_)).
  set (ordered := sorted_by_key_reverse snd keyed).
  assert (Hperm : Permutation ordered keyed) by apply sorted_perm.
  exists (skipn n (map fst ordered)). split; [| split; [| split]].
  - rewrite firstn_skipn, <- Hhosts. now apply Permutation_map.
  - rewrite length_firstn, length_map, (Permutation_length Hperm), <- Hhosts.
    now rewrite length_map.
  - intros host Hin. rewrite <- Hhosts in Hin. apply in_map_iff in Hin.
    destruct Hin as ([h cpu] & <- & Hin). exists cpu. now apply Hvalues.
  - intros taken left cpu_taken cpu_left Htaken Hleft Hcpu_taken Hcpu_left.
    rewrite firstn_map in Htaken. rewrite skipn_map in Hleft.
    apply in_map_iff in Htaken. destruct Htaken as ([h1 c1] & <- & Htaken).
    apply in_map_iff in Hleft. destruct Hleft as ([h2 c2] & <- & Hleft).
    cbn [fst] in *.
    assert (Hsorted : StronglySorted (fun a b : string * Z => snd b <= snd a) ordered).
    { apply (StronglySorted_weaken (fun a b => (snd b <=? snd a) = true)).
      - intros a b. apply Z.leb_le.
      - apply (sorted_sorted (fun a b : string * Z => snd b <=? snd a)).
        + intros a b Hab. apply Z.leb_gt in Hab. apply Z.leb_le. lia.
        + intros a b c Hab Hbc. apply Z.leb_le in Hab, Hbc. apply Z.leb_le. lia. }
    pose proof (StronglySorted_firstn_skipn _ n ordered Hsorted _ _ Htaken Hleft)
      as Horder. cbn [snd] in Horder.
    assert (Hc1 : host_processors w h1 = Ok c1).
    { apply Hvalues. eapply Permutation_in; [exact Hperm |].
      apply list_elem_of_In. apply list_elem_of_In in Htaken.
      now apply (subseteq_take n ordered). }
    assert (Hc2 : host_processors w h2 = Ok c2).
    { apply Hvalues. eapply Permutation_in; [exact Hperm |].
      apply list_elem_of_In. apply list_elem_of_In in Hleft.
      now apply (subseteq_drop n ordered). }
    congruence.
Qed.

Lemma scale_down_takes_the_largest_hosts_witness :
  let settings_ := example_settings 2 in
  let w := with_host_processors one_large_host
             (calm_world (timedelta 60) example_instances) in
  let hosts := ["pipeline-97"; "pipeline-98"; "pipeline-99"]%string in
  hosts_to_scale_down settings_ w hosts = Ok ["pipeline-98"%string]
  /\ exists rest,
       Permutation (["pipeline-98"%string] ++ rest) hosts
       /\ forall left cpu_left,
            In left rest -> host_processors w left = Ok cpu_left -> cpu_left <= 8.
Proof.
  intros settings_ w hosts.
  assert (Hbatch : hosts_to_scale_down settings_ w hosts = Ok ["pipeline-98"%string])
    by reflexivity.
  split; [exact Hbatch |].
  destruct (scale_down_takes_the_largest_hosts settings_ w hosts _ Hbatch
              ltac:(discriminate))
    as (rest & Hperm & _ & _ & Horder).
  exists rest. split; [exact Hperm |].
  intros left cpu_left Hleft Hcpu.
  exact (Horder "pipeline-98"%string left 8 cpu_left (or_introl eq_refl) Hleft
           eq_refl Hcpu).
Defined.

(** ** What a scaling adds *)

Lemma validate_loop_valid_jobs (qconf_sp : string -> result string)
    (instance_max_supply cluster_max_supply : resource) (jobs : list job) :
  forall (allocation_rules : gmap string AllocationRule.t)
         (valid_jobs invalid_jobs : list job),
    GridEngineJobValidator.validate_loop qconf_sp instance_max_supply
      cluster_max_supply allocation_rules jobs = Ok (valid_jobs, invalid_jobs) ->
    forall j, In j valid_jobs -> In j jobs.
Proof.
  induction jobs as [|j0 jobs IH]; intros allocation_rules valid_jobs invalid_jobs;
    cbn [GridEngineJobValidator.validate_loop].
  - intros [= <- <-] j [].
  - destruct (cached_allocation_rule _ _ _) as [[rule rules]|e]; cbn [bind];
      [| discriminate].
    destruct (GridEngineJobValidator.validate_loop _ _ _ rules jobs)
      as [[valid invalid]|e] eqn:Hrest; cbn [bind]; [| discriminate].
    specialize (IH _ _ _ Hrest).
    destruct (ComputeResource.gt _ _); intros [= <- <-] j Hin.
    + right. now apply IH.
    + destruct Hin as [<-|Hin]; [now left | right; now apply IH].
Qed.

Local Ltac set_facts := set_unfold; intros; intuition (subst; eauto).

Section ScaleUpFacts.

Variable settings_ : settings.
Variable get_jobs_at : call_site -> result (list job).
Variable w : world.

Lemma get_valid_jobs_valid (jobs valid_jobs : list job) :
  _get_valid_jobs settings_ w jobs = Ok valid_jobs ->
  forall j, In j valid_jobs -> In j jobs.
Proof.
  unfold _get_valid_jobs, GridEngineJobValidator.validate.
  destruct (GridEngineJobValidator.validate_loop _ _ _ _ jobs)
    as [[valid invalid]|e] eqn:Hloop; cbn [bind]; [| discriminate].
  intros Hvalid.
  assert (valid_jobs = valid) as ->.
  { destruct invalid; [congruence |].
    destruct (kill_jobs w _ false); cbn [bind] in Hvalid; congruence. }
  exact (validate_loop_valid_jobs _ _ _ _ _ _ _ Hloop).
Qed.

Lemma lands_dom (report : worker_report) (d : daemon) :
  dom (host_storage (lands report d))
  = dom (host_storage d) ∪ list_to_set (omap pod [report]).
Proof.
  unfold lands. cbn [omap list_omap]. destruct (pod report) as [host|]; cbn [list_to_set].
  - unfold add_host. destruct (host_storage d !! host) as [t|] eqn:Hhost.
    + apply (elem_of_dom_2 (D := gset string)) in Hhost. set_facts.
    + cbn [host_storage with_host_storage]. rewrite dom_insert_L. set_facts.
  - set_facts.
Qed.

Lemma land_all_dom (reports : list worker_report) :
  forall d : daemon,
    dom (host_storage (land_all reports d))
    = dom (host_storage d) ∪ list_to_set (omap pod reports).
Proof.
  unfold land_all.
  induction reports as [|report reports IH]; intros d; cbn [fold_left].
  - cbn. set_facts.
  - rewrite IH, lands_dom. cbn [omap list_omap].
    destruct (pod report); cbn [list_to_set]; set_facts.
Qed.

Lemma update_last_activity_dom (round : nat) (d d' : daemon) :
  _update_last_activity_for_currently_running_jobs get_jobs_at w round d = Ok d' ->
  dom (host_storage d') = dom (host_storage d).
Proof.
  unfold _update_last_activity_for_currently_running_jobs.
  destruct (get_jobs_at (InWaitLoop round)) as [jobs|e]; cbn [bind];
    [| discriminate].
  destruct (List.filter is_running_job jobs); intros [= <-]; [reflexivity |].
  cbn [host_storage with_running_jobs].
  apply update_running_jobs_host_activity_dom.
Qed.

Lemma partition_pods (f : worker_report -> bool) (reports landing running : list worker_report) :
  partition f reports = (landing, running) ->
  (list_to_set (omap pod reports) : gset string)
  = list_to_set (omap pod landing) ∪ list_to_set (omap pod running).
Proof.
  revert landing running.
  induction reports as [|report reports IH]; intros landing running;
    cbn [partition].
  - intros [= <- <-]. cbn. set_facts.
  - destruct (partition f reports) as [l r]. specialize (IH l r eq_refl).
    destruct (f report); intros [= <- <-]; cbn [omap list_omap];
      destruct (pod report); cbn [list_to_set]; rewrite ?IH; set_facts.
Qed.

Lemma wait_loop_dom (rounds : nat) :
  forall (round : nat) (reports : list worker_report) (d : daemon),
    let d' := snd (wait_loop get_jobs_at w rounds round reports d) in
    dom (host_storage d) ⊆ dom (host_storage d')
    /\ dom (host_storage d')
       ⊆ dom (host_storage d) ∪ list_to_set (omap pod reports).
Proof.
  induction rounds as [|rounds IH]; intros round reports d; cbn [wait_loop].
  - cbn [snd]. rewrite land_all_dom. set_facts.
  - destruct (partition _ reports) as [landing running] eqn:Hsplit.
    apply partition_pods in Hsplit.
    pose proof (land_all_dom landing d) as Hlanded.
    destruct (_update_last_activity_for_currently_running_jobs _ _ round _)
      as [d1|e] eqn:Hupdate.
    + apply update_last_activity_dom in Hupdate.
      destruct (IH (S round) running d1) as [Hkeeps Hadds].
      cbn zeta in *. rewrite Hupdate, Hlanded in Hkeeps, Hadds. rewrite Hsplit.
      split.
      * etransitivity; [| exact Hkeeps]. set_facts.
      * etransitivity; [exact Hadds |]. set_facts.
    + cbn [snd host_storage with_setting_up]. rewrite Hlanded, Hsplit. set_facts.
Qed.

Lemma imap_workers (instance_demands : list InstanceDemand) (host : string) :
  host ∈ (list_to_set (omap pod (imap (worker w) instance_demands)) : gset string) ->
  exists n demand,
    instance_demands !! n = Some demand /\ pod (worker w n demand) = Some host.
Proof.
  rewrite elem_of_list_to_set, list_elem_of_omap.
  intros (report & Hreport & Hpod).
  apply elem_of_lookup_imap_1 in Hreport.
  destruct Hreport as (n & demand & -> & Hn). now exists n, demand.
Qed.

Lemma orchestrator_scale_up_dom (resource_demands : list resource)
    (max_batch_size : Z) (d : daemon) :
  let d' := snd (orchestrator_scale_up settings_ get_jobs_at w resource_demands
                   max_batch_size d) in
  dom (host_storage d) ⊆ dom (host_storage d')
  /\ forall host,
       host ∈ dom (host_storage d') -> host ∉ dom (host_storage d) ->
       0 < Z.min (scale_up_batch_size settings_) max_batch_size
       /\ exists n demand,
            Z.of_nat n < Z.min (scale_up_batch_size settings_) max_batch_size
            /\ pod (worker w n demand) = Some host.
Proof.
  unfold orchestrator_scale_up.
  destruct (Z.ltb_spec (Z.min (scale_up_batch_size settings_) max_batch_size) 0)
    as [Hneg|Hstop]; [cbn [snd]; split; [reflexivity | tauto] |].
  destruct (instance_selector_select _ _ _ _ _)
    as [[|x instance_demands]|e] eqn:Hselect; cbn [snd];
    try (split; [reflexivity | tauto]).
  apply instance_selector_select_length in Hselect.
  destruct (wait_loop_dom (wait_rounds w) 0
              (imap (worker w) (x :: instance_demands)) d) as [Hkeeps Hadds].
  cbn zeta in Hkeeps, Hadds.
  destruct (wait_loop _ _ _ _ _ _) as [[u|e] d1]; cbn [snd] in *.
  - cbn [host_storage with_worker_records]. split; [assumption |].
    intros host Hin Hnew.
    assert (Hpod : host ∈ (list_to_set
                     (omap pod (imap (worker w) (x :: instance_demands)))
                     : gset string)).
    { apply Hadds in Hin. apply elem_of_union in Hin. tauto. }
    apply imap_workers in Hpod. destruct Hpod as (n & demand & Hn & Hpod).
    apply lookup_lt_Some in Hn. cbn [length] in *.
    split; [lia |]. exists n, demand. split; [lia | assumption].
  - split; [assumption |]. intros host Hin Hnew.
    assert (Hpod : host ∈ (list_to_set
                     (omap pod (imap (worker w) (x :: instance_demands)))
                     : gset string)).
    { apply Hadds in Hin. apply elem_of_union in Hin. tauto. }
    apply imap_workers in Hpod. destruct Hpod as (n & demand & Hn & Hpod).
    apply lookup_lt_Some in Hn. cbn [length] in *.
    split; [lia |]. exists n, demand. split; [lia | assumption].
Qed.

Lemma scale_down_all_dom (hosts : list string) (d : daemon) :
  dom (host_storage (snd (scale_down_all get_jobs_at w hosts d)))
  ⊆ dom (host_storage d).
Proof.
  intros host. rewrite !elem_of_dom.
  destruct (scale_down_all_lookup get_jobs_at w hosts d host)
    as [->|(_ & _ & ->)]; [tauto |]. intros [? ?]. discriminate.
Qed.

Lemma scale_down_dom (running_jobs : list job) (additional_hosts : list string)
    (scaling_period_start : option Z) (d : daemon) :
  dom (host_storage (snd (_scale_down settings_ get_jobs_at w running_jobs
                            additional_hosts scaling_period_start d)))
  ⊆ dom (host_storage d).
Proof.
  unfold _scale_down.
  destruct (inactive_additional_hosts _ _ _ _ _) as [[|host hosts]|e];
    cbn [snd]; try reflexivity.
  unfold orchestrator_scale_down.
  destruct (hosts_to_scale_down _ _ _) as [hosts'|e]; cbn [snd]; [| reflexivity].
  apply scale_down_all_dom.
Qed.

End ScaleUpFacts.

(** X28. When no handler of an earlier batch is still setting a worker
    up, a host enters the storage during [scale] only when a pending job
    of the listing has waited for [scale_up_timeout] and the storage holds
    fewer than [max_additional_hosts] hosts; it is the pod of one of the
    workers of the batch, which stays within the batch size and within
    the hosts that are left to add; and no host leaves the storage in
    that call. *)
Theorem scale_up_needs_an_expired_job (settings_ : settings)
    (get_jobs_at : call_site -> result (list job)) (w : world) (d : daemon)
    (host : string)
    (Hjoined : setting_up d = [])
    (Hbefore : host_storage d !! host = None)
    (Hafter : is_Some (host_storage (snd (scale settings_ get_jobs_at w d))
                       !! host)) :
  (exists updated_jobs j,
     get_jobs_at InAutoscaler = Ok updated_jobs
     /\ In j updated_jobs
     /\ GridEngineJob.state j = PENDING
     /\ GridEngineJob.datetime j + timedelta (scale_up_timeout settings_) <= now w)
  /\ Z.of_nat (size (host_storage d)) < max_additional_hosts settings_
  /\ (exists n demand,
        Z.of_nat n < scale_up_batch_size settings_
        /\ Z.of_nat (size (host_storage d)) + Z.of_nat n
           < max_additional_hosts settings_
        /\ pod (worker w n demand) = Some host)
  /\ dom (host_storage d)
     ⊆ dom (host_storage (snd (scale settings_ get_jobs_at w d))).
Proof.
  apply (not_elem_of_dom (D := gset string)) in Hbefore.
  apply (elem_of_dom (D := gset string)) in Hafter.
  revert Hafter. unfold scale.
  destruct (get_jobs_at InAutoscaler) as [updated_jobs|e];
    [| cbn [snd]; tauto].
  unfold scale_jobs. rewrite load_hosts_length.
  set (running_jobs := List.filter is_running_job updated_jobs).
  set (d1 := match running_jobs with
             | [] => d
             | _ => with_running_jobs running_jobs (now w)
                      (latest_of running_jobs) d
             end).
  assert (Hd1 : dom (host_storage d1) = dom (host_storage d)).
  { subst d1. destruct running_jobs; [reflexivity |].
    cbn [host_storage with_running_jobs].
    apply update_running_jobs_host_activity_dom. }
  assert (Hdown : forall start,
            host ∈ dom (host_storage
                          (snd (_scale_down settings_ get_jobs_at w running_jobs
                                  (load_hosts (host_storage d)) start d1))) ->
            False).
  { intros start Hin. apply scale_down_dom in Hin. rewrite Hd1 in Hin. tauto. }
  destruct (max_additional_hosts settings_ =? 0);
    [cbn [snd]; rewrite Hd1; tauto |].
  destruct (_get_valid_jobs settings_ w _) as [[|j0 waiting_jobs]|e] eqn:Hvalid;
    cbn [snd]; try (rewrite Hd1; tauto).
  - destruct (latest_running_job d1) as [latest|].
    + destruct (_ <=? now w); cbn [snd]; [| rewrite Hd1; tauto].
      intros Hin. destruct (Hdown _ Hin).
    + intros Hin. destruct (Hdown _ Hin).
  - destruct (List.filter (expired settings_ w) (j0 :: waiting_jobs))
      as [|j expired_jobs] eqn:Hexpired; cbn [snd]; [rewrite Hd1; tauto |].
    destruct (Z.ltb_spec (Z.of_nat (size (host_storage d)))
                (max_additional_hosts settings_)) as [Hroom|Hfull].
    2:{ intros Hin. destruct (Hdown _ Hin). }
    assert (Hj : In j (List.filter (expired settings_ w) (j0 :: waiting_jobs)))
      by (rewrite Hexpired; now left).
    apply filter_In in Hj. destruct Hj as [Hj Hold].
    apply (get_valid_jobs_valid _ _ _ _ Hvalid) in Hj.
    apply filter_In in Hj. destruct Hj as [Hj Hpending].
    unfold expired in Hold. apply Z.leb_le in Hold.
    unfold is_pending_job in Hpending.
    assert (Hstate : GridEngineJob.state j = PENDING)
      by (destruct (GridEngineJob.state j); try discriminate; reflexivity).
    destruct (GridEngineDemandSelector.select _ _ _) as [resource_demands|e];
      cbn [snd]; [| rewrite Hd1; tauto].
    destruct (orchestrator_scale_up_dom settings_ get_jobs_at w resource_demands
                (max_additional_hosts settings_
                 - Z.of_nat (size (host_storage d))) d1) as [Hkeeps Hadds].
    cbn zeta in Hkeeps, Hadds. rewrite Hd1 in Hkeeps, Hadds.
    intros Hin. destruct (Hadds host Hin Hbefore) as (_ & n & demand & Hn & Hpod).
    split; [| split; [| split]].
    + exists updated_jobs, j. repeat split; assumption.
    + assumption.
    + exists n, demand. repeat split; [lia | lia | assumption].
    + assumption.
Qed.

Lemma scale_up_needs_an_expired_job_witness :
  let settings_ := example_settings 2 in
  let w := calm_world (timedelta 60) example_instances in
  let get_jobs_at := fun _ : call_site => Ok [example_job PENDING []] in
  let d := example_daemon {[ "pipeline-99"%string := 0 ]} in
  host_storage (snd (scale settings_ get_jobs_at w d)) !! "pipeline-100"%string
  = Some (timedelta 60)
  /\ Z.of_nat (size (host_storage d)) < max_additional_hosts settings_
  /\ dom (host_storage d) ⊆ dom (host_storage (snd (scale settings_ get_jobs_at w d))).
Proof.
  intros settings_ w get_jobs_at d.
  assert (Hafter : host_storage (snd (scale settings_ get_jobs_at w d))
                     !! "pipeline-100"%string = Some (timedelta 60))
    by (vm_compute; reflexivity).
  split; [exact Hafter |].
  destruct (scale_up_needs_an_expired_job settings_ get_jobs_at w d "pipeline-100"
              eq_refl eq_refl (ex_intro _ _ Hafter))
    as (_ & Hroom & _ & Hkeeps).
  split; [exact Hroom | exact Hkeeps].
Defined.

(** ** The tags of the runs *)

Section TagsFacts.

Import GridEngineWorkerTagsHandler.

Variable tagging_active_timeout : Z.
Variable clock_now : clock_site -> Z.
Variable load_run : string -> result (option (gmap string string)).
Variable update_pipeline_run_tags : string -> gmap string string -> result unit.

Local Abbreviation _add_worker_tag :=
  (_add_worker_tag load_run update_pipeline_run_tags).
Local Abbreviation _remove_worker_tag :=
  (_remove_worker_tag load_run update_pipeline_run_tags).
Local Abbreviation _run_is_active := (_run_is_active tagging_active_timeout clock_now).
Local Abbreviation _untag_run := (_untag_run load_run update_pipeline_run_tags).
Local Abbreviation process_current_host :=
  (process_current_host tagging_active_timeout clock_now load_run
     update_pipeline_run_tags).
Local Abbreviation _process_current_hosts :=
  (_process_current_hosts tagging_active_timeout clock_now load_run
     update_pipeline_run_tags).
Local Abbreviation _process_outdated_hosts :=
  (_process_outdated_hosts load_run update_pipeline_run_tags).

Lemma updates_since_refl P h : updates_since P h h.
Proof. exists []. split; [now rewrite app_nil_r | constructor]. Qed.

Lemma updates_since_trans (P : string * gmap string string -> Prop) h1 h2 h3 :
  updates_since P h1 h2 -> updates_since P h2 h3 -> updates_since P h1 h3.
Proof.
  intros (new1 & Hnew1 & HP1) (new2 & Hnew2 & HP2). exists (new1 ++ new2). split.
  - now rewrite Hnew2, Hnew1, app_assoc.
  - now apply Forall_app.
Qed.

Lemma updates_since_weaken (P Q : string * gmap string string -> Prop) h h' :
  (forall entry, P entry -> Q entry) -> updates_since P h h' -> updates_since Q h h'.
Proof.
  intros Himpl (new & Hnew & HP). exists new. split; [assumption |].
  eapply Forall_impl; [exact HP | exact Himpl].
Qed.

Lemma updates_since_same P h h' :
  tag_updates h' = tag_updates h -> updates_since P h h'.
Proof.
  intros Hsame. exists []. split; [now rewrite app_nil_r | constructor].
Qed.

Lemma add_worker_tag_spec (run_id : string) (h : tags_handler) :
  let h' := snd (_add_worker_tag run_id h) in
  last_monitored_hosts h' = last_monitored_hosts h
  /\ updates_since (fun entry => fst entry = run_id
                                 /\ snd entry !! _WORKER_TAG = Some "true"%string)
       h h'.
Proof.
  unfold GridEngineWorkerTagsHandler._add_worker_tag.
  destruct (load_run run_id) as [run_tags|e]; cbn [snd];
    [| split; [reflexivity | apply updates_since_refl]].
  destruct (update_pipeline_run_tags run_id _) as [u|e]; cbn [snd];
    [| split; [reflexivity | apply updates_since_refl]].
  split; [reflexivity |].
  eexists. split; [reflexivity |]. constructor; [| constructor].
  cbn [fst snd]. split; [reflexivity | apply lookup_insert_eq].
Qed.

Lemma remove_worker_tag_spec (run_id : string) (h : tags_handler) :
  let h' := snd (_remove_worker_tag run_id h) in
  last_monitored_hosts h' = last_monitored_hosts h
  /\ updates_since (fun entry => snd entry !! _WORKER_TAG = None) h h'.
Proof.
  unfold GridEngineWorkerTagsHandler._remove_worker_tag.
  destruct (load_run run_id) as [run_tags|e]; cbn [snd];
    [| split; [reflexivity | apply updates_since_refl]].
  destruct (default ∅ run_tags !! _WORKER_TAG); cbn [snd];
    [| split; [reflexivity | apply updates_since_refl]].
  destruct (update_pipeline_run_tags run_id _) as [u|e]; cbn [snd];
    [| split; [reflexivity | apply updates_since_refl]].
  split; [reflexivity |].
  eexists. split; [reflexivity |]. constructor; [| constructor].
  cbn [snd]. apply lookup_delete_eq.
Qed.

Lemma untag_run_spec (host : string) (timestamp : option Z)
    (marker : option LastActionMarker) (h : tags_handler) :
  let r := fst (_untag_run host timestamp marker h) in
  let h' := snd (_untag_run host timestamp marker h) in
  (forall other, other <> host ->
     last_monitored_hosts h' !! other = last_monitored_hosts h !! other)
  /\ updates_since (fun entry => snd entry !! _WORKER_TAG = None) h h'
  /\ (r = Ok tt ->
      last_monitored_hosts h' !! host
      = match marker with
        | None => None
        | Some _ => Some {| last_action_timestamp := timestamp;
                            last_tag_timestamp := None |}
        end).
Proof.
  unfold GridEngineWorkerTagsHandler._untag_run.
  destruct (remove_worker_tag_spec (get_run_id_from_host host) h)
    as [Hhosts Hupdates]. cbn zeta in Hhosts, Hupdates.
  destruct (_remove_worker_tag (get_run_id_from_host host) h) as [[[]|e] h1];
    cbn [fst snd] in *.
  2:{ split; [intros; now rewrite Hhosts |]. split; [assumption | discriminate]. }
  destruct marker as [m|].
  - cbn [fst snd last_monitored_hosts with_monitored_hosts]. split; [| split].
    + intros other Hother. rewrite lookup_insert_ne by congruence.
      now rewrite Hhosts.
    + assumption.
    + intros _. apply lookup_insert_eq.
  - destruct (last_monitored_hosts h1 !! host) eqn:Hhost;
      cbn [fst snd last_monitored_hosts with_monitored_hosts].
    + split; [| split].
      * intros other Hother. rewrite lookup_delete_ne by congruence.
        now rewrite Hhosts.
      * assumption.
      * intros _. apply lookup_delete_eq.
    + split; [intros; now rewrite Hhosts |]. split; [assumption | discriminate].
Qed.

Lemma process_current_host_spec (hosts_activity : gmap string Z)
    (host : string) (h : tags_handler) :
  let r := fst (process_current_host hosts_activity host h) in
  let h' := snd (process_current_host hosts_activity host h) in
  (forall other, other <> host ->
     last_monitored_hosts h' !! other = last_monitored_hosts h !! other)
  /\ updates_since (tag_of tagging_active_timeout clock_now hosts_activity host h) h h'
  /\ (r = Ok tt ->
      exists timestamp,
        hosts_activity !! host = Some timestamp
        /\ match last_monitored_hosts h !! host with
           | None =>
               last_monitored_hosts h' !! host
               = Some {| last_action_timestamp := None;
                         last_tag_timestamp := None |}
           | Some _ =>
               exists marker,
                 last_monitored_hosts h' !! host = Some marker
                 /\ (tagged marker
                     <-> clock_now (InRunIsActive host)
                         - timedelta tagging_active_timeout < timestamp)
           end).
Proof.
  unfold GridEngineWorkerTagsHandler.process_current_host.
  destruct (hosts_activity !! host) as [timestamp|] eqn:Hactivity; cbn [fst snd].
  2:{ split; [reflexivity |]. split; [apply updates_since_refl | discriminate]. }
  destruct (last_monitored_hosts h !! host) as [marker|] eqn:Hmarker;
    cbn [fst snd].
  2:{ cbn [last_monitored_hosts with_monitored_hosts]. split; [| split].
      - intros other Hother. now rewrite lookup_insert_ne by congruence.
      - now apply updates_since_same.
      - intros _. exists timestamp. split; [reflexivity |]. apply lookup_insert_eq. }
  unfold GridEngineWorkerTagsHandler._run_is_active.
  destruct (Z.ltb_spec (clock_now (InRunIsActive host)
                        - timedelta tagging_active_timeout) timestamp)
    as [Hactive|Hidle].
  - destruct (last_tag_timestamp marker) as [tag|] eqn:Htag; cbn [fst snd].
    + split; [reflexivity |]. split; [apply updates_since_refl |].
      intros _. exists timestamp. split; [reflexivity |].
      exists marker. split; [assumption |]. unfold tagged. rewrite Htag.
      split; [intros _; assumption | intros _; eauto].
    + unfold GridEngineWorkerTagsHandler._tag_run.
      destruct (add_worker_tag_spec (get_run_id_from_host host) h)
        as [Hhosts Hupdates]. cbn zeta in Hhosts, Hupdates.
      assert (Htags : updates_since (tag_of tagging_active_timeout clock_now hosts_activity host h) h
                        (snd (_add_worker_tag (get_run_id_from_host host) h))).
      { eapply updates_since_weaken; [| exact Hupdates].
        intros entry [Hrun Htrue] _. split; [assumption |].
        split; [assumption |]. exists timestamp, marker. now repeat split. }
      destruct (_add_worker_tag (get_run_id_from_host host) h) as [[[]|e] h1];
        cbn [fst snd] in *.
      * cbn [last_monitored_hosts with_monitored_hosts]. split; [| split].
        -- intros other Hother. rewrite lookup_insert_ne by congruence.
           now rewrite Hhosts.
        -- assumption.
        -- intros _. exists timestamp. split; [reflexivity |].
           eexists. split; [apply lookup_insert_eq |]. unfold tagged. cbn.
           split; [intros _; assumption | intros _; eauto].
      * split; [intros; now rewrite Hhosts |]. split; [assumption | discriminate].
  - destruct (last_tag_timestamp marker) as [tag|] eqn:Htag; cbn [fst snd].
    + destruct (untag_run_spec host (Some timestamp) (Some marker) h)
        as (Hothers & Hupdates & Hhost). cbn zeta in Hothers, Hupdates, Hhost.
      split; [assumption |]. split.
      * eapply updates_since_weaken; [| exact Hupdates].
        intros entry Hnone [tag' Hsome]. congruence.
      * intros Hok. exists timestamp. split; [reflexivity |].
        eexists. split; [exact (Hhost Hok) |]. unfold tagged. cbn.
        split; [intros [? [=]] | lia].
    + split; [reflexivity |]. split; [apply updates_since_refl |].
      intros _. exists timestamp. split; [reflexivity |].
      exists marker. split; [assumption |]. unfold tagged. rewrite Htag.
      split; [intros [? [=]] | lia].
Qed.

Lemma process_current_hosts_spec (hosts_activity : gmap string Z)
    (hosts : list string) :
  NoDup hosts ->
  forall h : tags_handler,
    let r := fst (_process_current_hosts hosts hosts_activity h) in
    let h' := snd (_process_current_hosts hosts hosts_activity h) in
    (forall other, ~ In other hosts ->
       last_monitored_hosts h' !! other = last_monitored_hosts h !! other)
    /\ updates_since
         (fun entry => is_Some (snd entry !! _WORKER_TAG) ->
                       exists host, In host hosts
                                    /\ tag_of tagging_active_timeout clock_now hosts_activity host h entry)
         h h'
    /\ (r = Ok tt ->
        forall host, In host hosts ->
          exists timestamp,
            hosts_activity !! host = Some timestamp
            /\ match last_monitored_hosts h !! host with
               | None =>
                   last_monitored_hosts h' !! host
                   = Some {| last_action_timestamp := None;
                             last_tag_timestamp := None |}
               | Some _ =>
                   exists marker,
                     last_monitored_hosts h' !! host = Some marker
                     /\ (tagged marker
                         <-> clock_now (InRunIsActive host)
                             - timedelta tagging_active_timeout < timestamp)
               end).
Proof.
  induction 1 as [|host hosts Hfresh Hnodup IH]; intros h;
    cbn [GridEngineWorkerTagsHandler._process_current_hosts].
  - cbn [fst snd]. split; [reflexivity |].
    split; [apply updates_since_refl | intros _ host []].
  - rewrite list_elem_of_In in Hfresh.
    destruct (process_current_host_spec hosts_activity host h)
      as (Hothers & Hupdates & Hhost). cbn zeta in Hothers, Hupdates, Hhost.
    destruct (process_current_host hosts_activity host h) as [[[]|e] h1];
      cbn [fst snd] in *.
    + destruct (IH h1) as (Hothers' & Hupdates' & Hhosts'). cbn zeta in *.
      split; [| split].
      * intros other Hother. rewrite Hothers'.
        -- apply Hothers. intros ->. apply Hother. now left.
        -- intros Hin. apply Hother. now right.
      * eapply updates_since_trans.
        -- eapply updates_since_weaken; [| exact Hupdates].
           intros entry Htag Hsome. exists host. split; [now left | assumption].
        -- eapply updates_since_weaken; [| exact Hupdates'].
           intros entry Htag Hsome. destruct (Htag Hsome) as (host' & Hin & Htag').
           exists host'. split; [now right |].
           intros _. destruct (Htag' Hsome) as (Hrun & Htrue & t & m & Ht & Hactive & Hm & Hno).
           split; [assumption |]. split; [assumption |].
           exists t, m. repeat split; try assumption.
           rewrite <- Hothers; [assumption |]. intros ->. tauto.
      * intros Hok host' [<-|Hin].
        -- destruct (Hhost eq_refl) as (t & Ht & Hpost). exists t.
           split; [assumption |].
           rewrite Hothers' by assumption. exact Hpost.
        -- destruct (Hhosts' Hok host' Hin) as (t & Ht & Hpost). exists t.
           split; [assumption |].
           rewrite <- Hothers; [exact Hpost |]. intros ->. tauto.
    + split; [| split].
      * intros other Hother. apply Hothers. intros ->. apply Hother. now left.
      * eapply updates_since_weaken; [| exact Hupdates].
        intros entry Htag Hsome. exists host. split; [now left | assumption].
      * discriminate.
Qed.

Lemma process_outdated_hosts_spec (current_hosts monitored_hosts : list string) :
  NoDup monitored_hosts ->
  forall h : tags_handler,
    let r := fst (_process_outdated_hosts monitored_hosts current_hosts h) in
    let h' := snd (_process_outdated_hosts monitored_hosts current_hosts h) in
    (forall other, In other current_hosts \/ ~ In other monitored_hosts ->
       last_monitored_hosts h' !! other = last_monitored_hosts h !! other)
    /\ updates_since (fun entry => snd entry !! _WORKER_TAG = None) h h'
    /\ (r = Ok tt ->
        forall host, In host monitored_hosts -> ~ In host current_hosts ->
          last_monitored_hosts h' !! host = None).
Proof.
  induction 1 as [|host hosts Hfresh Hnodup IH]; intros h;
    cbn [GridEngineWorkerTagsHandler._process_outdated_hosts].
  - cbn [fst snd]. split; [reflexivity |].
    split; [apply updates_since_refl | intros _ host []].
  - rewrite list_elem_of_In in Hfresh.
    assert (Hrest : forall other,
              In other current_hosts \/ ~ In other (host :: hosts) ->
              In other current_hosts \/ ~ In other hosts).
    { intros other [Hin|Hout]; [now left | right].
      intros Hin. apply Hout. now right. }
    destruct (bool_decide_reflect (host ∈ current_hosts)) as [Hcurrent|Hgone].
    + apply list_elem_of_In in Hcurrent.
      destruct (IH h) as (Hothers & Hupdates & Hhosts). cbn zeta in *.
      split; [| split].
      * intros other Hother. apply Hothers, Hrest, Hother.
      * assumption.
      * intros Hok host' [<-|Hin] Hout; [tauto | now apply Hhosts].
    + rewrite list_elem_of_In in Hgone.
      destruct (untag_run_spec host None None h) as (Hothers & Hupdates & Hhost).
      cbn zeta in Hothers, Hupdates, Hhost.
      destruct (_untag_run host None None h) as [[[]|e] h1]; cbn [fst snd] in *.
      * destruct (IH h1) as (Hothers' & Hupdates' & Hhosts'). cbn zeta in *.
        split; [| split].
        -- intros other Hother. rewrite Hothers' by apply Hrest, Hother.
           apply Hothers. intros ->. destruct Hother as [Hin|Hout]; [tauto |].
           apply Hout. now left.
        -- eapply updates_since_trans; eassumption.
        -- intros Hok host' [<-|Hin] Hout.
           ++ rewrite Hothers' by (right; assumption). now apply Hhost.
           ++ now apply Hhosts'.
      * split; [| split].
        -- intros other Hother. apply Hothers. intros ->.
           destruct Hother as [Hin|Hout]; [tauto |]. apply Hout. now left.
        -- assumption.
        -- discriminate.
Qed.

End TagsFacts.

Lemma get_hosts_activity_stored {T : Type} (hosts : list string)
    (storage hosts_activity : gmap string T) :
  get_hosts_activity hosts storage = Ok hosts_activity ->
  forall host, In host hosts -> is_Some (storage !! host).
Proof.
  revert hosts_activity.
  induction hosts as [|h hosts IH]; intros hosts_activity; cbn [get_hosts_activity];
    [intros _ host [] |].
  destruct (storage !! h) as [t|] eqn:Hh; [| discriminate].
  destruct (get_hosts_activity hosts storage) as [activity|e]; cbn [bind];
    [| discriminate].
  intros _ host [<-|Hin]; [eauto | now apply (IH activity)].
Qed.

Lemma load_hosts_In {T : Type} (storage : gmap string T) (host : string) :
  In host (load_hosts storage) <-> is_Some (storage !! host).
Proof.
  unfold load_hosts. rewrite <- list_elem_of_In, list_elem_of_fmap. split.
  - intros ([h t] & -> & Hin). apply elem_of_map_to_list in Hin. eauto.
  - intros [t Ht]. exists (host, t). split; [reflexivity |].
    now apply elem_of_map_to_list.
Qed.

Lemma load_hosts_NoDup {T : Type} (storage : gmap string T) :
  NoDup (load_hosts storage).
Proof. apply NoDup_fst_map_to_list. Qed.

Lemma tags_hosts_activity (host_storage static_host_storage : gmap string Z)
    (static_hosts : list string) (hosts_activity static_hosts_activity : gmap string Z) :
  get_hosts_activity (load_hosts host_storage) host_storage = Ok hosts_activity ->
  get_hosts_activity static_hosts static_host_storage = Ok static_hosts_activity ->
  forall host,
    (static_hosts_activity ∪ hosts_activity) !! host
    = last_activity host_storage static_host_storage static_hosts host.
Proof.
  intros Hadditional Hstatic host. unfold last_activity.
  rewrite lookup_union.
  rewrite (get_hosts_activity_lookup _ _ _ Hstatic host).
  rewrite (get_hosts_activity_lookup _ _ _ Hadditional host).
  destruct (bool_decide_reflect (host ∈ static_hosts)) as [Hin|Hout].
  - apply list_elem_of_In in Hin.
    destruct (get_hosts_activity_stored _ _ _ Hstatic host Hin) as [t ->].
    now destruct (if bool_decide _ then _ else _).
  - destruct (bool_decide_reflect (host ∈ load_hosts host_storage)) as [Hin|Hnew].
    + now destruct (host_storage !! host).
    + rewrite list_elem_of_In, load_hosts_In in Hnew.
      destruct (host_storage !! host) eqn:Hhost; [| reflexivity].
      exfalso. apply Hnew. eauto.
Qed.

(** X29. When no host is listed twice and a round of [process_tags] meets
    no exception, the hosts it monitors afterwards are the current ones;
    a host met for the first time gets an empty marker, and is not tagged
    in that round; a host monitored before is marked as tagged exactly
    when its last activity is less than [tagging_active_timeout] old. *)
Theorem tags_follow_the_activity (tagging_active_timeout : Z)
    (clock_now : clock_site -> Z)
    (load_run : string -> result (option (gmap string string)))
    (update_pipeline_run_tags : string -> gmap string string -> result unit)
    (host_storage static_host_storage : gmap string Z)
    (static_hosts : list string) (h : tags_handler)
    (Hdistinct : NoDup (load_hosts host_storage ++ static_hosts))
    (Hdone : fst (GridEngineWorkerTagsHandler.try_process_tags
                    tagging_active_timeout clock_now load_run
                    update_pipeline_run_tags host_storage static_host_storage
                    static_hosts h) = Ok tt) :
  let h' := GridEngineWorkerTagsHandler.process_tags tagging_active_timeout
              clock_now load_run update_pipeline_run_tags host_storage
              static_host_storage static_hosts h in
  let current_hosts := load_hosts host_storage ++ static_hosts in
  (forall host,
     is_Some (last_monitored_hosts h' !! host) <-> In host current_hosts)
  /\ (forall host,
        In host current_hosts -> last_monitored_hosts h !! host = None ->
        last_monitored_hosts h' !! host
        = Some {| last_action_timestamp := None; last_tag_timestamp := None |})
  /\ (forall host,
        In host current_hosts -> is_Some (last_monitored_hosts h !! host) ->
        exists timestamp marker,
          last_activity host_storage static_host_storage static_hosts host
          = Some timestamp
          /\ last_monitored_hosts h' !! host = Some marker
          /\ (tagged marker
              <-> clock_now (InRunIsActive host)
                  - timedelta tagging_active_timeout < timestamp)).
Proof.
  intros h' current_hosts. subst h'.
  unfold GridEngineWorkerTagsHandler.process_tags.
  revert Hdone. unfold GridEngineWorkerTagsHandler.try_process_tags.
  destruct (get_hosts_activity (load_hosts host_storage) host_storage)
    as [hosts_activity|e] eqn:Hadditional; [| discriminate].
  destruct (get_hosts_activity static_hosts static_host_storage)
    as [static_hosts_activity|e] eqn:Hstatic; [| discriminate].
  pose proof (tags_hosts_activity _ _ _ _ _ Hadditional Hstatic) as Hactivity.
  fold current_hosts.
  destruct (process_current_hosts_spec tagging_active_timeout clock_now load_run
              update_pipeline_run_tags (static_hosts_activity ∪ hosts_activity)
              current_hosts Hdistinct h) as (Hothers & _ & Hcurrent).
  cbn zeta in Hothers, Hcurrent.
  destruct (GridEngineWorkerTagsHandler._process_current_hosts _ _ _ _
              current_hosts _ h) as [[[]|e] h1]; cbn [fst snd] in *;
    [| discriminate].
  specialize (Hcurrent eq_refl).
  destruct (process_outdated_hosts_spec load_run update_pipeline_run_tags
              current_hosts (map fst (map_to_list (last_monitored_hosts h)))
              (NoDup_fst_map_to_list _) h1) as (Hkept & _ & Hgone).
  cbn zeta in Hkept, Hgone.
  intros Hdone. specialize (Hgone Hdone).
  assert (Hstays : forall host, In host current_hosts ->
            last_monitored_hosts
              (snd (GridEngineWorkerTagsHandler._process_outdated_hosts load_run
                      update_pipeline_run_tags
                      (map fst (map_to_list (last_monitored_hosts h)))
                      current_hosts h1)) !! host
            = last_monitored_hosts h1 !! host).
  { intros host Hin. apply Hkept. now left. }
  split; [| split].
  - intros host. split.
    + intros Hsome.
      destruct (in_dec string_dec host current_hosts) as [Hin|Hout]; [assumption |].
      exfalso.
      destruct (last_monitored_hosts h !! host) as [marker|] eqn:Hbefore.
      * rewrite Hgone in Hsome; [now destruct Hsome | | assumption].
        apply (proj2 (load_hosts_In (last_monitored_hosts h) host)). eauto.
      * rewrite Hkept, Hothers, Hbefore in Hsome by
          (try assumption; right; intros Hin;
           apply (proj1 (load_hosts_In (last_monitored_hosts h) host)) in Hin;
           rewrite Hbefore in Hin; now destruct Hin).
        now destruct Hsome.
    + intros Hin. rewrite (Hstays host Hin).
      destruct (Hcurrent host Hin) as (t & _ & Hpost).
      destruct (last_monitored_hosts h !! host).
      * destruct Hpost as (marker & -> & _). eauto.
      * rewrite Hpost. eauto.
  - intros host Hin Hnew. rewrite (Hstays host Hin).
    destruct (Hcurrent host Hin) as (t & _ & Hpost). now rewrite Hnew in Hpost.
  - intros host Hin [before Hbefore]. rewrite (Hstays host Hin).
    destruct (Hcurrent host Hin) as (t & Ht & Hpost). rewrite Hbefore in Hpost.
    destruct Hpost as (marker & Hmarker & Htagged).
    exists t, marker. rewrite <- Hactivity.
    split; [exact Ht |]. split; [exact Hmarker | exact Htagged].
Qed.

(** X30. When no host is listed twice, every call of
    [update_pipeline_run_tags] of a round of [process_tags] that carries
    the tag [SGE_IN_USE] sets it to [true] on the run of a current host
    that was monitored and not tagged before the round and whose last
    activity is less than [tagging_active_timeout] old; and this whether
    the round ends with an exception or not. *)
Theorem only_active_hosts_are_tagged (tagging_active_timeout : Z)
    (clock_now : clock_site -> Z)
    (load_run : string -> result (option (gmap string string)))
    (update_pipeline_run_tags : string -> gmap string string -> result unit)
    (host_storage static_host_storage : gmap string Z)
    (static_hosts : list string) (h : tags_handler)
    (Hdistinct : NoDup (load_hosts host_storage ++ static_hosts)) :
  let h' := GridEngineWorkerTagsHandler.process_tags tagging_active_timeout
              clock_now load_run update_pipeline_run_tags host_storage
              static_host_storage static_hosts h in
  exists new,
    tag_updates h' = tag_updates h ++ new
    /\ forall run_id tags,
         In (run_id, tags) new ->
         is_Some (tags !! GridEngineWorkerTagsHandler._WORKER_TAG) ->
         tags !! GridEngineWorkerTagsHandler._WORKER_TAG = Some "true"%string
         /\ exists host timestamp marker,
              In host (load_hosts host_storage ++ static_hosts)
              /\ run_id = get_run_id_from_host host
              /\ last_activity host_storage static_host_storage static_hosts host
                 = Some timestamp
              /\ clock_now (InRunIsActive host)
                 - timedelta tagging_active_timeout < timestamp
              /\ last_monitored_hosts h !! host = Some marker
              /\ ~ tagged marker.
Proof.
  intros h'. subst h'.
  unfold GridEngineWorkerTagsHandler.process_tags,
    GridEngineWorkerTagsHandler.try_process_tags.
  destruct (get_hosts_activity (load_hosts host_storage) host_storage)
    as [hosts_activity|e] eqn:Hadditional;
    [| exists []; split; [now rewrite app_nil_r | intros ? ? []]].
  destruct (get_hosts_activity static_hosts static_host_storage)
    as [static_hosts_activity|e] eqn:Hstatic;
    [| exists []; split; [now rewrite app_nil_r | intros ? ? []]].
  pose proof (tags_hosts_activity _ _ _ _ _ Hadditional Hstatic) as Hactivity.
  set (current_hosts := load_hosts host_storage ++ static_hosts) in *.
  destruct (process_current_hosts_spec tagging_active_timeout clock_now load_run
              update_pipeline_run_tags (static_hosts_activity ∪ hosts_activity)
              current_hosts Hdistinct h) as (_ & Hupdates & _).
  cbn zeta in Hupdates.
  set (justified := fun entry : string * gmap string string =>
         is_Some (snd entry !! GridEngineWorkerTagsHandler._WORKER_TAG) ->
         exists host, In host current_hosts
                      /\ tag_of tagging_active_timeout clock_now
                           (static_hosts_activity ∪ hosts_activity) host h entry)
    in *.
  assert (Hall : updates_since justified h
            (snd match GridEngineWorkerTagsHandler._process_current_hosts
                         tagging_active_timeout clock_now load_run
                         update_pipeline_run_tags current_hosts
                         (static_hosts_activity ∪ hosts_activity) h with
                 | (Ok _, h1) =>
                     GridEngineWorkerTagsHandler._process_outdated_hosts load_run
                       update_pipeline_run_tags
                       (map fst (map_to_list (last_monitored_hosts h)))
                       current_hosts h1
                 | (Raise e, h1) => (Raise e, h1)
                 end)).
  { destruct (GridEngineWorkerTagsHandler._process_current_hosts _ _ _ _
                current_hosts _ h) as [[[]|e] h1]; cbn [fst snd] in *;
      [| assumption].
    destruct (process_outdated_hosts_spec load_run update_pipeline_run_tags
                current_hosts (map fst (map_to_list (last_monitored_hosts h)))
                (NoDup_fst_map_to_list _) h1) as (_ & Hupdates' & _).
    cbn zeta in Hupdates'.
    eapply updates_since_trans; [exact Hupdates |].
    eapply updates_since_weaken; [| exact Hupdates'].
    intros entry Hnone [tag Hsome]. congruence. }
  destruct Hall as (new & Hnew & Hjustified).
  exists new. split; [exact Hnew |].
  intros run_id tags Hin Hsome.
  rewrite Forall_forall in Hjustified.
  apply list_elem_of_In in Hin.
  destruct (Hjustified _ Hin Hsome) as (host & Hhost & Htag).
  destruct (Htag Hsome) as (Hrun & Htrue & t & marker & Ht & Hactive & Hmarker & Hno).
  cbn [fst snd] in *. split; [assumption |].
  exists host, t, marker. rewrite <- Hactivity.
  repeat split; try assumption.
  unfold tagged. rewrite Hno. intros [? [=]].
Qed.

Lemma tags_follow_the_activity_witness :
  let h' := GridEngineWorkerTagsHandler.process_tags 30 (fun _ => timedelta 110)
              (fun _ => Ok None) (fun _ _ => Ok tt) example_tagged_hosts ∅ []
              example_tags_handler in
  (exists marker,
     last_monitored_hosts h' !! "pipeline-101"%string = Some marker
     /\ tagged marker)
  /\ last_monitored_hosts h' !! "pipeline-102"%string
     = Some {| last_action_timestamp := None; last_tag_timestamp := None |}.
Proof.
  intros h'.
  assert (Hdistinct : NoDup (load_hosts example_tagged_hosts ++ [])).
  { rewrite app_nil_r. apply NoDup_fst_map_to_list. }
  assert (Hdone : fst (GridEngineWorkerTagsHandler.try_process_tags 30
                         (fun _ => timedelta 110) (fun _ => Ok None)
                         (fun _ _ => Ok tt) example_tagged_hosts ∅ []
                         example_tags_handler) = Ok tt)
    by (vm_compute; reflexivity).
  destruct (tags_follow_the_activity 30 (fun _ => timedelta 110)
              (fun _ => Ok None) (fun _ _ => Ok tt) example_tagged_hosts ∅ []
              example_tags_handler Hdistinct Hdone)
    as (_ & Hnew & Hold).
  split.
  - destruct (Hold "pipeline-101"%string) as (t & marker & Ht & Hmarker & Htagged).
    + vm_compute. tauto.
    + vm_compute. eauto.
    + exists marker. split; [exact Hmarker |]. apply Htagged.
      vm_compute in Ht. injection Ht as <-. reflexivity.
  - apply Hnew; [vm_compute; tauto | vm_compute; reflexivity].
Defined.

Lemma only_active_hosts_are_tagged_witness :
  let h' := GridEngineWorkerTagsHandler.process_tags 30 (fun _ => timedelta 110)
              (fun _ => Ok None) (fun _ _ => Ok tt) example_tagged_hosts ∅ []
              example_tags_handler in
  map fst (tag_updates h') = ["101"%string]
  /\ exists new,
       tag_updates h' = tag_updates example_tags_handler ++ new
       /\ forall run_id tags,
            In (run_id, tags) new ->
            is_Some (tags !! GridEngineWorkerTagsHandler._WORKER_TAG) ->
            exists host, run_id = get_run_id_from_host host
                         /\ is_Some (example_tagged_hosts !! host).
Proof.
  intros h'.
  assert (Hdistinct : NoDup (load_hosts example_tagged_hosts ++ [])).
  { rewrite app_nil_r. apply NoDup_fst_map_to_list. }
  split; [vm_compute; reflexivity |].
  destruct (only_active_hosts_are_tagged 30 (fun _ => timedelta 110)
              (fun _ => Ok None) (fun _ _ => Ok tt) example_tagged_hosts ∅ []
              example_tags_handler Hdistinct)
    as (new & Hnew & Hjustified).
  exists new. split; [exact Hnew |].
  intros run_id tags Hin Hsome.
  destruct (Hjustified run_id tags Hin Hsome)
    as (_ & host & t & marker & Hhost & Hrun & _).
  exists host. split; [exact Hrun |].
  rewrite app_nil_r in Hhost.
  exact (proj1 (load_hosts_In example_tagged_hosts host) Hhost).
Defined.

(** ** A failing [qstat] *)

Section QstatFailure.

Variable settings_ : settings.
Variable w : world.

(** The jobs of a listing. *)
Variable jobs : list job.

Lemma no_job_on_host (host : string) :
  (forall j, In j jobs -> ~ In host (GridEngineJob.hosts j)) ->
  List.filter (on_host host) jobs = [].
Proof.
  intros Hoff. induction jobs as [|j jobs' IH]; [reflexivity |].
  cbn [List.filter]. unfold on_host at 1.
  rewrite bool_decide_eq_false_2.
  - apply IH. intros j' Hin. apply Hoff. now right.
  - rewrite list_elem_of_In. apply Hoff. now left.
Qed.

Let listed : call_site -> result (list job) := fun _ => Ok jobs.
Let nothing : call_site -> result (list job) := fun _ => Ok [].

(** No job of the listing is on [host]. *)
Let off (host : string) : Prop :=
  forall j, In j jobs -> ~ In host (GridEngineJob.hosts j).

Lemma reap_all_no_job (hosts : list string) :
  Forall off hosts ->
  forall d, reap_all listed w hosts d = reap_all nothing w hosts d.
Proof.
  induction 1 as [|host hosts Hoff Hall IH]; intros d; [reflexivity |].
  cbn [reap_all].
  assert (Hreap : reap listed w host (host_storage d)
                  = reap nothing w host (host_storage d)).
  { unfold reap, _try_kill_invalid_host_jobs, listed, nothing. cbn [bind].
    now rewrite (no_job_on_host host Hoff). }
  rewrite Hreap. destruct (reap nothing w host (host_storage d)); [apply IH | reflexivity].
Qed.

Lemma invalid_hosts_subset (hosts invalid : list string) :
  invalid_hosts w hosts = Ok invalid ->
  forall host, In host invalid -> In host hosts.
Proof.
  intros Hinvalid host Hin.
  apply invalid_hosts_filter in Hinvalid. destruct Hinvalid as [_ Hiff].
  apply list_elem_of_In. apply list_elem_of_In in Hin. now apply Hiff in Hin.
Qed.

Lemma validate_no_job (d : daemon) :
  (forall host, is_Some (host_storage d !! host) -> off host) ->
  validate listed w d = validate nothing w d.
Proof.
  intros Hoff. unfold validate.
  destruct (load_hosts (host_storage d)) as [|h hosts] eqn:Hhosts; [reflexivity |].
  destruct (invalid_hosts w (h :: hosts)) as [invalid|e] eqn:Hinvalid;
    [| reflexivity].
  apply reap_all_no_job. apply List.Forall_forall. intros host Hin.
  apply Hoff, load_hosts_In. rewrite Hhosts.
  exact (invalid_hosts_subset _ _ Hinvalid host Hin).
Qed.

Lemma reap_all_stored (get_jobs_at : call_site -> result (list job))
    (hosts : list string) :
  forall d host,
    is_Some (host_storage (snd (reap_all get_jobs_at w hosts d)) !! host) ->
    is_Some (host_storage d !! host).
Proof.
  induction hosts as [|h hosts IH]; intros d host; cbn [reap_all]; [tauto |].
  destruct (reap get_jobs_at w h (host_storage d)) as [storage|e] eqn:Hreap;
    [| tauto].
  intros Hsome. apply IH in Hsome. cbn [host_storage with_host_storage] in Hsome.
  unfold reap in Hreap.
  destruct (_try_kill_invalid_host_jobs get_jobs_at w h); [| discriminate].
  destruct (delete_host w h true); [| discriminate].
  destruct (remove_from_hosts w h); [| discriminate].
  cbn [bind] in Hreap. unfold remove_host in Hreap.
  destruct (host_storage d !! h); [| discriminate].
  injection Hreap as <-.
  destruct (decide (h = host)) as [->|Hne].
  - rewrite lookup_delete_eq in Hsome. now destruct Hsome.
  - now rewrite lookup_delete_ne in Hsome.
Qed.

Lemma validate_stored (get_jobs_at : call_site -> result (list job))
    (d : daemon) (host : string) :
  is_Some (host_storage (snd (validate get_jobs_at w d)) !! host) ->
  is_Some (host_storage d !! host).
Proof.
  unfold validate. destruct (load_hosts (host_storage d)); [tauto |].
  destruct (invalid_hosts w _); [apply reap_all_stored | tauto].
Qed.

Lemma scale_down_all_no_job (hosts : list string) :
  Forall off hosts ->
  forall d, scale_down_all listed w hosts d = scale_down_all nothing w hosts d.
Proof.
  induction 1 as [|host hosts Hoff Hall IH]; intros d; [reflexivity |].
  cbn [scale_down_all].
  assert (Hhandler : scale_down_handler listed w host
                     = scale_down_handler nothing w host).
  { unfold scale_down_handler, listed, nothing.
    destruct (qmod_disable w host); [| reflexivity]. cbn [bind].
    now rewrite (no_job_on_host host Hoff). }
  rewrite Hhandler.
  destruct (scale_down_handler nothing w host) as [[|]|e]; [| apply IH | reflexivity].
  destruct (remove_host host (host_storage d)); [apply IH | reflexivity].
Qed.

Lemma scale_down_no_job (running_jobs : list job) (additional_hosts : list string)
    (scaling_period_start : option Z) (d : daemon) :
  (forall host, In host additional_hosts -> off host) ->
  _scale_down settings_ listed w running_jobs additional_hosts
    scaling_period_start d
  = _scale_down settings_ nothing w running_jobs additional_hosts
      scaling_period_start d.
Proof.
  intros Hoff. unfold _scale_down.
  destruct (inactive_additional_hosts settings_ running_jobs additional_hosts
              scaling_period_start d) as [[|h hosts]|e] eqn:Hinactive;
    [reflexivity | | reflexivity].
  assert (Hcandidates : forall host, In host (h :: hosts) -> In host additional_hosts).
  { intros host Hin. unfold inactive_additional_hosts in Hinactive.
    set (inactive := List.filter _ additional_hosts) in Hinactive.
    assert (Hinactive_in : forall host, In host inactive -> In host additional_hosts)
      by (intros host' Hin'; apply filter_In in Hin'; tauto).
    destruct inactive as [|a inactive'] eqn:Hlist; [discriminate |].
    destruct scaling_period_start as [start|].
    - apply Hinactive_in.
      exact (proj1 (filter_valid_idle_hosts_idle settings_ _ _ _ _ Hinactive
                      host Hin)).
    - injection Hinactive as <- <-. now apply Hinactive_in. }
  unfold orchestrator_scale_down.
  destruct (hosts_to_scale_down settings_ w (h :: hosts)) as [batch|e] eqn:Hbatch;
    [| reflexivity].
  apply scale_down_all_no_job. apply List.Forall_forall. intros host Hin.
  apply Hoff, Hcandidates.
  exact (proj1 (hosts_to_scale_down_batch settings_ w _ _ Hbatch) host Hin).
Qed.

Lemma scale_jobs_no_job (d : daemon) :
  List.filter is_running_job jobs = [] ->
  List.filter is_pending_job jobs = [] ->
  (forall host, is_Some (host_storage d !! host) -> off host) ->
  scale_jobs settings_ listed w jobs d = scale_jobs settings_ nothing w [] d.
Proof.
  intros Hrunning Hpending Hoff. unfold scale_jobs.
  rewrite Hrunning, Hpending. cbn [List.filter].
  destruct (max_additional_hosts settings_ =? 0); [reflexivity |].
  assert (Hdown : forall start,
            _scale_down settings_ listed w [] (load_hosts (host_storage d)) start d
            = _scale_down settings_ nothing w [] (load_hosts (host_storage d))
                start d).
  { intros start. apply scale_down_no_job. intros host Hin.
    now apply Hoff, load_hosts_In. }
  destruct (_get_valid_jobs settings_ w []) as [[|j waiting_jobs]|e] eqn:Hvalid.
  - destruct (latest_running_job d); [| apply Hdown].
    destruct (_ <=? now w); [apply Hdown | reflexivity].
  - unfold _get_valid_jobs, GridEngineJobValidator.validate in Hvalid.
    cbn in Hvalid. discriminate.
  - reflexivity.
Qed.

Lemma tick_no_job (d : daemon) :
  List.filter is_running_job jobs = [] ->
  List.filter is_pending_job jobs = [] ->
  (forall host, is_Some (host_storage d !! host) -> off host) ->
  tick settings_ listed w d = tick settings_ nothing w d.
Proof.
  intros Hrunning Hpending Hoff. unfold tick.
  rewrite (validate_no_job d Hoff).
  pose proof (validate_stored nothing d) as Hstored.
  destruct (validate nothing w d) as [[[]|e] d1]; [| reflexivity].
  cbn [snd] in Hstored. unfold scale. unfold listed at 1, nothing at 2.
  f_equal. apply scale_jobs_no_job; [assumption .. |].
  intros host Hsome. apply Hoff, Hstored, Hsome.
Qed.

End QstatFailure.

(** C10. When [qstat] fails with [ExecutionError], [get_jobs] returns the
    empty list instead of raising.  A tick in which [qstat] fails is the
    tick of a listing without pending and without running jobs in which,
    moreover, no job is on a host of the storage: the tick of a listing
    without any job, for one.  (The autoscaler looks at the pending and
    at the running jobs only; the worker validator and the scale-down
    handler look for jobs of any state on a host.) *)
Theorem C10_qstat_failure_is_no_job
    (jobs_of_listing : string -> result (list job)) (settings_ : settings)
    (w : world) (d : daemon) (output : string) (jobs : list job)
    (Hlisting : jobs_of_listing output = Ok jobs)
    (Hrunning : List.filter is_running_job jobs = [])
    (Hpending : List.filter is_pending_job jobs = [])
    (Hhosts : forall j host,
       In j jobs -> In host (GridEngineJob.hosts j) ->
       host_storage d !! host = None) :
  get_jobs jobs_of_listing (Raise ExecutionError) = Ok []
  /\ daemon_tick jobs_of_listing settings_ (fun _ => Raise ExecutionError) w d
     = daemon_tick jobs_of_listing settings_ (fun _ => Ok output) w d
  /\ forall get_jobs_at updated_jobs,
       List.filter is_running_job updated_jobs = [] ->
       List.filter is_pending_job updated_jobs = [] ->
       scale_jobs settings_ get_jobs_at w updated_jobs d
       = scale_jobs settings_ get_jobs_at w [] d.
Proof.
  split; [reflexivity | split].
  - unfold daemon_tick. cbn [get_jobs]. rewrite Hlisting. symmetry.
    apply tick_no_job; [assumption .. |].
    intros host [t Hstored] j Hj Hhost.
    rewrite (Hhosts j host Hj Hhost) in Hstored. discriminate.
  - intros get_jobs_at updated_jobs Hrunning' Hpending'.
    unfold scale_jobs. rewrite Hrunning', Hpending'. reflexivity.
Qed.

(** A listing with one suspended job on a host that is not an additional
    one: the idle host [pipeline-99] is scaled down, as it is when
    [qstat] fails. *)
Lemma C10_qstat_failure_is_no_job_witness :
  let jobs_of_listing := fun _ : string =>
    Ok [example_job SUSPENDED ["pipeline-7"%string]] in
  let settings_ := example_settings 2 in
  let w := calm_world (timedelta 60) example_instances in
  let d := example_daemon {[ "pipeline-99"%string := 0 ]} in
  daemon_tick jobs_of_listing settings_ (fun _ => Raise ExecutionError) w d
  = daemon_tick jobs_of_listing settings_ (fun _ => Ok "qstat"%string) w d
  /\ daemon_tick jobs_of_listing settings_ (fun _ => Raise ExecutionError) w d
     = example_daemon ∅.
Proof.
  intros jobs_of_listing settings_ w d.
  assert (Hhosts : forall j host,
            In j [example_job SUSPENDED ["pipeline-7"%string]] ->
            In host (GridEngineJob.hosts j) -> host_storage d !! host = None).
  { intros j host [<-|[]] [<-|[]]. vm_compute. reflexivity. }
  destruct (C10_qstat_failure_is_no_job jobs_of_listing settings_ w d
              "qstat"%string _ eq_refl eq_refl eq_refl Hhosts) as (_ & Htick & _).
  split; [exact Htick |]. vm_compute. reflexivity.
Defined.

(** A listing with one suspended job on the idle host [pipeline-99]:
    the scale-down handler finds the job and leaves the host, which it
    removes when [qstat] fails. *)
Lemma C10_suspended_job_counterexample : ~ spec_qstat_failure_is_no_job.
Proof.
  intros Hspec.
  specialize (Hspec (fun _ => Ok [example_job SUSPENDED ["pipeline-99"%string]])
                (example_settings 2) (calm_world (timedelta 60) example_instances)
                (example_daemon {[ "pipeline-99"%string := 0 ]})
                "qstat"%string _ eq_refl eq_refl eq_refl).
  apply (f_equal (fun d => host_storage d !! "pipeline-99"%string)) in Hspec.
  vm_compute in Hspec. discriminate Hspec.
Qed.
